(** * komodo: dependency resolution, installation strategies and the build
      orchestrator of [komodo/build.py], embedded in Rocq, with the
      validators of [komodo/yaml_file_type.py], the report of
      [komodo/cleanup.py] and the release opener of
      [komodo/insert_proposals.py].

    Layout: Part I holds the embedding (data model, resolver, environment
    and file-system model, strategies, orchestrator, sample data, then the
    loaded YAML, the report and the release opener); Part II holds the
    lemmas and the theorems about them. *)

From Stdlib Require Import ZArith String Ascii List Lia.
From Stdlib.Strings Require Import Byte.
From stdpp Require Import base option list gmap strings relations pretty.

Local Open Scope string_scope.
Local Open Scope list_scope.

(* ===================================================================== *)
(** * Part I.  The embedding                                              *)
(* ===================================================================== *)

(** ** Exceptions and outcomes *)

(** The Python exceptions that [build.py] raises or lets escape.
    [SystemExit status line]: [line] was printed on stderr and then
    [sys.exit(status)] was called.  [CalledProcessError cmd]: an external
    command run through [komodo.shell.shell] returned a non-zero status.
    [TransportError]: raised by [requests] while connecting or streaming. *)
Inductive exn : Type :=
| KeyError (key : string)
| SystemExit (status : Z) (line : string)
| ValueError (msg : string)
| ValueErrorUnpack
| NotImplementedError (msg : string)
| RuntimeError (msg : string)
| TypeError
| AttributeError
| OSError (path : string)
| CalledProcessError (cmd : list string)
| TransportError (url : string).

Inductive outcome (A : Type) : Type :=
| Ret (a : A)
| Raise (e : exn).
Arguments Ret {A} a.
Arguments Raise {A} e.

(** A computation that may also run out of fuel ([None]): the recursion of
    [dfs] is not structural, and Python's own recursion is unbounded in the
    same places. *)
Definition comp (A : Type) : Type := option (outcome A).

Definition cret {A} (a : A) : comp A := Some (Ret a).
Definition craise {A} (e : exn) : comp A := Some (Raise e).
Definition cbind {A B} (c : comp A) (k : A -> comp B) : comp B :=
  match c with
  | None => None
  | Some (Raise e) => Some (Raise e)
  | Some (Ret a) => k a
  end.

(** [[f(x) for x in l]]: left to right, the first failure aborts. *)
Fixpoint cmap {A B} (f : A -> comp B) (l : list A) : comp (list B) :=
  match l with
  | [] => cret []
  | x :: l' =>
      cbind (f x) (fun y => cbind (cmap f l') (fun ys => cret (y :: ys)))
  end.

(** ** Data model *)

(** Per-version metadata of the repository file: the optional [depends]
    list and the scalar fields ([make], [maintainer], [makeopts], [url],
    [hash], [destination], [pypi_package_name], [makefile], ...), which
    YAML loads as strings. *)
Record metadata : Type := Metadata {
  depends : option (list string);
  fields : gmap string string
}.

(** [repo : Dict[str, Dict[str, Dict]]]. *)
Abbreviation repository := (gmap string (gmap string metadata)).

(** [pkgs : Dict[str, str]]: a Python dict iterates in insertion order, so
    the requested set is an association list; its keys are distinct. *)
Abbreviation requested := (list (string * string)).

Fixpoint pkgs_get (pkgs : requested) (name : string) : option string :=
  match pkgs with
  | [] => None
  | (k, v) :: rest => if decide (k = name) then Some v else pkgs_get rest name
  end.

(** [pkgs.__contains__]. *)
Definition pkgs_contains (pkgs : requested) (name : string) : bool :=
  bool_decide (is_Some (pkgs_get pkgs name)).

(** [repo[package_name][ver]], with the key of the [KeyError] it raises. *)
Definition repo_get (repo : repository) (package_name ver : string)
  : outcome metadata :=
  match repo !! package_name with
  | None => Raise (KeyError package_name)
  | Some versions =>
      match versions !! ver with
      | None => Raise (KeyError ver)
      | Some current => Ret current
      end
  end.

(** ** Dependency resolver *)

(** The line [dfs] prints on stderr before [sys.exit(1)]. *)
Definition missing_dependency_line (deps : list string) : string :=
  "error: " +:+ String.concat "," deps
    +:+ " required as dependency, is not in distribution".

(** [self(x, pkgs[x], ...)]: the call the list comprehension of [dfs] makes
    for the dependency [x]. *)
Definition dfs_call (self : string -> string -> comp (list string))
    (pkgs : requested) (x : string) : comp (list string) :=
  match pkgs_get pkgs x with
  | None => craise (KeyError x)
  | Some v => self x v
  end.

(** [dfs(package_name, ver, pkgs, repo)].  The list comprehension calls
    [dfs] eagerly on every dependency, in order; [flatten] only
    concatenates the results. *)
Fixpoint dfs (fuel : nat) (package_name ver : string)
    (pkgs : requested) (repo : repository) : comp (list string) :=
  match fuel with
  | O => None
  | S fuel' =>
      match repo_get repo package_name ver with
      | Raise e => craise e
      | Ret current =>
          match depends current with
          | None => cret [package_name]
          | Some deps =>
              if forallb (pkgs_contains pkgs) deps then
                cbind
                  (cmap (dfs_call (fun x v => dfs fuel' x v pkgs repo) pkgs)
                        deps)
                  (fun dependencies =>
                     cret (concat (dependencies ++ [[package_name]])))
              else
                craise (SystemExit 1%Z (missing_dependency_line deps))
          end
      end
  end.

(** [flatten(dfs(pkg, ver, pkgs, repo) for pkg, ver in pkgs.items())]: the
    generator is consumed by the loop below, root after root. *)
Definition packages_needed (fuel : nat) (pkgs : requested)
    (repo : repository) : comp (list string) :=
  cbind (cmap (fun '(pkg, ver) => dfs fuel pkg ver pkgs repo) pkgs)
        (fun per_root => cret (concat per_root)).

(** The de-duplication loop of [make]: [seen_package] and [pkgorder]. *)
Fixpoint dedup_loop (seen_package : gset string) (pkgorder : list string)
    (stream : list string) : list string :=
  match stream with
  | [] => pkgorder
  | package_needed :: rest =>
      if decide (package_needed ∈ seen_package)
      then dedup_loop seen_package pkgorder rest
      else dedup_loop ({[package_needed]} ∪ seen_package)
                      (pkgorder ++ [package_needed]) rest
  end.

(** Lines 260-268 of [make]: the value of [pkgorder], the build plan. *)
Definition build_order (fuel : nat) (pkgs : requested) (repo : repository)
  : comp (list string) :=
  cbind (packages_needed fuel pkgs repo)
        (fun stream => cret (dedup_loop ∅ [] stream)).

(** *** Vocabulary of the resolver's specification *)

(** [dep pkgs repo p d]: [p] is requested and its metadata, at the requested
    version, lists [d] under [depends]. *)
Definition dep (pkgs : requested) (repo : repository) (p d : string) : Prop :=
  exists v current deps,
    pkgs_get pkgs p = Some v /\ repo_get repo p v = Ret current /\
    depends current = Some deps /\ d ∈ deps.

Definition acyclic (pkgs : requested) (repo : repository) : Prop :=
  forall p, ~ tc (dep pkgs repo) p p.

(** Every requested package has metadata at its requested version. *)
Definition repo_complete (pkgs : requested) (repo : repository) : Prop :=
  forall p v, pkgs_get pkgs p = Some v -> exists current, repo_get repo p v = Ret current.

(** Every declared dependency of a requested package is requested. *)
Definition deps_requested (pkgs : requested) (repo : repository) : Prop :=
  forall p d, dep pkgs repo p d -> is_Some (pkgs_get pkgs d).

(** [d] occurs strictly before [p] in [l]. *)
Definition before (d p : string) (l : list string) : Prop :=
  exists l1 l2 l3, l = l1 ++ d :: l2 ++ p :: l3.

(** The specification's de-duplication: keep the first occurrence of every
    name, drop the later ones. *)
Fixpoint first_seen (l : list string) : list string :=
  match l with
  | [] => []
  | x :: l' => x :: filter (fun y => y <> x) (first_seen l')
  end.

(** [deps_first R seen l]: every name of [l] has all its [R]-successors
    among [seen] or earlier in [l]. *)
Inductive deps_first (R : string -> string -> Prop)
  : list string -> list string -> Prop :=
| deps_first_nil seen : deps_first R seen []
| deps_first_cons seen q l :
    (forall d, R q d -> d ∈ seen) ->
    deps_first R (seen ++ [q]) l ->
    deps_first R seen (q :: l).

(** [p] is requested, lists [deps] under [depends], and [d] among them is
    not requested. *)
Definition missing_dependency (pkgs : requested) (repo : repository)
    (p : string) (deps : list string) (d : string) : Prop :=
  exists v current,
    pkgs_get pkgs p = Some v /\ repo_get repo p v = Ret current /\
    depends current = Some deps /\ d ∈ deps /\ pkgs_get pkgs d = None.

(** [p] is requested at [v] and the repository has no metadata for it
    there: [repo[p][v]] raises [KeyError key]. *)
Definition missing_metadata (pkgs : requested) (repo : repository)
    (p key : string) : Prop :=
  exists v, pkgs_get pkgs p = Some v /\ repo_get repo p v = Raise (KeyError key).

(** *** Deciding the hypotheses on a given input *)

(** The metadata of a requested package, at its requested version. *)
Definition metadata_of (pkgs : requested) (repo : repository) (p : string)
  : option metadata :=
  match pkgs_get pkgs p with
  | None => None
  | Some v => match repo_get repo p v with
              | Ret current => Some current
              | Raise _ => None
              end
  end.

(** The dependencies it declares. *)
Definition declared (pkgs : requested) (repo : repository) (p : string)
  : list string :=
  match metadata_of pkgs repo p with
  | Some current => default [] (depends current)
  | None => []
  end.

Definition check_complete (pkgs : requested) (repo : repository) : bool :=
  forallb (fun root => bool_decide (is_Some (metadata_of pkgs repo root.1))) pkgs.

Definition check_deps_requested (pkgs : requested) (repo : repository) : bool :=
  forallb (fun root => forallb (pkgs_contains pkgs) (declared pkgs repo root.1)) pkgs.

(** The place of [x] in [order], or its length. *)
Fixpoint rank_in (order : list string) (x : string) : nat :=
  match order with
  | [] => O
  | y :: rest => if decide (y = x) then O else S (rank_in rest x)
  end.

(** Every declared dependency stands before its dependent in [order]. *)
Definition check_ranked (order : list string) (pkgs : requested)
    (repo : repository) : bool :=
  forallb (fun root =>
             forallb (fun d => Nat.ltb (rank_in order d) (rank_in order root.1))
                     (declared pkgs repo root.1)) pkgs.

(** ** Python strings *)

(** [s.split(sep)] for a one-character separator: every occurrence cuts,
    and the empty string splits into one empty piece. *)
Fixpoint split (sep : ascii) (s : string) : list string :=
  match s with
  | EmptyString => [""]
  | String c s' =>
      if Ascii.eqb c sep then "" :: split sep s'
      else match split sep s' with
           | [] => [String c ""]
           | w :: ws => String c w :: ws
           end
  end.

(** [s.startswith(pre)]. *)
Definition startswith (pre s : string) : bool := String.prefix pre s.

Fixpoint endswith_char (c : ascii) (s : string) : bool :=
  match s with
  | EmptyString => false
  | String a EmptyString => Ascii.eqb a c
  | String _ s' => endswith_char c s'
  end.

(** [s.replace(old, new)] for a non-empty [old]: left to right, without
    overlap; [skip] counts the characters of a match still to be dropped. *)
Fixpoint replace_go (old new : string) (skip : nat) (s : string) : string :=
  match s with
  | EmptyString => EmptyString
  | String c s' =>
      match skip with
      | S k => replace_go old new k s'
      | O =>
          if String.prefix old s
          then new +:+ replace_go old new (String.length old - 1) s'
          else String c (replace_go old new O s')
      end
  end.
Definition replace (old new s : string) : string := replace_go old new O s.

(** [str(x)] inside an f-string, for a value that may be [None]. *)
Definition fmt (o : option string) : string := default "None" o.

(** ** [os.path] and [pathlib] *)

(** [os.path.join(a, b)] on POSIX. *)
Definition os_path_join (a b : string) : string :=
  if startswith "/" b then b
  else if bool_decide (a = "") || endswith_char "/" a then a +:+ b
  else a +:+ "/" +:+ b.

(** The root of a POSIX path: ["//"] for exactly two leading slashes,
    ["/"] for one or for three and more, none for a relative path. *)
Definition path_root (s : string) : list string :=
  if startswith "//" s && negb (startswith "///" s) then ["//"]
  else if startswith "/" s then ["/"]
  else [].

(** The names of a path: empty pieces and ["."] are dropped. *)
Definition path_names (s : string) : list string :=
  filter (fun x => x <> "" /\ x <> ".") (split "/" s).

(** [pathlib.Path(s).parts]. *)
Definition path_parts (s : string) : list string := path_root s ++ path_names s.

(** [base / seg], as parts: an absolute [seg] replaces [base]. *)
Definition path_div (base : list string) (seg : string) : list string :=
  if startswith "/" seg then path_parts seg else base ++ path_names seg.

(** [str(path)] of a path given by its parts. *)
Definition path_str (parts : list string) : string :=
  match parts with
  | [] => "."
  | r :: names =>
      if startswith "/" r then r +:+ String.concat "/" names
      else String.concat "/" parts
  end.

(** ** The process and its surroundings *)

Record file : Type := File {
  st_mode : Z;
  content : list byte
}.

(** What the run does to the outside, in order: a line printed, a command
    handed to [shell], a directory made by [Path.mkdir], the working
    directory entered and left by [pushd], a call of [session.get] on a URL,
    a file opened for writing, a chunk written, a mode set by [chmod]. *)
Inductive event : Type :=
| Stdout (line : string)
| Stderr (line : string)
| Shell (cmd : list string)
| Mkdir (path : string)
| Pushd (path : string)
| Popd
| HttpGet (url : string)
| OpenWb (path : list string)
| WriteChunk (path : list string) (chunk : list byte)
| Chmod (path : list string) (mode : Z).

(** [environ] is [os.environ]; [files] maps the parts of a path to the
    regular file there; [trace] is chronological. *)
Record world : Type := World {
  environ : gmap string string;
  files : gmap (list string) file;
  trace : list event
}.

(** A streamed HTTP response: status, the chunks [iter_content] yields, and
    whether the stream ends normally after them. *)
Record response : Type := Response {
  status_code : Z;
  chunks : list (list byte);
  complete : bool
}.

(** What the code calls but the repository's [build.py] does not define:
    the outside world's answers and the helpers of sibling modules and of
    the Python library.
    - [shell_run history cmd]: the output of the command, [None] for a
      non-zero exit;
    - [mkdir_ok], [open_ok]: whether the directory can be made, the file
      opened for writing; [create_mode]: the mode of a file [open] creates;
    - [http_get url]: the response, [None] when the transport gives up;
    - [sha256_hexdigest]: [hashlib.sha256(bytes).hexdigest()];
    - [abspath]: [os.path.abspath] in the run's working directory;
    - [strip_version], [latest_pypi_version], [LATEST_PACKAGE_ALIAS]:
      [komodo.package_version]. *)
Record externals : Type := Externals {
  shell_run : list event -> list string -> option string;
  mkdir_ok : string -> bool;
  open_ok : list string -> bool;
  create_mode : Z;
  http_get : string -> option response;
  sha256_hexdigest : list byte -> string;
  abspath : string -> string;
  strip_version : string -> string;
  latest_pypi_version : string -> string;
  LATEST_PACKAGE_ALIAS : string
}.

(** ** Stateful code: a state and exception monad over [world] *)

Definition prog (A : Type) : Type := world -> outcome A * world.

Definition pret {A} (a : A) : prog A := fun w => (Ret a, w).
Definition praise {A} (e : exn) : prog A := fun w => (Raise e, w).
Definition pbind {A B} (c : prog A) (k : A -> prog B) : prog B :=
  fun w =>
    match c w with
    | (Ret a, w') => k a w'
    | (Raise e, w') => (Raise e, w')
    end.

Notation "x <- c1 ;; c2" := (pbind c1 (fun x => c2))
  (at level 100, c1 at next level, right associativity).
Notation "c1 ;; c2" := (pbind c1 (fun _ => c2))
  (at level 100, right associativity).

Definition lift {A} (o : outcome A) : prog A := fun w => (o, w).

Definition log (e : event) : prog unit :=
  fun w => (Ret tt, World (environ w) (files w) (trace w ++ [e])).

(** [print(line)]. *)
Definition print (line : string) : prog unit := log (Stdout line).

(** [os.environ[name] = value]; a value that is [None] raises [TypeError]. *)
Definition setenv (name : string) (value : option string) : prog unit :=
  fun w =>
    match value with
    | None => (Raise TypeError, w)
    | Some v => (Ret tt, World (<[name := v]> (environ w)) (files w) (trace w))
    end.

(** [os.environ[name]]. *)
Definition getenv_item (name : string) : prog string :=
  fun w =>
    match environ w !! name with
    | None => (Raise (KeyError name), w)
    | Some v => (Ret v, w)
    end.

(** [os.environ.get(name)]. *)
Definition getenv (name : string) : prog (option string) :=
  fun w => (Ret (environ w !! name), w).

(** [del os.environ[name]]. *)
Definition delenv (name : string) : prog unit :=
  fun w =>
    match environ w !! name with
    | None => (Raise (KeyError name), w)
    | Some _ => (Ret tt, World (delete name (environ w)) (files w) (trace w))
    end.

(** Modelled from the spec: [komodo.shell.shell] is not among the sources;
    the specification treats it as the opaque capability to run an external
    command, capture its output and propagate its failure.  A command given
    as one string is the one-element list. *)
Definition shell (X : externals) (cmd : list string) : prog string :=
  fun w =>
    let w' := World (environ w) (files w) (trace w ++ [Shell cmd]) in
    match shell_run X (trace w) cmd with
    | Some out => (Ret out, w')
    | None => (Raise (CalledProcessError cmd), w')
    end.

(** Modelled from the spec: [komodo.shell.pushd] is not among the sources;
    it is the scoped change of working directory ("working directory is a
    method-specific build-scratch subdirectory"), entered before the body
    and left when the body completes. *)
Definition pushd {A} (path : string) (body : prog A) : prog A :=
  log (Pushd path) ;; r <- body ;; log Popd ;; pret r.

(** [Path(path).mkdir(parents=True, exist_ok=True)]. *)
Definition mkdir_parents (X : externals) (path : string) : prog unit :=
  log (Mkdir path) ;;
  if mkdir_ok X path then pret tt else praise (OSError path).

(** [appends c]: running [c] only adds events at the end of the trace. *)
Definition appends {A} (c : prog A) : Prop :=
  forall w, exists events, trace (c w).2 = trace w ++ events.

(** ** Installation strategies *)

Definition installing (package_name ver how : string) : string :=
  "Installing " +:+ package_name +:+ " (" +:+ ver +:+ ") " +:+ how.

(** [rpm(package_name, ver, pkgpath, prefix)]. *)
Definition rpm (X : externals) (package_name ver pkgpath prefix : string)
  : prog unit :=
  pushd prefix
    (print (installing package_name ver "from rpm") ;;
     shell X ["rpm2cpio " +:+ pkgpath +:+ ".rpm | cpio -imd --quiet"] ;;
     shell X ["rsync -a usr/* ."] ;;
     shell X ["rm -rf usr"] ;;
     pret tt).

Definition cmake_flags (prefix fakeroot : string) : list string :=
  let fakeprefix := fakeroot +:+ prefix in
  [ "-DCMAKE_BUILD_TYPE=Release";
    "-DBOOST_ROOT=" +:+ fakeprefix;
    "-DBUILD_SHARED_LIBS=ON";
    "-DCMAKE_PREFIX_PATH=" +:+ fakeprefix;
    "-DCMAKE_MODULE_PATH=" +:+ fakeprefix +:+ "/share/cmake/Modules";
    "-DCMAKE_INSTALL_PREFIX=" +:+ prefix;
    "-DDEST_PREFIX=" +:+ fakeroot ].

(** [cmake(...)]: the compile strategy.  [ld_lib_path] and [bin_path]
    default to [None] in the source. *)
Definition cmake (X : externals) (package_name ver pkgpath prefix : string)
    (builddir : option string) (makeopts : string) (jobs : nat)
    (fakeroot : string) (ld_lib_path bin_path : option string)
    (cmake_exe : string) : prog unit :=
  let bdir := package_name +:+ "-" +:+ ver +:+ "-build" in
  let bdir := match builddir with
              | Some b => os_path_join b bdir
              | None => bdir
              end in
  let flags := cmake_flags prefix fakeroot in
  mkdir_parents X bdir ;;
  pushd bdir
    (setenv "LD_LIBRARY_PATH" ld_lib_path ;;
     _pre_PATH <- getenv_item "PATH" ;;
     setenv "PATH" bin_path ;;
     print (installing package_name ver "from source with cmake") ;;
     shell X ([cmake_exe; pkgpath] ++ flags ++ [makeopts]) ;;
     out <- shell X ["make -j" +:+ pretty jobs] ;;
     print out ;;
     out <- shell X ["make DESTDIR=" +:+ fakeroot +:+ " install"] ;;
     print out ;;
     delenv "LD_LIBRARY_PATH" ;;
     setenv "PATH" (Some _pre_PATH)).

(** [sh(...)]: [data.get(makefile)] is the script's path; [data], an object
    of a sibling module, is taken as the finite map behind its [get]. *)
Definition sh (X : externals) (package_name ver pkgpath : string)
    (data : gmap string string) (prefix : string) (makefile : option string)
    (fakeroot pythonpath bin_path pip : string) (virtualenv : option string)
    (ld_lib_path : string) (jobs : nat) (cmake_exe : string)
    (makeopts : string) : prog unit :=
  let makefile := makefile ≫= fun k => data !! k in
  pushd pkgpath
    (let cmd :=
       [ "bash " +:+ fmt makefile +:+ " --prefix " +:+ prefix;
         "--fakeroot " +:+ fakeroot;
         "--python " +:+ prefix +:+ "/bin/python" ]
       ++ (if decide (jobs = O) then [] else ["--jobs " +:+ pretty jobs])
       ++ (if decide (cmake_exe = "") then [] else ["--cmake " +:+ cmake_exe])
       ++ [ "--pythonpath " +:+ pythonpath;
            "--path " +:+ bin_path;
            "--pip " +:+ pip;
            "--virtualenv " +:+ fmt virtualenv;
            "--ld-library-path " +:+ ld_lib_path;
            makeopts ] in
     print (installing package_name ver "from sh") ;;
     shell X cmd ;;
     pret tt).

(** [rsync(...)]. *)
Definition rsync (X : externals) (package_name ver pkgpath prefix fakeroot
    makeopts : string) : prog unit :=
  print (installing package_name ver "with rsync") ;;
  shell X ["rsync -am"; makeopts; pkgpath +:+ "/"; fakeroot +:+ prefix] ;;
  pret tt.

(** [open(dest, "wb")]: creates the file, or truncates it and keeps its
    mode. *)
Definition open_wb (X : externals) (dest : list string) : prog unit :=
  log (OpenWb dest) ;;
  fun w =>
    if open_ok X dest then
      let mode := match files w !! dest with
                  | Some f => st_mode f
                  | None => create_mode X
                  end in
      (Ret tt, World (environ w) (<[dest := File mode []]> (files w)) (trace w))
    else (Raise (OSError (path_str dest)), w).

(** [file_handle.write(chunk)]. *)
Definition file_write (dest : list string) (chunk : list byte) : prog unit :=
  log (WriteChunk dest chunk) ;;
  fun w =>
    (Ret tt,
     World (environ w)
           (alter (fun f => File (st_mode f) (content f ++ chunk)) dest (files w))
           (trace w)).

(** The loop over [response.iter_content]: every chunk is written and fed
    to [sha256.update]; [hashed] is what the digest object has absorbed. *)
Fixpoint write_chunks (dest : list string) (body : list (list byte))
    (hashed : list byte) : prog (list byte) :=
  match body with
  | [] => pret hashed
  | chunk :: rest =>
      file_write dest chunk ;;
      write_chunks dest rest (hashed ++ chunk)
  end.

Definition S_IXUSR : Z := 64.
Definition S_IXGRP : Z := 8.
Definition S_IXOTH : Z := 1.

(** [dest.chmod(dest.stat().st_mode | S_IXUSR | S_IXGRP | S_IXOTH)]. *)
Definition chmod_executable (dest : list string) : prog unit :=
  fun w =>
    match files w !! dest with
    | None => (Raise (OSError (path_str dest)), w)
    | Some f =>
        let mode := Z.lor (Z.lor (Z.lor (st_mode f) S_IXUSR) S_IXGRP) S_IXOTH in
        (Ret tt,
         World (environ w) (<[dest := File mode (content f)]> (files w))
               (trace w ++ [Chmod dest mode]))
    end.

(** [session.get(url, stream=True)]. *)
Definition session_get (X : externals) (url : string) : prog response :=
  log (HttpGet url) ;;
  match http_get X url with
  | Some r => pret r
  | None => praise (TransportError url)
  end.

(** A value that must not be [None]: [e] is what using [None] in its place
    raises ([AttributeError] for a method call, [TypeError] for [/]). *)
Definition not_none {A} (e : exn) (o : option A) : prog A :=
  match o with
  | Some a => pret a
  | None => praise e
  end.

(** [download(package_name, ver, prefix, url, hash_str, fakeroot,
    destination)]: the verified-download strategy.  [make] passes
    [current.get(...)], hence the options. *)
Definition download (X : externals) (package_name ver prefix : string)
    (url hash_str : option string) (fakeroot : string)
    (destination : option string) : prog unit :=
  print (installing package_name ver "with download") ;;
  url <- not_none AttributeError url ;;
  if negb (startswith "https" url) then
    praise (ValueError (url +:+ " does not use https:// protocol"))
  else
    hash_str <- not_none AttributeError hash_str ;;
    match split ":" hash_str with
    | [hash_type; hash_value] =>
        if decide (hash_type <> "sha256") then
          praise (NotImplementedError
                    ("Hash type " +:+ hash_type
                       +:+ " given - only sha256 implemented"))
        else
          let fakeprefix := path_parts (fakeroot +:+ prefix) in
          destination <- not_none TypeError destination ;;
          let dest_path := path_div fakeprefix destination in
          response <- session_get X url ;;
          if decide (status_code response <> 200%Z) then
            praise (RuntimeError
                      ("GET request to " +:+ url +:+ " returned status code "
                         +:+ pretty (status_code response)))
          else
            open_wb X dest_path ;;
            hashed <- write_chunks dest_path (chunks response) [] ;;
            (if complete response then pret tt
             else praise (TransportError url)) ;;
            let hexdigest := sha256_hexdigest X hashed in
            if decide (hexdigest <> hash_value) then
              praise (ValueError
                        ("Hash of downloaded file (" +:+ hexdigest
                           +:+ ") not equal to expected hash."))
            else if decide ("bin" ∈ dest_path) then chmod_executable dest_path
            else pret tt
    | _ => praise ValueErrorUnpack
    end.

(** The mode [open] leaves on the destination. *)
Definition opened_mode (X : externals) (w : world) (dest : list string) : Z :=
  match files w !! dest with
  | Some f => st_mode f
  | None => create_mode X
  end.

(** What [chmod_executable] writes. *)
Definition with_exec_bits (mode : Z) : Z :=
  Z.lor (Z.lor (Z.lor mode S_IXUSR) S_IXGRP) S_IXOTH.

(** The directory a path's last name lies in. *)
Definition final_directory (parts : list string) : option string :=
  last (removelast parts).

(** [pip_install(...)]. *)
Definition pip_install (X : externals) (package_name ver prefix : string)
    (dlprefix : option string) (fakeroot pip makeopts : string) : prog unit :=
  let ver := strip_version X ver in
  let ver := if decide (ver = LATEST_PACKAGE_ALIAS X)
             then latest_pypi_version X package_name else ver in
  let cmd :=
    [ pip;
      "install " +:+ package_name +:+ "==" +:+ strip_version X ver;
      "--root " +:+ fakeroot;
      "--prefix " +:+ prefix;
      "--no-index";
      "--no-deps";
      "--ignore-installed";
      "--cache-dir " +:+ fmt dlprefix;
      "--find-links " +:+ fmt dlprefix;
      makeopts ] in
  print (installing package_name ver "from pip") ;;
  shell X cmd ;;
  pret tt.

(** [noop(package_name, ver)]. *)
Definition noop (package_name ver : string) : prog unit :=
  print ("Doing nothing for noop package " +:+ package_name
           +:+ " (" +:+ ver +:+ ")").

(** [pypaths(prefix, version)]. *)
Definition pypaths (prefix : string) (version : option string) : string :=
  match version with
  | None => ""
  | Some version =>
      let pyver := "python" +:+ String.concat "." (removelast (split "." version)) in
      String.concat ":"
        [ prefix +:+ "/lib/" +:+ pyver;
          prefix +:+ "/lib/" +:+ pyver +:+ "/site-packages";
          prefix +:+ "/lib64/" +:+ pyver +:+ "/site-packages" ]
  end.

(** ** Build orchestrator *)

(** The keyword arguments of [make]. *)
Record make_args : Type := MakeArgs {
  data : gmap string string;
  prefix : string;
  dlprefix : option string;
  builddir : option string;
  jobs : nat;
  cmk : string;
  pip : string;
  virtualenv : option string;
  fakeroot : string
}.

(** What [make] computes once, before its loop over the plan. *)
Record staging : Type := Staging {
  abs_prefix : string;
  ld_lib_path : string;
  extra_makeopts : option string;
  build_pythonpath : string;
  bin_path : string
}.

(** [key in current]. *)
Definition has_key (current : metadata) (key : string) : bool :=
  if decide (key = "depends") then bool_decide (is_Some (depends current))
  else bool_decide (is_Some (fields current !! key)).

(** [current[key]] for a scalar field. *)
Definition field_item (current : metadata) (key : string) : outcome string :=
  match fields current !! key with
  | Some v => Ret v
  | None => Raise (KeyError key)
  end.

(** [pkgs[name]]. *)
Definition pkgs_item (pkgs : requested) (name : string) : outcome string :=
  match pkgs_get pkgs name with
  | Some v => Ret v
  | None => Raise (KeyError name)
  end.

Definition download_keys : list string := ["url"; "destination"; "hash"].

(** The three consistency checks of the loop body (lines 306-318): the
    message of the [ValueError] raised, if any. *)
Definition validate (current : metadata) (make : string) : option string :=
  if existsb (has_key current) download_keys
     && bool_decide (make <> "download") then
    Some (String.concat ", " download_keys +:+ " only valid with 'make: download'")
  else if negb (forallb (has_key current) download_keys)
          && bool_decide (make = "download") then
    Some (String.concat ", " download_keys +:+ " all required with 'make: download'")
  else if has_key current "pypi_package_name"
          && bool_decide (make <> "pip") then
    Some "pypi_package_name is only valid when building with pip"
  else None.

(** The build methods the chain of [make] knows. *)
Definition build_methods : list string :=
  ["rpm"; "cmake"; "pip"; "sh"; "rsync"; "noop"; "download"].

(** Metadata the loop body rejects: a failed consistency check, or a build
    method outside [build_methods]. *)
Definition misconfigured (current : metadata) (make : string) : Prop :=
  is_Some (validate current make) \/ make ∉ build_methods.

(** [filter(None, l)]: [None] and the empty string are dropped. *)
Definition truthy (l : list (option string)) : list string :=
  omap (fun o => match o with
                 | Some s => if decide (s = "") then None else Some s
                 | None => None
                 end) l.

(** The if/elif chain of lines 327-393.  The [rpm] test is an [if] of its
    own, so the chain that follows is entered after it as well. *)
Definition dispatch (X : externals) (a : make_args) (c : staging)
    (current : metadata) (make package_name ver pkgpath makeopts : string)
  : prog unit :=
  (if decide (make = "rpm")
   then rpm X package_name ver pkgpath (abs_prefix c)
   else pret tt) ;;
  if decide (make = "cmake") then
    cmake X package_name ver pkgpath (abs_prefix c) (builddir a) makeopts
          (jobs a) (fakeroot a) (Some (ld_lib_path c)) (Some (bin_path c))
          (cmk a)
  else if decide (make = "pip") then
    pip_install X package_name ver (abs_prefix c) (dlprefix a) (fakeroot a)
                (pip a) makeopts
  else if decide (make = "sh") then
    sh X package_name ver pkgpath (data a) (abs_prefix c)
       (fields current !! "makefile") (fakeroot a) (build_pythonpath c)
       (bin_path c) (pip a) (virtualenv a) (ld_lib_path c) (jobs a) (cmk a)
       makeopts
  else if decide (make = "rsync") then
    rsync X package_name ver pkgpath (abs_prefix c) (fakeroot a) makeopts
  else if decide (make = "noop") then
    noop package_name ver
  else if decide (make = "download") then
    download X package_name ver (abs_prefix c) (fields current !! "url")
             (fields current !! "hash") (fakeroot a)
             (fields current !! "destination")
  else
    praise (ValueError ("Non-supported make: " +:+ make)).

(** [resolve(input_str)], local to [make]: the final prefix for its
    placeholder. *)
Definition resolve (prefix input_str : string) : string :=
  replace "$(prefix)" prefix input_str.

(** One iteration of the loop of [make] (lines 300-393). *)
Definition make_entry (X : externals) (pkgs : requested) (repo : repository)
    (a : make_args) (c : staging) (package_name path : string) : prog unit :=
  ver <- lift (pkgs_item pkgs package_name) ;;
  current <- lift (repo_get repo package_name ver) ;;
  make <- lift (field_item current "make") ;;
  let pkgpath := abspath X path in
  match validate current make with
  | Some msg => praise (ValueError msg)
  | None =>
      let package_name :=
        default package_name (fields current !! "pypi_package_name") in
      let makeopts := default "" (fields current !! "makeopts") in
      let makeopts :=
        match extra_makeopts c with
        | Some extra =>
            if decide (extra = "") then makeopts
            else makeopts +:+ " " +:+ extra
        | None => makeopts
        end in
      let makeopts := resolve (abs_prefix c) makeopts in
      dispatch X a c current make package_name ver pkgpath makeopts
  end.

(** [for package_name, path in zip(pkgorder, pkgpaths)]. *)
Fixpoint make_loop (X : externals) (pkgs : requested) (repo : repository)
    (a : make_args) (c : staging) (entries : list (string * string))
  : prog unit :=
  match entries with
  | [] => pret tt
  | (package_name, path) :: rest =>
      make_entry X pkgs repo a c package_name path ;;
      make_loop X pkgs repo a c rest
  end.

(** [[f"{name}-{pkgs[name]}" for name in pkgorder]]. *)
Fixpoint pkgpaths_of (pkgs : requested) (pkgorder : list string)
  : outcome (list string) :=
  match pkgorder with
  | [] => Ret []
  | name :: rest =>
      match pkgs_item pkgs name with
      | Raise e => Raise e
      | Ret v =>
          match pkgpaths_of pkgs rest with
          | Raise e => Raise e
          | Ret paths => Ret ((name +:+ "-" +:+ v) :: paths)
          end
      end
  end.

(** Lines 270-295 of [make]: the staging directory, the environment and the
    values shared by every entry; the result is the list the loop runs on. *)
Definition prepare (X : externals) (pkgs : requested) (a : make_args)
    (pkgorder : list string) : prog (staging * list (string * string)) :=
  let fakeprefix := fakeroot a +:+ prefix a in
  shell X ["mkdir -p"; fakeprefix] ;;
  let abs := abspath X (prefix a) in
  setenv "DESTDIR" (Some (fakeroot a)) ;;
  setenv "BOOST_ROOT" (Some fakeprefix) ;;
  ld <- getenv "LD_LIBRARY_PATH" ;;
  let ld_lib_path :=
    String.concat ":"
      (truthy [ Some (os_path_join fakeprefix "lib");
                Some (os_path_join fakeprefix "lib64"); ld ]) in
  extra <- getenv "EXTRA_MAKEOPTS" ;;
  let build_pythonpath := pypaths fakeprefix (pkgs_get pkgs "python") in
  path <- getenv_item "PATH" ;;
  let bin_path := String.concat ":" [os_path_join fakeprefix "bin"; path] in
  pkgpaths <- lift (pkgpaths_of pkgs pkgorder) ;;
  let pkgpaths :=
    match dlprefix a with
    | Some d => if decide (d = "") then pkgpaths
                else map (os_path_join d) pkgpaths
    | None => pkgpaths
    end in
  pret (Staging abs ld_lib_path extra build_pythonpath bin_path,
        zip pkgorder pkgpaths).

(** [make(pkgs, repo, data, prefix, ...)].  [None]: the resolution did not
    return within [fuel] nested calls. *)
Definition make (X : externals) (fuel : nat) (pkgs : requested)
    (repo : repository) (a : make_args) (w : world)
  : option (outcome unit * world) :=
  match build_order fuel pkgs repo with
  | None => None
  | Some (Raise (SystemExit status line)) =>
      Some (Raise (SystemExit status line),
            World (environ w) (files w) (trace w ++ [Stderr line]))
  | Some (Raise e) => Some (Raise e, w)
  | Some (Ret pkgorder) =>
      Some ((ce <- prepare X pkgs a pkgorder ;;
             make_loop X pkgs repo a ce.1 ce.2) w)
  end.

(** *** Sample data for the resolver *)

Definition meta (make : string) (deps : option (list string)) : metadata :=
  Metadata deps {[ "make" := make; "maintainer" := "scout" ]}.

(** d depends on b and c, which both depend on a. *)
Definition diamond_pkgs : requested :=
  [("d", "1"); ("a", "1"); ("b", "2"); ("c", "1")].
Definition diamond_repo : repository :=
  {[ "a" := {[ "1" := meta "noop" None ]};
     "b" := {[ "2" := meta "noop" (Some ["a"]) ]};
     "c" := {[ "1" := meta "noop" (Some ["a"]) ]};
     "d" := {[ "1" := meta "noop" (Some ["b"; "c"]) ]} ]}.

(** Two packages that depend on each other. *)
Definition cycle_pkgs : requested := [("a", "1"); ("b", "1")].
Definition cycle_repo : repository :=
  {[ "a" := {[ "1" := meta "noop" (Some ["b"]) ]};
     "b" := {[ "1" := meta "noop" (Some ["a"]) ]} ]}.



(** [b] needs [c], requested but without metadata; [a], requested before
    them, needs [zz], which is not requested. *)
Definition exit_first_pkgs : requested := [("a", "1"); ("b", "1"); ("c", "1")].
Definition exit_first_repo : repository :=
  {[ "a" := {[ "1" := meta "pip" (Some ["zz"]) ]};
     "b" := {[ "1" := meta "pip" (Some ["c"]) ]} ]}.

(** [b] needs [c], requested at a version the repository does not have. *)
Definition stale_pkgs : requested := [("b", "1"); ("c", "2")].
Definition stale_repo : repository :=
  {[ "b" := {[ "1" := meta "pip" (Some ["c"]) ]};
     "c" := {[ "1" := meta "pip" None ]} ]}.

(** *** Sample surroundings for the strategies *)

(** A stand-in for the digest function: the number of bytes, in decimal. *)
Definition toy_digest (bytes : list byte) : string := pretty (length bytes).

Definition tool_bytes : list (list byte) := [[x23; x21]%byte; [x0a]%byte].

(** Tools that all succeed, and a server that answers 200 with three bytes
    in two chunks. *)
Definition working_tools : externals :=
  {| shell_run := fun _ _ => Some "";
     mkdir_ok := fun _ => true;
     open_ok := fun _ => true;
     create_mode := 420;
     http_get := fun _ => Some (Response 200 tool_bytes true);
     sha256_hexdigest := toy_digest;
     abspath := fun path => if startswith "/" path then path else "/work/" +:+ path;
     strip_version := fun v => v;
     latest_pypi_version := fun _ => "1.0";
     LATEST_PACKAGE_ALIAS := "*" |}.

(** The same, with every external command failing. *)
Definition failing_tools : externals :=
  {| shell_run := fun _ _ => None;
     mkdir_ok := fun _ => true;
     open_ok := fun _ => true;
     create_mode := 420;
     http_get := fun _ => Some (Response 200 tool_bytes true);
     sha256_hexdigest := toy_digest;
     abspath := fun path => if startswith "/" path then path else "/work/" +:+ path;
     strip_version := fun v => v;
     latest_pypi_version := fun _ => "1.0";
     LATEST_PACKAGE_ALIAS := "*" |}.

(** A process whose environment has [PATH] and [LD_LIBRARY_PATH]. *)
Definition login_world : world :=
  World {[ "PATH" := "/usr/bin"; "LD_LIBRARY_PATH" := "/opt/lib" ]} ∅ [].

(** A process whose environment has [PATH] only. *)
Definition plain_world : world := World {[ "PATH" := "/usr/bin" ]} ∅ [].

(** *** Sample data for the orchestrator *)

(** [a] is copied with rsync; [b], built with pip, carries a [url]. *)
Definition mixed_pkgs : requested := [("a", "1"); ("b", "1")].
Definition mixed_repo : repository :=
  {[ "a" := {[ "1" := meta "rsync" None ]};
     "b" := {[ "1" := Metadata None
                        {[ "make" := "pip"; "maintainer" := "scout";
                           "url" := "https://example.org/b" ]} ]} ]}.

Definition mixed_args : make_args :=
  {| data := ∅; prefix := "/prefix"; dlprefix := Some "/dl"; builddir := None;
     jobs := 1; cmk := "cmake"; pip := "pip"; virtualenv := None;
     fakeroot := "/stage" |}.

(** What [prepare] returns on this input. *)
Definition mixed_staging : staging :=
  {| abs_prefix := "/prefix";
     ld_lib_path := "/stage/prefix/lib:/stage/prefix/lib64";
     extra_makeopts := None;
     build_pythonpath := "";
     bin_path := "/stage/prefix/bin:/usr/bin" |}.

(** ** Vocabulary for further properties of [build.py] *)

(** [c in s]. *)
Fixpoint contains_char (c : ascii) (s : string) : bool :=
  match s with
  | EmptyString => false
  | String a s' => Ascii.eqb a c || contains_char c s'
  end.

(** [s.count(c)]. *)
Fixpoint count_char (c : ascii) (s : string) : nat :=
  match s with
  | EmptyString => O
  | String a s' => (if Ascii.eqb a c then 1 else 0) + count_char c s'
  end.

(** The commands handed to [shell] among some events, in order. *)
Definition shell_commands (events : list event) : list (list string) :=
  omap (fun e => match e with Shell cmd => Some cmd | _ => None end) events.

(** The source path of a package: [name-version], under the download
    directory when one is given. *)
Definition pkgpath_of (a : make_args) (name ver : string) : string :=
  match dlprefix a with
  | Some d => if decide (d = "") then name +:+ "-" +:+ ver
              else os_path_join d (name +:+ "-" +:+ ver)
  | None => name +:+ "-" +:+ ver
  end.

(** *** More sample data for the orchestrator *)

(** One package, installed from an rpm archive. *)
Definition rpm_pkgs : requested := [("boost", "1.60")].
Definition rpm_repo : repository :=
  {[ "boost" := {[ "1.60" := meta "rpm" None ]} ]}.

(** Two virtual packages. *)
Definition virtual_pkgs : requested := [("base", "1"); ("extras", "2")].
Definition virtual_repo : repository :=
  {[ "base" := {[ "1" := meta "noop" None ]};
     "extras" := {[ "2" := meta "noop" (Some ["base"]) ]} ]}.

(** A package that pip knows under another name. *)
Definition alias_pkgs : requested := [("yaml", "6.0")].
Definition alias_repo : repository :=
  {[ "yaml" := {[ "6.0" := Metadata None
                            {[ "make" := "pip"; "maintainer" := "scout";
                               "pypi_package_name" := "PyYAML" ]} ]} ]}.

(** ** Loaded YAML: [komodo/yaml_file_type.py] *)

(** What [yaml.safe_load] returns, as far as the validators and their
    callers look at it: [None], booleans, integers, strings, sequences and
    mappings.  A mapping is a Python [dict]: its entries are in insertion
    order and no key occurs twice.  Keys are strings or integers, for which
    Python's [==] is the equality of the values. *)
Inductive key : Type :=
| KStr (s : string)
| KInt (n : Z).

#[local] Unset Elimination Schemes.
Inductive yaml : Type :=
| YNone
| YBool (b : bool)
| YInt (n : Z)
| YStr (s : string)
| YList (elements : list yaml)
| YDict (entries : list (key * yaml)).
#[local] Set Elimination Schemes.

(** A key as a value. *)
Definition key_value (k : key) : yaml :=
  match k with
  | KStr s => YStr s
  | KInt n => YInt n
  end.

(** What these modules raise: the exceptions of [build.py], and those of
    Python, PyYAML, ruamel and PyGithub that [build.py] does not meet.  A
    parser's error carries its text, [Exit] the message given to
    [SystemExit]. *)
Inductive failure : Type :=
| Builtin (e : exn)
| AssertionError (message : string)
| IndexError
| YAMLError (text : string)
| ScannerError (text : string)
| DuplicateKeyError (text : string)
| GithubException
| Exit (message : string).

Inductive result (A : Type) : Type :=
| Ok (a : A)
| Err (e : failure).
Arguments Ok {A} a.
Arguments Err {A} e.

(** What the code calls and Python or PyYAML defines:
    - [read_text path]: [open(path, "r", encoding="utf-8").read()];
    - [open_r value]: the text behind the handle that
      [argparse.FileType("r")] opens for [value];
    - [safe_load text]: [yaml.safe_load] of a text, or of a handle on it;
    - [str_of value]: [str(value)], as an f-string formats a value. *)
Record library : Type := Library {
  read_text : string -> result string;
  open_r : string -> result string;
  safe_load : string -> result yaml;
  str_of : yaml -> string
}.

Definition newline : string := String "010" EmptyString.
Definition double_quote : string := String "034" EmptyString.

(** [yaml.items()]: only a mapping has the method. *)
Definition items (y : yaml) : result (list (key * yaml)) :=
  match y with
  | YDict entries => Ok entries
  | _ => Err (Builtin AttributeError)
  end.

#[global] Instance key_eq_dec : EqDecision key.
Proof. solve_decision. Defined.

(** [d.get(k)] on the entries of a mapping. *)
Fixpoint dict_get (k : key) (entries : list (key * yaml)) : option yaml :=
  match entries with
  | [] => None
  | (k', v) :: rest => if decide (k' = k) then Some v else dict_get k rest
  end.

(** A release as [ReleaseFileYamlString.convert] lets it through: every
    package name and every version a string. *)
Definition release : Type := list (string * string).

(** A repository as [RepositoryFileYamlString.convert] lets it through:
    package names and version identifiers are strings, what a version holds
    is not looked at. *)
Definition registry : Type := list (string * list (string * yaml)).

Definition release_message : string :=
  "The file you provided does not appear to be a release file "
  +:+ "produced by komodo. It may be a release file. Release files "
  +:+ "have a format like the following:" +:+ newline +:+ newline
  +:+ "python: 3.8.6-builtin" +:+ newline +:+ "setuptools: 68.0.0" +:+ newline
  +:+ "wheel: 0.40.0" +:+ newline
  +:+ "zopfli: " +:+ double_quote +:+ "0.3" +:+ double_quote +:+ " ".

(** The loop of [ReleaseFileYamlString.convert] over [yaml.items()]: the
    first entry whose name or version is not a string fails its assertion. *)
Fixpoint release_entries (L : library) (entries : list (key * yaml))
    : result release :=
  match entries with
  | [] => Ok []
  | (KStr package_name, YStr package_version) :: rest =>
      match release_entries L rest with
      | Ok checked => Ok ((package_name, package_version) :: checked)
      | Err e => Err e
      end
  | (KStr package_name, package_version) :: _ =>
      Err (AssertionError
             ("Package version of '" +:+ package_name
                +:+ "' has to be of type string ("
                +:+ str_of L package_version +:+ ")" +:+ newline
                +:+ release_message))
  | (package_name, _) :: _ =>
      Err (AssertionError
             ("INVALID PACKAGE_NAME " +:+ str_of L (key_value package_name)
                +:+ newline +:+ release_message))
  end.

(** [ReleaseFileYamlString.convert(value)].  It returns the mapping it
    loaded; the model returns it with the types the assertions establish. *)
Definition ReleaseFileYamlString_convert (L : library) (value : string)
    : result release :=
  match safe_load L value with
  | Err e => Err e
  | Ok y =>
      match items y with
      | Err e => Err e
      | Ok entries => release_entries L entries
      end
  end.

Definition repository_message : string :=
  "The file you provided does not appear to be a repository file "
  +:+ "produced by komodo. It may be a release file. Repository files "
  +:+ "have a format like the following:" +:+ newline +:+ newline
  +:+ "pytest-runner:" +:+ newline +:+ "  6.0.0:" +:+ newline
  +:+ "    make: pip" +:+ newline +:+ "    "
  +:+ "maintainer: scout" +:+ newline +:+ "    depends:" +:+ newline
  +:+ "      - wheel" +:+ newline +:+ "      - "
  +:+ "setuptools" +:+ newline +:+ "      - python" +:+ newline +:+ newline
  +:+ "python:" +:+ newline +:+ "  3.8:" +:+ newline +:+ "    ...".

(** The inner loop of [RepositoryFileYamlString.convert], over
    [versions.keys()]. *)
Fixpoint version_entries (L : library) (package_name : string)
    (versions : list (key * yaml)) : result (list (string * yaml)) :=
  match versions with
  | [] => Ok []
  | (KStr package_version, metadata) :: rest =>
      match version_entries L package_name rest with
      | Ok checked => Ok ((package_version, metadata) :: checked)
      | Err e => Err e
      end
  | (package_version, _) :: _ =>
      Err (AssertionError
             ("Package version of '" +:+ package_name
                +:+ "' has to be of type string ("
                +:+ str_of L (key_value package_version) +:+ ") " +:+ newline
                +:+ repository_message))
  end.

(** The outer loop, over [yaml.items()].  The message of the first
    assertion is not an f-string: its braces are printed as they are. *)
Fixpoint repository_entries (L : library) (entries : list (key * yaml))
    : result registry :=
  match entries with
  | [] => Ok []
  | (KStr package_name, YDict versions) :: rest =>
      match version_entries L package_name versions with
      | Err e => Err e
      | Ok checked_versions =>
          match repository_entries L rest with
          | Ok checked => Ok ((package_name, checked_versions) :: checked)
          | Err e => Err e
          end
      end
  | (KStr _, _) :: _ => Err (AssertionError repository_message)
  | (_, _) :: _ =>
      Err (AssertionError
             ("Package name '{package_name}' has to be of type string"
                +:+ repository_message))
  end.

(** [RepositoryFileYamlString.convert(value)]. *)
Definition RepositoryFileYamlString_convert (L : library) (value : string)
    : result registry :=
  match safe_load L value with
  | Err e => Err e
  | Ok y =>
      match items y with
      | Err e => Err e
      | Ok entries => repository_entries L entries
      end
  end.

(** [YamlFile.__call__(value)]: the file is opened and loaded. *)
Definition YamlFile_call (L : library) (value : string) : result yaml :=
  match open_r L value with
  | Err e => Err e
  | Ok text => safe_load L text
  end.

(** [name in version_metadata.keys()]: only a mapping has the method. *)
Definition in_keys (name : string) (version_metadata : yaml) : result bool :=
  match version_metadata with
  | YDict fields => Ok (bool_decide (is_Some (dict_get (KStr name) fields)))
  | _ => Err (Builtin AttributeError)
  end.

(** The inner loop of [RepositoryFile.__call__], over [versions.items()]. *)
Fixpoint repository_file_versions (L : library) (versions : list (key * yaml))
    : result unit :=
  match versions with
  | [] => Ok tt
  | (KStr version_id, version_metadata) :: rest =>
      match in_keys "make" version_metadata with
      | Err e => Err e
      | Ok false => Err (AssertionError repository_message)
      | Ok true =>
          match in_keys "maintainer" version_metadata with
          | Err e => Err e
          | Ok false => Err (AssertionError repository_message)
          | Ok true => repository_file_versions L rest
          end
      end
  | (version_id, _) :: _ =>
      Err (AssertionError ("bad version_id " +:+ str_of L (key_value version_id)))
  end.

(** The outer loop, over [yaml.items()]. *)
Fixpoint repository_file_entries (L : library) (entries : list (key * yaml))
    : result unit :=
  match entries with
  | [] => Ok tt
  | (KStr package_name, YDict versions) :: rest =>
      match repository_file_versions L versions with
      | Err e => Err e
      | Ok _ => repository_file_entries L rest
      end
  | (_, _) :: _ => Err (AssertionError repository_message)
  end.

(** [RepositoryFile.__call__(value)]: it returns what it loaded. *)
Definition RepositoryFile_call (L : library) (value : string) : result yaml :=
  match YamlFile_call L value with
  | Err e => Err e
  | Ok y =>
      match items y with
      | Err e => Err e
      | Ok entries =>
          match repository_file_entries L entries with
          | Err e => Err e
          | Ok _ => Ok y
          end
      end
  end.

(** Upgrade proposals as [UpgradeProposalsYamlString.convert] lets them
    through: under each release, [None] or packages with their versions. *)
Definition proposals : Type := list (string * option release).

Definition proposals_message : string :=
  "The string you provided does not appear to be of upgrade_proposals format "
  +:+ "produced by komodo. It may be a release file. Upgrade_proposals files "
  +:+ "have a format like the following:" +:+ newline +:+ newline
  +:+ "2022-08:" +:+ newline +:+ "  libecalc: 8.2.9" +:+ newline
  +:+ "2022-09:" +:+ newline +:+ "  python: 3.9" +:+ newline
  +:+ "  zopfli: 0.3".

(** The inner loop of [UpgradeProposalsYamlString.convert], over
    [packages_to_upgrade.items()].  The message of its first assertion is
    not an f-string. *)
Fixpoint upgrade_entries (L : library) (entries : list (key * yaml))
    : result release :=
  match entries with
  | [] => Ok []
  | (KStr package_name, YStr package_version) :: rest =>
      match upgrade_entries L rest with
      | Ok checked => Ok ((package_name, package_version) :: checked)
      | Err e => Err e
      end
  | (KStr package_name, package_version) :: _ =>
      Err (AssertionError
             ("Package version of '" +:+ package_name
                +:+ "' has to be of type string ("
                +:+ str_of L package_version +:+ ")" +:+ newline
                +:+ proposals_message))
  | (_, _) :: _ =>
      Err (AssertionError
             ("Package name '{package_name}' has to be of type string"
                +:+ newline +:+ proposals_message))
  end.

(** The outer loop, over [yaml.items()]. *)
Fixpoint proposals_entries (L : library) (entries : list (key * yaml))
    : result proposals :=
  match entries with
  | [] => Ok []
  | (KStr release_version, packages_to_upgrade) :: rest =>
      match
        match packages_to_upgrade with
        | YNone => Ok None
        | _ =>
            match items packages_to_upgrade with
            | Err e => Err e
            | Ok upgrades =>
                match upgrade_entries L upgrades with
                | Ok checked => Ok (Some checked)
                | Err e => Err e
                end
            end
        end
      with
      | Err e => Err e
      | Ok packages =>
          match proposals_entries L rest with
          | Ok checked => Ok ((release_version, packages) :: checked)
          | Err e => Err e
          end
      end
  | (_, _) :: _ => Err (AssertionError proposals_message)
  end.

(** [UpgradeProposalsYamlString.convert(value)]. *)
Definition UpgradeProposalsYamlString_convert (L : library) (value : string)
    : result proposals :=
  match safe_load L value with
  | Err e => Err e
  | Ok y =>
      match items y with
      | Err e => Err e
      | Ok entries => proposals_entries L entries
      end
  end.

(** The typed mappings as the values they are. *)
Definition release_yaml (r : release) : yaml :=
  YDict (map (fun '(package, version) => (KStr package, YStr version)) r).

Definition registry_yaml (r : registry) : yaml :=
  YDict (map (fun '(package, versions) =>
                (KStr package,
                 YDict (map (fun '(version, metadata) => (KStr version, metadata))
                            versions))) r).

Definition proposals_yaml (p : proposals) : yaml :=
  YDict (map (fun '(release_version, packages) =>
                (KStr release_version,
                 match packages with
                 | None => YNone
                 | Some upgrades => release_yaml upgrades
                 end)) p).

(** Whether every version of a repository holds a mapping with [make] and
    [maintainer]. *)
Definition maintained (r : registry) : Prop :=
  forall package versions version metadata,
    (package, versions) ∈ r -> (version, metadata) ∈ versions ->
    in_keys "make" metadata = Ok true /\ in_keys "maintainer" metadata = Ok true.

(** ** Unused versions: [komodo/cleanup.py] *)

(** Reading and converting one file. *)
Definition load_repository (L : library) (repository_file : string)
    : result registry :=
  match read_text L repository_file with
  | Err e => Err e
  | Ok repository_file_yaml_string =>
      RepositoryFileYamlString_convert L repository_file_yaml_string
  end.

Definition load_release (L : library) (file_name : string) : result release :=
  match read_text L file_name with
  | Err e => Err e
  | Ok release_file_yaml_string =>
      ReleaseFileYamlString_convert L release_file_yaml_string
  end.

(** The loop that fills [releases]: the files are read in the order given,
    and the first that fails ends the run. *)
Fixpoint load_releases (L : library) (release_files : list string)
    : result (list release) :=
  match release_files with
  | [] => Ok []
  | file_name :: rest =>
      match load_release L file_name with
      | Err e => Err e
      | Ok r =>
          match load_releases L rest with
          | Ok releases => Ok (r :: releases)
          | Err e => Err e
          end
      end
  end.

(** The list of every [(package, version)] of the repository, in the order
    of the file.  (Iterating over the keys of a [dict] and looking each up
    is iterating over its entries.) *)
Definition registered_package_version_combinations (repository : registry)
    : list (string * string) :=
  flat_map (fun '(package, versions) =>
              map (fun '(version, _) => (package, version)) versions)
           repository.

(** The set of every [(package, release[package])]. *)
Definition seen_package_version_combinations (releases : list release)
    : gset (string * string) :=
  foldl (fun seen r =>
           foldl (fun seen '(package, version) => {[ (package, version) ]} ∪ seen)
                 seen r)
        ∅ releases.

(** The last loop: [seen_all] is the flag, the lines are what is printed. *)
Fixpoint report (registered : list (string * string))
    (seen : gset (string * string)) (seen_all : bool) : bool * list string :=
  match registered with
  | [] => (seen_all, [])
  | ver :: rest =>
      if decide (ver ∉ seen) then
        let header := if seen_all then ["unused:"] else [] in
        let '(flag, lines) := report rest seen false in
        (flag, header ++ ("  - " +:+ ver.1 +:+ ": " +:+ ver.2) :: lines)
      else report rest seen seen_all
  end.

(** [cleanup(repository_file, release_files)]: how it ends and the lines it
    prints. *)
Definition cleanup (L : library) (repository_file : string)
    (release_files : list string) : result unit * list string :=
  match load_repository L repository_file with
  | Err e => (Err e, [])
  | Ok repository =>
      match load_releases L release_files with
      | Err e => (Err e, [])
      | Ok releases =>
          let registered := registered_package_version_combinations repository in
          let seen := seen_package_version_combinations releases in
          let '(seen_all, lines) := report registered seen true in
          (Ok tt, if seen_all then lines ++ ["ok"] else lines)
      end
  end.

(** *** Sample files *)

(** A repository whose versions hold nothing. *)
Definition shelf_registry : registry :=
  [("numpy", [("1.23", YNone); ("1.24", YNone)]); ("zopfli", [("0.3", YNone)])].

(** The same packages, each version with its build method and maintainer. *)
Definition shelf_maintained : registry :=
  [("numpy", [("1.24", YDict [(KStr "make", YStr "pip");
                              (KStr "maintainer", YStr "scout")])])].

(** A reader of files and a loader that knows their texts. *)
Definition shelf_library : library :=
  {| read_text := fun path => Ok path;
     open_r := fun value => Ok value;
     safe_load := fun text =>
       if decide (text = "repository.yml") then Ok (registry_yaml shelf_registry)
       else if decide (text = "stable.yml") then
         Ok (release_yaml [("numpy", "1.24"); ("zopfli", "0.3")])
       else if decide (text = "old.yml") then
         Ok (release_yaml [("numpy", "1.23"); ("scipy", "1.0")])
       else if decide (text = "unquoted.yml") then
         Ok (YDict [(KStr "numpy", YStr "1.24"); (KStr "zopfli", YInt 3)])
       else if decide (text = "maintained.yml") then
         Ok (registry_yaml shelf_maintained)
       else if decide (text = "upgrade_proposals.yml") then
         Ok (proposals_yaml [("2024-05", Some [("numpy", "1.24")]); ("2024-06", None)])
       else Err (YAMLError text);
     str_of := fun y => match y with
                        | YStr s => s
                        | YInt n => pretty n
                        | _ => "?"
                        end |}.

(** ** Merging upgrade proposals: [recursive_update] of
    [komodo/insert_proposals.py] *)

(** The values are those of ruamel's loader, which builds mappings and
    sequences that behave as [dict] and [list] do.  They are trees: no
    mapping or sequence is reachable along two paths (the YAML holds no
    alias), so that updating one in place changes it where it stands and
    nowhere else. *)

(** [bool(value)]. *)
Definition bool_of (y : yaml) : bool :=
  match y with
  | YNone => false
  | YBool b => b
  | YInt n => negb (n =? 0)%Z
  | YStr s => negb (bool_decide (s = ""))
  | YList elements => negb (bool_decide (elements = []))
  | YDict entries => negb (bool_decide (entries = []))
  end.

(** [d[k] = v] on the entries of a mapping: a key already there keeps its
    place, a new key goes last. *)
Fixpoint dict_set (k : key) (v : yaml) (entries : list (key * yaml))
    : list (key * yaml) :=
  match entries with
  | [] => [(k, v)]
  | (k', v') :: rest =>
      if decide (k' = k) then (k, v) :: rest else (k', v') :: dict_set k v rest
  end.

(** [left.get(k)]: [None] for a key not there; only a mapping has the
    method. *)
Definition get (left : yaml) (k : key) : result yaml :=
  match left with
  | YDict entries => Ok (default YNone (dict_get k entries))
  | _ => Err (Builtin AttributeError)
  end.

(** [left[k] = v].  A sequence takes an integer index within its bounds,
    counted from the end when negative; [None], booleans, integers and
    strings take no item assignment. *)
Definition setitem (left : yaml) (k : key) (v : yaml) : result yaml :=
  match left with
  | YDict entries => Ok (YDict (dict_set k v entries))
  | YList elements =>
      match k with
      | KInt n =>
          let size := Z.of_nat (length elements) in
          let i := if (n <? 0)%Z then (n + size)%Z else n in
          if ((0 <=? i)%Z && (i <? size)%Z)%bool
          then Ok (YList (<[Z.to_nat i := v]> elements))
          else Err IndexError
      | KStr _ => Err (Builtin TypeError)
      end
  | _ => Err (Builtin TypeError)
  end.

(** [recursive_update(left, right)].  The loop runs over [right.items()];
    [left] is updated in place, here passed on from one round to the next;
    the value the nested call returns is its first argument, which [left]
    still holds under [k]. *)
Fixpoint recursive_update (left right : yaml) {struct right} : result yaml :=
  match right with
  | YDict entries =>
      (fix loop (left : yaml) (entries : list (key * yaml)) {struct entries}
         : result yaml :=
         match entries with
         | [] => Ok left
         | (k, v) :: rest =>
             match v with
             | YDict _ =>
                 match get left k with
                 | Err e => Err e
                 | Ok d_val =>
                     if negb (bool_of d_val) then
                       match setitem left k v with
                       | Ok left' => loop left' rest
                       | Err e => Err e
                       end
                     else
                       match recursive_update d_val v with
                       | Ok d_val' =>
                           match setitem left k d_val' with
                           | Ok left' => loop left' rest
                           | Err e => Err e
                           end
                       | Err e => Err e
                       end
                 end
             | _ =>
                 match setitem left k v with
                 | Ok left' => loop left' rest
                 | Err e => Err e
                 end
             end
         end) left entries
  | _ => Err (Builtin AttributeError)
  end.

(** One round of the loop and the rounds after it, as a function of its
    own. *)
Fixpoint update_entries (left : yaml) (entries : list (key * yaml))
    : result yaml :=
  match entries with
  | [] => Ok left
  | (k, v) :: rest =>
      match v with
      | YDict _ =>
          match get left k with
          | Err e => Err e
          | Ok d_val =>
              if negb (bool_of d_val) then
                match setitem left k v with
                | Ok left' => update_entries left' rest
                | Err e => Err e
                end
              else
                match recursive_update d_val v with
                | Ok d_val' =>
                    match setitem left k d_val' with
                    | Ok left' => update_entries left' rest
                    | Err e => Err e
                    end
                | Err e => Err e
                end
          end
      | _ =>
          match setitem left k v with
          | Ok left' => update_entries left' rest
          | Err e => Err e
          end
      end
  end.

(** Whether a value is a mapping: [isinstance(v, collections.abc.Mapping)]. *)
Definition is_mapping (y : yaml) : bool :=
  match y with
  | YDict _ => true
  | _ => false
  end.

(** What one entry [(k, v)] of [right] leaves under its key in a mapping
    that had [entries]: [v] itself, unless [v] is a mapping and the value
    already under [k] is true, which is then updated with [v] in its turn. *)
Definition merged (entries : list (key * yaml)) (k : key) (v : yaml)
    (x : yaml) : Prop :=
  if is_mapping v && bool_of (default YNone (dict_get k entries))
  then recursive_update (default YNone (dict_get k entries)) v = Ok x
  else x = v.

(** *** Sample releases *)

(** A release matrix and two proposals: one that bumps a version and adds a
    package, one that gives a plain version a version for each platform. *)
Definition matrix_release : yaml :=
  YDict [ (KStr "numpy", YStr "1.23");
          (KStr "python", YDict [(KStr "rhel7", YStr "3.8"); (KStr "rhel8", YStr "3.11")]) ].

Definition bump_proposal : yaml :=
  YDict [ (KStr "scipy", YStr "1.10"); (KStr "numpy", YStr "1.24") ].

Definition split_proposal : yaml :=
  YDict [ (KStr "numpy", YDict [(KStr "rhel7", YStr "1.23"); (KStr "rhel8", YStr "1.24")]) ].

(** ** Opening a release: [insert_proposals] of
    [komodo/insert_proposals.py] *)

(** The calls made on the GitHub repository, in the order made.  [Merge]
    names the pull request by its title. *)
Inductive call : Type :=
| GetBranch (branch : string)
| GetContents (path ref : string)
| CreateGitRef (ref sha : string)
| CreateFile (path message content branch : string)
| UpdateFile (path message content sha branch : string)
| CreatePull (title body head base : string)
| Merge (pull commit_message commit_title merge_method : string)
| DeleteGitRef (ref : string).

(** Whether a call changes the repository. *)
Definition is_write (c : call) : bool :=
  match c with
  | GetBranch _ | GetContents _ _ => false
  | _ => true
  end.

(** What the code calls and PyGithub, ruamel, [difflib], [datetime] or
    [komodo.prettier] defines.  The answers of GitHub may depend on the calls
    made before.
    - [branch_sha calls name]: [repo.get_branch(name).commit.sha];
    - [contents calls path ref]: the decoded text and the [sha] of
      [repo.get_contents(path, ref=ref)];
    - [accepts calls c]: how the writing call [c] ends;
    - [ruamel_load text]: [ruamel.yaml.YAML().load(text)];
    - [write_to_string value flag]: [komodo.prettier.write_to_string], the
      YAML text of a value; [flag] is its second argument, [None] when the
      call leaves it out;
    - [unified_diff a b leftname rightname]: the joined lines of
      [difflib.unified_diff] with no context;
    - [now]: [str(datetime.now())]. *)
Record github : Type := Github {
  branch_sha : list call -> string -> result string;
  contents : list call -> string -> string -> result (string * string);
  accepts : list call -> call -> result unit;
  ruamel_load : string -> result yaml;
  write_to_string : yaml -> option bool -> result string;
  unified_diff : string -> string -> string -> string -> string;
  now : string
}.

(** Code that talks to GitHub: it ends with a value or an exception, and
    adds its calls to those made before. *)
Definition remote (A : Type) : Type := list call -> result A * list call.

Definition rret {A} (a : A) : remote A := fun calls => (Ok a, calls).
Definition rraise {A} (e : failure) : remote A := fun calls => (Err e, calls).
Definition rbind {A B} (c : remote A) (k : A -> remote B) : remote B :=
  fun calls =>
    match c calls with
    | (Ok a, calls') => k a calls'
    | (Err e, calls') => (Err e, calls')
    end.
Definition rlift {A} (r : result A) : remote A := fun calls => (r, calls).

Notation "x <~ c1 ;; c2" := (rbind c1 (fun x => c2))
  (at level 100, c1 at next level, right associativity).
Notation "c1 ;;; c2" := (rbind c1 (fun _ => c2))
  (at level 100, right associativity).

Definition get_branch (G : github) (name : string) : remote string :=
  fun calls => (branch_sha G calls name, calls ++ [GetBranch name]).

Definition get_contents (G : github) (path ref : string)
    : remote (string * string) :=
  fun calls => (contents G calls path ref, calls ++ [GetContents path ref]).

Definition write (G : github) (c : call) : remote unit :=
  fun calls => (accepts G calls c, calls ++ [c]).

(** [try: repo.get_branch(name)] with [except github.GithubException: pass]
    and an [else]: whether the [else] is taken. *)
Definition branch_exists (G : github) (name : string) : remote bool :=
  fun calls =>
    match get_branch G name calls with
    | (Ok _, calls') => (Ok true, calls')
    | (Err GithubException, calls') => (Ok false, calls')
    | (Err e, calls') => (Err e, calls')
    end.

(** [try: tmp_ref.delete()] with [except github.GithubException: pass]. *)
Definition delete_quietly (G : github) (ref : string) : remote unit :=
  fun calls =>
    match write G (DeleteGitRef ref) calls with
    | (Err GithubException, calls') => (Ok tt, calls')
    | other => other
    end.

(** [diff_file_and_string(file_contents, string, leftname, rightname)];
    [text] is its [string]. *)
Definition diff_file_and_string (G : github)
    (file_contents text leftname rightname : string) : string :=
  unified_diff G file_contents text leftname rightname.

(** [load_yaml_from_repo(filename, repo, ref)]: of what the loader raises,
    only [ScannerError] and [DuplicateKeyError] become a [SystemExit]. *)
Definition load_yaml_from_repo (G : github) (filename ref : string)
    : remote yaml :=
  sym_conf_content <~ get_contents G filename ref ;;
  match ruamel_load G sym_conf_content.1 with
  | Ok input_dict => rret input_dict
  | Err (ScannerError text) | Err (DuplicateKeyError text) =>
      rraise (Exit ("The file: <" +:+ filename
                      +:+ "> contains invalid YAML syntax:" +:+ newline
                      +:+ " " +:+ text))
  | Err e => rraise e
  end.

(** [l[i]] for a list of strings and [i >= 0]. *)
Definition index (l : list string) (i : nat) : result string :=
  match l !! i with
  | Some s => Ok s
  | None => Err IndexError
  end.

(** [key in mapping], for a value that [get] was called on before. *)
Definition contains_key (y : yaml) (k : key) : bool :=
  match y with
  | YDict entries => bool_decide (is_Some (dict_get k entries))
  | _ => false
  end.

(** The message of the commit that the squash leaves and of the pull
    request. *)
Definition pr_message (G : github) (base target base_file target_file diff
    jobname joburl : string) : string :=
  ":robot: Release " +:+ target +:+ newline
  +:+ "---" +:+ newline
  +:+ "### Description" +:+ newline
  +:+ "- New Release: `" +:+ target +:+ "`" +:+ newline
  +:+ "- Based on: `" +:+ base +:+ "`" +:+ newline
  +:+ "- When: `" +:+ now G +:+ "`" +:+ newline
  +:+ newline
  +:+ "### Diff" +:+ newline
  +:+ "```diff" +:+ newline
  +:+ "diff " +:+ base_file +:+ " " +:+ target_file +:+ ":" +:+ newline
  +:+ diff +:+ newline
  +:+ "```" +:+ newline
  +:+ newline
  +:+ "### Details" +:+ newline
  +:+ "_This pull request was generated by [" +:+ jobname +:+ "]("
  +:+ joburl +:+ ")_." +:+ newline
  +:+ newline
  +:+ "Source code for this script can be found "
  +:+ "[here](https://github.com/equinor/komodo)." +:+ newline.

(** [insert_proposals(repo, base, target, git_ref, jobname, joburl)].  It
    returns [None], or returns (and does not raise) a [ValueError], here its
    message. *)
Definition insert_proposals (G : github)
    (base target git_ref jobname joburl : string) : remote (option string) :=
  year <~ rlift (index (split "." target) 0) ;;
  month <~ rlift (index (split "." target) 1) ;;
  let tmp_target := target +:+ ".tmp" in
  target_exists <~ branch_exists G target ;;
  if target_exists : bool
  then rret (Some ("Branch " +:+ target +:+ " exists already")) else
  tmp_exists <~ branch_exists G tmp_target ;;
  if tmp_exists : bool
  then rret (Some ("Branch " +:+ tmp_target +:+ " exists already")) else
  proposal_yaml <~ load_yaml_from_repo G "upgrade_proposals.yml" git_ref ;;
  let upgrade_key := year +:+ "-" +:+ month in
  upgrade <~ rlift (get proposal_yaml (KStr upgrade_key)) ;;
  if negb (contains_key proposal_yaml (KStr upgrade_key))
  then rret (Some ("No section for this release (" +:+ upgrade_key
                     +:+ ") in upgrade_proposals.yml")) else
  let base_file := "releases/matrices/" +:+ base +:+ ".yml" in
  let target_file := "releases/matrices/" +:+ target +:+ ".yml" in
  base_dict <~ load_yaml_from_repo G base_file git_ref ;;
  base_dict <~ rlift (if bool_of upgrade
                      then recursive_update base_dict upgrade
                      else Ok base_dict) ;;
  result <~ rlift (write_to_string G base_dict None) ;;
  from_sha <~ get_branch G git_ref ;;
  write G (CreateGitRef ("refs/heads/" +:+ tmp_target) from_sha) ;;;
  write G (CreateFile target_file ("Add release " +:+ target) result
                      tmp_target) ;;;
  proposal_yaml <~ rlift (setitem proposal_yaml (KStr upgrade_key) YNone) ;;
  cleaned_upgrade <~ rlift (write_to_string G proposal_yaml (Some false)) ;;
  upgrade_contents <~ get_contents G "upgrade_proposals.yml" git_ref ;;
  write G (UpdateFile "upgrade_proposals.yml" "Clean proposals"
                      cleaned_upgrade upgrade_contents.2 tmp_target) ;;;
  base_content <~ get_contents G base_file git_ref ;;
  let diff := diff_file_and_string G base_content.1 result base target in
  let pr_msg := pr_message G base target base_file target_file diff
                           jobname joburl in
  write G (CreateGitRef ("refs/heads/" +:+ target) from_sha) ;;;
  write G (CreatePull ("Temporary PR " +:+ target) "should not be seen"
                      tmp_target target) ;;;
  write G (Merge ("Temporary PR " +:+ target) pr_msg
                 ("Add release " +:+ target) "squash") ;;;
  delete_quietly G ("refs/heads/" +:+ tmp_target) ;;;
  write G (CreatePull ("Add release " +:+ target) pr_msg target git_ref) ;;;
  rret None.

(** [main], after the arguments are parsed and the repository found: a
    status that is not [None] is raised. *)
Definition main_status (status : option string) : result unit :=
  match status with
  | None => Ok tt
  | Some message => Err (Builtin (ValueError message))
  end.

(** *** A sample repository on GitHub *)

(** A stand-in for [write_to_string]: the entries of a mapping on one line. *)
Definition toy_scalar (y : yaml) : string :=
  match y with
  | YStr s => s
  | YNone => "~"
  | _ => "?"
  end.

Definition toy_text (y : yaml) : string :=
  match y with
  | YDict entries =>
      String.concat ";"
        (map (fun '(k, v) =>
                match k with KStr s => s | KInt n => pretty n end
                  +:+ "=" +:+ toy_scalar v) entries)
  | _ => toy_scalar y
  end.

(** A repository with the branch [main], the base release [2024.04.rc3] and
    proposals for May and June of 2024.  It takes every write but the
    deletion of a branch, which it answers with a [GithubException]. *)
Definition office : github :=
  {| branch_sha := fun _ name =>
       if decide (name = "main") then Ok "c0ffee" else Err GithubException;
     contents := fun _ path _ =>
       if decide (path = "upgrade_proposals.yml") then Ok ("proposals", "5ca1ab1e")
       else if decide (path = "releases/matrices/2024.04.rc3.yml")
       then Ok ("base", "ba5eba11")
       else Err GithubException;
     accepts := fun _ c =>
       match c with
       | DeleteGitRef _ => Err GithubException
       | _ => Ok tt
       end;
     ruamel_load := fun text =>
       if decide (text = "proposals")
       then Ok (YDict [(KStr "2024-05", bump_proposal); (KStr "2024-06", YNone)])
       else if decide (text = "base") then Ok matrix_release
       else Err (ScannerError text);
     write_to_string := fun y _ => Ok (toy_text y);
     unified_diff := fun _ _ _ _ => "";
     now := "2024-05-01 12:00:00" |}.

(* ===================================================================== *)
(** * Part II.  Lemmas and theorems                                       *)
(* ===================================================================== *)

(** ** The requested set *)

Lemma pkgs_get_elem (pkgs : requested) (p v : string) :
  pkgs_get pkgs p = Some v -> (p, v) ∈ pkgs.
Proof.
  induction pkgs as [|[k u] rest IH]; simpl; [discriminate|].
  destruct (decide (k = p)) as [->|Hne]; intros H.
  - injection H as ->. left.
  - right. auto.
Qed.

Lemma pkgs_get_nodup (pkgs : requested) (p v : string) :
  NoDup pkgs.*1 -> (p, v) ∈ pkgs -> pkgs_get pkgs p = Some v.
Proof.
  induction pkgs as [|[k u] rest IH]; simpl; intros Hnd Hin.
  - inversion Hin.
  - apply NoDup_cons in Hnd as [Hk Hnd].
    apply elem_of_cons in Hin as [Heq|Hin].
    + injection Heq as -> ->. rewrite decide_True; done.
    + destruct (decide (k = p)) as [->|Hne]; [|auto].
      exfalso. apply Hk. apply list_elem_of_fmap. exists (p, v). done.
Qed.

Lemma pkgs_get_keys (pkgs : requested) (p : string) :
  is_Some (pkgs_get pkgs p) <-> p ∈ pkgs.*1.
Proof.
  induction pkgs as [|[k u] rest IH]; simpl.
  - split; [intros [? ?]; discriminate | intros H; inversion H].
  - destruct (decide (k = p)) as [->|Hne].
    + split; [intros _; left | intros _; eauto].
    + rewrite IH. split; [intros H; by right|].
      intros H. apply elem_of_cons in H as [Heq|?]; [|done]. by symmetry in Heq.
Qed.

Lemma pkgs_contains_spec (pkgs : requested) (deps : list string) :
  forallb (pkgs_contains pkgs) deps = true <->
  forall d, d ∈ deps -> is_Some (pkgs_get pkgs d).
Proof.
  rewrite forallb_forall. unfold pkgs_contains. split; intros H d Hd.
  - apply list_elem_of_In in Hd. apply H in Hd. by apply bool_decide_eq_true in Hd.
  - apply bool_decide_eq_true. apply H. by apply list_elem_of_In.
Qed.

(** ** The list comprehension *)

Section cmap_lemmas.
Context {A B : Type}.
Implicit Types (f g : A -> comp B) (l : list A).

Lemma cmap_Ret f l ys :
  cmap f l = Some (Ret ys) <-> Forall2 (fun x y => f x = Some (Ret y)) l ys.
Proof.
  revert ys. induction l as [|x l IH]; intros ys; simpl.
  - split; [intros [= <-]; constructor | intros H; by inversion H].
  - unfold cbind, cret. destruct (f x) as [[y|e]|] eqn:Hx.
    + destruct (cmap f l) as [[zs|e]|] eqn:Hl.
      * split.
        -- intros [= <-]. constructor; [done|]. by apply IH.
        -- intros H. inversion H as [|? y' ? zs' Hy Hzs]; subst.
           rewrite Hx in Hy. injection Hy as <-.
           apply IH in Hzs. by injection Hzs as <-.
      * split; [discriminate|]. intros H. inversion H as [|? ? ? zs' _ Hzs]; subst.
        apply IH in Hzs. discriminate.
      * split; [discriminate|]. intros H. inversion H as [|? ? ? zs' _ Hzs]; subst.
        apply IH in Hzs. discriminate.
    + split; [discriminate|]. intros H. inversion H; subst. congruence.
    + split; [discriminate|]. intros H. inversion H; subst. congruence.
Qed.

Lemma cmap_Raise f l e :
  cmap f l = Some (Raise e) -> exists x, x ∈ l /\ f x = Some (Raise e).
Proof.
  induction l as [|x l IH]; simpl; [discriminate|].
  unfold cbind, cret. destruct (f x) as [[y|e']|] eqn:Hx; [| |discriminate].
  - destruct (cmap f l) as [[zs|e']|]; [discriminate| |discriminate].
    intros [= <-]. destruct IH as (x' & Hin & Hx'); [done|].
    exists x'. split; [by right|done].
  - intros [= <-]. exists x. split; [left|done].
Qed.

Lemma cmap_terminates f l :
  (forall x, x ∈ l -> f x <> None) -> cmap f l <> None.
Proof.
  induction l as [|x l IH]; simpl; intros H; [discriminate|].
  unfold cbind, cret. destruct (f x) as [[y|e]|] eqn:Hx.
  - destruct (cmap f l) as [[zs|e]|] eqn:Hl; [discriminate|discriminate|].
    exfalso. apply IH; [|done]. intros x' Hx'. apply H. by right.
  - discriminate.
  - exfalso. apply (H x); [left|done].
Qed.

Lemma cmap_diverges f l x :
  x ∈ l -> f x = None -> (forall y e, y ∈ l -> f y <> Some (Raise e)) ->
  cmap f l = None.
Proof.
  induction l as [|a l IH]; intros Hin Hx Hnr; [inversion Hin|].
  simpl. unfold cbind, cret. destruct (f a) as [[y|e]|] eqn:Ha.
  - apply elem_of_cons in Hin as [->|Hin]; [congruence|].
    rewrite IH; [done|done|done|]. intros y' e' Hy'. apply Hnr. by right.
  - exfalso. apply (Hnr a e); [left|done].
  - done.
Qed.

Lemma cmap_ext f g l :
  (forall x, x ∈ l -> f x = g x) -> cmap f l = cmap g l.
Proof.
  induction l as [|x l IH]; simpl; intros H; [done|].
  rewrite (H x) by left. rewrite IH; [done|]. intros y Hy. apply H. by right.
Qed.

Lemma cmap_mono f g l r :
  (forall x r', x ∈ l -> f x = Some r' -> g x = Some r') ->
  cmap f l = Some r -> cmap g l = Some r.
Proof.
  revert r. induction l as [|x l IH]; simpl; intros r H; [done|].
  unfold cbind, cret. destruct (f x) as [[y|e]|] eqn:Hx; [| |discriminate].
  - rewrite (H x (Ret y)); [|left|done].
    destruct (cmap f l) as [[zs|e]|] eqn:Hl; [| |discriminate].
    + rewrite (IH (Ret zs)); [done| |done]. intros x' r' Hx'. apply H. by right.
    + rewrite (IH (Raise e)); [done| |done]. intros x' r' Hx'. apply H. by right.
  - rewrite (H x (Raise e)); [done|left|done].
Qed.
End cmap_lemmas.

(** ** Orders that put dependencies first *)

Section deps_first_lemmas.
Variable R : string -> string -> Prop.

Lemma deps_first_mono seen seen' l :
  (forall x, x ∈ seen -> x ∈ seen') ->
  deps_first R seen l -> deps_first R seen' l.
Proof.
  intros Hsub D. revert seen' Hsub.
  induction D as [|seen q l Hq D IH]; intros seen' Hsub; constructor.
  - auto.
  - apply IH. intros x. rewrite !elem_of_app. intuition.
Qed.

Lemma deps_first_app seen l1 l2 :
  deps_first R seen (l1 ++ l2) <->
  deps_first R seen l1 /\ deps_first R (seen ++ l1) l2.
Proof.
  revert seen. induction l1 as [|q l1 IH]; intros seen; simpl.
  - rewrite app_nil_r. split; [split; [constructor|done] | tauto].
  - split.
    + intros D. inversion D as [|? ? ? Hq D']; subst.
      apply IH in D' as [D1 D2]. rewrite <- app_assoc in D2.
      split; [by constructor|done].
    + intros [D1 D2]. inversion D1 as [|? ? ? Hq D1']; subst.
      constructor; [done|]. apply IH. rewrite <- app_assoc. done.
Qed.

Lemma deps_first_split seen l1 q l2 d :
  deps_first R seen (l1 ++ q :: l2) -> R q d -> d ∈ seen ++ l1.
Proof.
  intros D Hd. apply deps_first_app in D as [_ D].
  inversion D; subst. auto.
Qed.

(** Transitive dependencies come first as well. *)
Lemma deps_first_tc l q d :
  deps_first R [] l -> tc R q d ->
  forall l1 l2, l = l1 ++ q :: l2 -> d ∈ l1.
Proof.
  intros D Htc. induction Htc as [q d Hd|q y d Hy Htc IH]; intros l1 l2 ->.
  - by apply (deps_first_split [] l1 q l2).
  - assert (Hin : y ∈ l1) by by apply (deps_first_split [] l1 q l2).
    apply list_elem_of_split in Hin as (a & b & ->).
    apply elem_of_app. left. apply (IH a (b ++ q :: l2)).
    by rewrite <- app_assoc.
Qed.

Lemma deps_first_filter (P : string -> Prop) `{!forall x, Decision (P x)} seen l :
  deps_first R seen l -> (forall y, ~ P y -> y ∈ seen) ->
  deps_first R seen (filter P l).
Proof.
  intros D. induction D as [|seen q l Hq D IH]; intros Hdrop.
  - constructor.
  - destruct (decide (P q)) as [Hp|Hp].
    + rewrite filter_cons_True by done. constructor; [done|].
      apply IH. intros y Hy. apply elem_of_app. left. auto.
    + rewrite filter_cons_False by done.
      apply (deps_first_mono (seen ++ [q])).
      * intros x. rewrite elem_of_app, list_elem_of_singleton.
        intros [?| ->]; auto.
      * apply IH. intros y Hy. apply elem_of_app. left. auto.
Qed.

Lemma deps_first_first_seen seen l :
  deps_first R seen l -> deps_first R seen (first_seen l).
Proof.
  intros D. induction D as [|seen q l Hq D IH]; simpl; constructor; [done|].
  apply deps_first_filter; [done|].
  intros y Hy. apply elem_of_app. right.
  destruct (decide (y = q)) as [->|Hne]; [left|]. by destruct Hy.
Qed.

Lemma deps_first_concat seen ls :
  Forall (deps_first R []) ls -> deps_first R seen (concat ls).
Proof.
  intros Hls. revert seen. induction Hls as [|l ls Hl Hls IH]; intros seen; simpl.
  - constructor.
  - apply deps_first_app. split; [|apply IH].
    apply (deps_first_mono []); [|done]. intros x Hx. inversion Hx.
Qed.
End deps_first_lemmas.

(** ** De-duplication *)

Lemma elem_of_first_seen (l : list string) (x : string) :
  x ∈ first_seen l <-> x ∈ l.
Proof.
  induction l as [|a l IH]; simpl; [done|].
  rewrite !elem_of_cons, list_elem_of_filter, IH.
  destruct (decide (x = a)); tauto.
Qed.

Lemma NoDup_first_seen (l : list string) : NoDup (first_seen l).
Proof.
  induction l as [|a l IH]; simpl; [constructor|].
  apply NoDup_cons. split.
  - rewrite list_elem_of_filter. tauto.
  - by apply NoDup_filter.
Qed.

Lemma filter_not_elem_nil (l : list string) :
  filter (fun x => x ∉ []) l = l.
Proof.
  induction l as [|a l IH]; [done|].
  rewrite filter_cons_True; [by rewrite IH|]. intros H. inversion H.
Qed.

Lemma first_seen_app (l1 l2 : list string) :
  first_seen (l1 ++ l2) = first_seen l1 ++ filter (fun x => x ∉ l1) (first_seen l2).
Proof.
  induction l1 as [|a l1 IH]; simpl.
  - by rewrite filter_not_elem_nil.
  - rewrite IH, filter_app. f_equal. f_equal.
    rewrite list_filter_filter. apply list_filter_iff.
    intros x. rewrite not_elem_of_cons. tauto.
Qed.

(** The package first emitted at some place of the stream stands in the
    plan right after the distinct packages emitted before it. *)
Lemma first_seen_first_emission (l1 l2 : list string) (a : string) :
  a ∉ l1 ->
  exists rest, first_seen (l1 ++ a :: l2) = first_seen l1 ++ a :: rest.
Proof.
  intros Ha. rewrite first_seen_app. simpl.
  rewrite filter_cons_True by done. eauto.
Qed.

(** The loop of [make] computes [first_seen]. *)
Lemma dedup_loop_spec (stream : list string) : forall seen acc,
  (forall x, x ∈ seen <-> x ∈ acc) ->
  dedup_loop seen acc stream = acc ++ filter (fun x => x ∉ acc) (first_seen stream).
Proof.
  induction stream as [|a stream IH]; intros seen acc Hseen; simpl.
  - by rewrite app_nil_r.
  - destruct (decide (a ∈ seen)) as [Hin|Hin].
    + rewrite (IH seen acc Hseen). f_equal.
      rewrite filter_cons_False by (intros Hn; apply Hn; by apply Hseen).
      rewrite list_filter_filter. apply list_filter_iff.
      intros x. split; [|tauto]. intros Hx. split; [done|].
      intros ->. apply Hx. by apply Hseen.
    + rewrite (IH ({[a]} ∪ seen) (acc ++ [a])).
      * rewrite <- app_assoc. f_equal. simpl.
        rewrite filter_cons_True by (intros Hn; apply Hin; by apply Hseen).
        f_equal. rewrite list_filter_filter. apply list_filter_iff.
        intros x. rewrite elem_of_app, list_elem_of_singleton. tauto.
      * intros x. rewrite elem_of_union, elem_of_singleton, elem_of_app,
          list_elem_of_singleton, Hseen. tauto.
Qed.

Lemma dedup_loop_first_seen (stream : list string) :
  dedup_loop ∅ [] stream = first_seen stream.
Proof.
  rewrite (dedup_loop_spec stream ∅ []); simpl.
  - apply filter_not_elem_nil.
  - intros x. rewrite elem_of_empty. split; [done|]. intros H. inversion H.
Qed.

Lemma elem_of_concat {A} (ls : list (list A)) (x : A) :
  x ∈ concat ls <-> exists l, l ∈ ls /\ x ∈ l.
Proof.
  induction ls as [|l ls IH]; simpl.
  - split; [intros H; inversion H | intros (l & H & _); inversion H].
  - rewrite elem_of_app, IH. split.
    + intros [H|(l' & H1 & H2)]; [exists l; split; [left|done] | exists l'; split; [by right|done]].
    + intros (l' & H1 & H2). apply elem_of_cons in H1 as [->|H1]; [by left|right; eauto].
Qed.

Lemma forallb_false {A} (f : A -> bool) (l : list A) :
  forallb f l = false -> exists x, x ∈ l /\ f x = false.
Proof.
  induction l as [|a l IH]; simpl; [discriminate|].
  destruct (f a) eqn:Ha; simpl.
  - intros H. destruct (IH H) as (x & Hx & Hf). exists x. split; [by right|done].
  - intros _. exists a. split; [left|done].
Qed.

Lemma repo_get_Raise (repo : repository) (p v : string) (e : exn) :
  repo_get repo p v = Raise e -> exists key, e = KeyError key.
Proof.
  unfold repo_get. destruct (repo !! p) as [versions|]; [|intros [= <-]; eauto].
  destruct (versions !! v); [discriminate|intros [= <-]; eauto].
Qed.

(** ** The depth-first traversal *)

Section resolver.
Variables (pkgs : requested) (repo : repository).

Lemma dfs_unfold n p v :
  dfs (S n) p v pkgs repo =
  match repo_get repo p v with
  | Raise e => craise e
  | Ret current =>
      match depends current with
      | None => cret [p]
      | Some deps =>
          if forallb (pkgs_contains pkgs) deps then
            cbind (cmap (dfs_call (fun x v => dfs n x v pkgs repo) pkgs) deps)
                  (fun dependencies => cret (concat (dependencies ++ [[p]])))
          else craise (SystemExit 1%Z (missing_dependency_line deps))
      end
  end.
Proof. reflexivity. Qed.

Lemma dep_intro p v current deps d :
  pkgs_get pkgs p = Some v -> repo_get repo p v = Ret current ->
  depends current = Some deps -> d ∈ deps -> dep pkgs repo p d.
Proof. intros. exists v, current, deps. done. Qed.

Lemma dep_inv p v current deps d :
  pkgs_get pkgs p = Some v -> repo_get repo p v = Ret current ->
  depends current = Some deps -> dep pkgs repo p d -> d ∈ deps.
Proof.
  intros Hv Hc Hd (v' & c' & deps' & Hv' & Hc' & Hd' & Hin).
  congruence.
Qed.

(** More fuel never changes an answer. *)
Lemma dfs_mono_S n : forall p v r,
  dfs n p v pkgs repo = Some r -> dfs (S n) p v pkgs repo = Some r.
Proof.
  induction n as [|n IH]; intros p v r; [discriminate|].
  rewrite (dfs_unfold (S n)), (dfs_unfold n).
  destruct (repo_get repo p v) as [current|e]; [|done].
  destruct (depends current) as [deps|]; [|done].
  destruct (forallb (pkgs_contains pkgs) deps); [|done].
  unfold cbind.
  destruct (cmap (dfs_call (fun x v0 => dfs n x v0 pkgs repo) pkgs) deps)
    as [r0|] eqn:Hm; [|discriminate].
  intros Hr.
  rewrite (cmap_mono (dfs_call (fun x v0 => dfs n x v0 pkgs repo) pkgs) _ deps r0);
    [done| |done].
  intros x r' _. unfold dfs_call. destruct (pkgs_get pkgs x); [apply IH|done].
Qed.

Lemma dfs_mono n m p v r :
  n <= m -> dfs n p v pkgs repo = Some r -> dfs m p v pkgs repo = Some r.
Proof.
  induction 1 as [|m Hle IH]; [done|]. intros H. apply dfs_mono_S. auto.
Qed.

Lemma packages_needed_mono n m r :
  n <= m -> packages_needed n pkgs repo = Some r ->
  packages_needed m pkgs repo = Some r.
Proof.
  intros Hle. unfold packages_needed, cbind.
  destruct (cmap _ pkgs) as [r0|] eqn:Hm; [|discriminate].
  assert (Hm' : cmap (fun '(pkg, ver) => dfs m pkg ver pkgs repo) pkgs = Some r0).
  { eapply cmap_mono; [|exact Hm]. intros [x v] r' _. by apply dfs_mono. }
  by rewrite Hm'.
Qed.

Lemma build_order_mono n m r :
  n <= m -> build_order n pkgs repo = Some r -> build_order m pkgs repo = Some r.
Proof.
  intros Hle. unfold build_order, cbind.
  destruct (packages_needed n pkgs repo) as [r0|] eqn:Hp; [|discriminate].
  by rewrite (packages_needed_mono n m r0 Hle Hp).
Qed.

(** *** Termination on acyclic graphs

    Along a chain of nested calls the names are requested, pairwise
    distinct (a repetition would be a cycle), hence no more than the
    requested set has. *)
Lemma dfs_terminates_path (Hacyclic : acyclic pkgs repo) : forall n p v path,
  pkgs_get pkgs p = Some v ->
  NoDup path ->
  (forall a, a ∈ path -> is_Some (pkgs_get pkgs a) /\ tc (dep pkgs repo) a p) ->
  length pkgs < n + length path ->
  dfs n p v pkgs repo <> None.
Proof.
  assert (Hbound : forall p v path, pkgs_get pkgs p = Some v -> NoDup path ->
    (forall a, a ∈ path -> is_Some (pkgs_get pkgs a) /\ tc (dep pkgs repo) a p) ->
    NoDup (p :: path) /\ length (p :: path) <= length pkgs).
  { intros p v path Hp Hnd Hpath.
    assert (Hnd' : NoDup (p :: path)).
    { apply NoDup_cons. split; [|done]. intros Hin.
      apply (Hacyclic p). by apply Hpath. }
    split; [done|].
    rewrite <- (length_fmap fst pkgs). apply submseteq_length.
    apply NoDup_submseteq; [done|]. intros x Hx.
    apply pkgs_get_keys. apply elem_of_cons in Hx as [->|Hx]; [eauto|].
    by apply Hpath. }
  induction n as [|n IH]; intros p v path Hp Hnd Hpath Hlen.
  - destruct (Hbound p v path) as [_ Hle]; [done..|]. simpl in *. lia.
  - destruct (Hbound p v path) as [Hnd' _]; [done..|].
    rewrite dfs_unfold.
    destruct (repo_get repo p v) as [current|e] eqn:Hc; [|done].
    destruct (depends current) as [deps|] eqn:Hd; [|done].
    destruct (forallb (pkgs_contains pkgs) deps) eqn:Hall; [|done].
    unfold cbind.
    destruct (cmap _ deps) as [[ds|e]|] eqn:Hm; [done|done|].
    exfalso. revert Hm. apply cmap_terminates. intros d Hin.
    unfold dfs_call.
    destruct (pkgs_get pkgs d) as [vd|] eqn:Hvd; [|done].
    apply (IH d vd (p :: path)); [done|done| |simpl; lia].
    intros a Ha. apply elem_of_cons in Ha as [->|Ha].
    + split; [eauto|]. apply tc_once. by eapply dep_intro.
    + destruct (Hpath a Ha) as [Hs Htc]. split; [done|].
      eapply tc_r; [done|]. by eapply dep_intro.
Qed.

Lemma dfs_terminates p v n :
  acyclic pkgs repo -> pkgs_get pkgs p = Some v -> length pkgs < n ->
  dfs n p v pkgs repo <> None.
Proof.
  intros Hac Hp Hn. apply (dfs_terminates_path Hac n p v []); [done|constructor| |simpl; lia].
  intros a Ha. inversion Ha.
Qed.

(** *** What a returning call returns *)

Lemma dfs_call_Ret n deps ds :
  cmap (dfs_call (fun x v => dfs n x v pkgs repo) pkgs) deps = Some (Ret ds) ->
  Forall2 (fun d l => exists vd, pkgs_get pkgs d = Some vd /\
                                 dfs n d vd pkgs repo = Some (Ret l)) deps ds.
Proof.
  intros H. apply cmap_Ret in H. eapply Forall2_impl; [exact H|].
  intros d l. unfold dfs_call. destruct (pkgs_get pkgs d); [eauto|discriminate].
Qed.

Lemma dfs_Ret_inv n : forall p v l,
  pkgs_get pkgs p = Some v -> dfs n p v pkgs repo = Some (Ret l) ->
  (exists l', l = l' ++ [p]) /\
  deps_first (dep pkgs repo) [] l /\
  (forall q, q ∈ l -> is_Some (pkgs_get pkgs q)).
Proof.
  induction n as [|n IH]; intros p v l Hp; [discriminate|].
  rewrite dfs_unfold.
  destruct (repo_get repo p v) as [current|e] eqn:Hc; [|discriminate].
  destruct (depends current) as [deps|] eqn:Hd.
  - destruct (forallb (pkgs_contains pkgs) deps) eqn:Hall; [|discriminate].
    unfold cbind.
    destruct (cmap _ deps) as [[ds|e]|] eqn:Hm; [|discriminate..].
    intros [= <-]. apply dfs_call_Ret in Hm.
    rewrite concat_app. simpl.
    assert (Hds : Forall (fun l => (exists d, d ∈ deps /\ exists l', l = l' ++ [d]) /\
                      deps_first (dep pkgs repo) [] l /\
                      (forall q, q ∈ l -> is_Some (pkgs_get pkgs q))) ds).
    { clear Hall Hd. induction Hm as [|d l deps ds (vd & Hvd & Hl) Hm IHm]; constructor.
      - destruct (IH d vd l Hvd Hl) as ((l' & ->) & D & M).
        split; [exists d; split; [left|eauto]|done].
      - eapply Forall_impl; [exact IHm|]. simpl.
        intros l0 ((d0 & Hd0 & Hl0) & ?). split; [|done].
        exists d0. split; [by right|done]. }
    split; [eauto|]. split.
    + apply deps_first_app. split.
      * apply deps_first_concat. eapply Forall_impl; [exact Hds|].
        simpl. intros l0 (_ & D & _). exact D.
      * constructor; [|constructor]. intros d Hdep. simpl.
        assert (Hin : d ∈ deps) by by eapply dep_inv.
        apply elem_of_concat.
        clear -Hm Hin IH. induction Hm as [|d0 l deps ds (vd & Hvd & Hl) Hm IHm];
          [inversion Hin|].
        apply elem_of_cons in Hin as [->|Hin].
        -- exists l. split; [left|].
           destruct (IH d0 vd l Hvd Hl) as ((l' & ->) & _).
           apply elem_of_app. right. left.
        -- destruct (IHm Hin) as (l0 & ? & ?). exists l0. split; [by right|done].
    + intros q. rewrite elem_of_app, list_elem_of_singleton.
      intros [Hq| ->]; [|eauto].
      apply elem_of_concat in Hq as (l0 & Hl0 & Hq).
      rewrite Forall_forall in Hds. by apply (Hds l0 Hl0).
  - intros [= <-]. split; [by exists []|]. split.
    + constructor; [|constructor].
      intros d (v' & c' & deps' & ? & ? & ? & ?). congruence.
    + intros q Hq. apply list_elem_of_singleton in Hq as ->. eauto.
Qed.

(** *** How a call fails *)

Lemma dfs_Raise_inv n : forall p v e,
  pkgs_get pkgs p = Some v -> dfs n p v pkgs repo = Some (Raise e) ->
  (exists q key, missing_metadata pkgs repo q key /\ e = KeyError key) \/
  (exists q deps d, missing_dependency pkgs repo q deps d /\
                    e = SystemExit 1%Z (missing_dependency_line deps)).
Proof.
  induction n as [|n IH]; intros p v e Hp; [discriminate|].
  rewrite dfs_unfold.
  destruct (repo_get repo p v) as [current|e'] eqn:Hc.
  - destruct (depends current) as [deps|] eqn:Hd; [|discriminate].
    destruct (forallb (pkgs_contains pkgs) deps) eqn:Hall.
    + unfold cbind.
      destruct (cmap _ deps) as [[ds|e']|] eqn:Hm; [discriminate| |discriminate].
      intros [= <-]. apply cmap_Raise in Hm as (d & Hin & Hcall).
      unfold dfs_call in Hcall.
      destruct (pkgs_get pkgs d) as [vd|] eqn:Hvd; [by apply (IH d vd)|].
      exfalso. apply pkgs_contains_spec with (d := d) in Hall; [|done].
      rewrite Hvd in Hall. by destruct Hall.
    + intros [= <-]. right.
      apply forallb_false in Hall as (d & Hin & Hd').
      exists p, deps, d. split; [|done].
      exists v, current. repeat split; try done.
      unfold pkgs_contains in Hd'. apply bool_decide_eq_false in Hd'.
      destruct (pkgs_get pkgs d); [exfalso; eauto|done].
  - intros [= <-]. left.
    destruct (repo_get_Raise _ _ _ _ Hc) as (key & ->).
    exists p, key. split; [|done]. by exists v.
Qed.

Lemma dfs_never_raises n p v e :
  repo_complete pkgs repo -> deps_requested pkgs repo ->
  pkgs_get pkgs p = Some v -> dfs n p v pkgs repo <> Some (Raise e).
Proof.
  intros Hcomplete Hreq Hp H.
  apply dfs_Raise_inv in H as [(q & key & (vq & Hq & Hg) & _)
                              |(q & deps & d & (vq & c & Hq & Hg & Hd & Hin & Hn) & _)];
    [| |done].
  - destruct (Hcomplete q vq Hq) as [c Hc]. congruence.
  - destruct (Hreq q d) as [? ?]; [by eapply dep_intro|congruence].
Qed.

(** *** Cycles: the recursion never comes back *)

Lemma dfs_cycle n : forall p v,
  repo_complete pkgs repo -> deps_requested pkgs repo ->
  pkgs_get pkgs p = Some v -> tc (dep pkgs repo) p p ->
  dfs n p v pkgs repo = None.
Proof.
  induction n as [|n IH]; intros p v Hcomplete Hreq Hp Hcyc; [done|].
  assert (Hnext : exists d, dep pkgs repo p d /\ tc (dep pkgs repo) d d).
  { inversion Hcyc as [? ? Hd|? y ? Hd Htc]; subst.
    - exists p. split; [done|]. by apply tc_once.
    - exists y. split; [done|]. eapply tc_r; done. }
  destruct Hnext as (d & Hdep & Hd).
  destruct (Hdep) as (v' & current & deps & Hv' & Hc & Hdeps & Hin).
  assert (v' = v) as -> by congruence.
  rewrite dfs_unfold, Hc, Hdeps.
  assert (Hall : forallb (pkgs_contains pkgs) deps = true).
  { apply pkgs_contains_spec. intros d' Hd'. apply (Hreq p). by eapply dep_intro. }
  rewrite Hall. unfold cbind.
  rewrite (cmap_diverges _ deps d); [done|done| |].
  - unfold dfs_call. destruct (Hreq p d Hdep) as [vd Hvd]. rewrite Hvd.
    by apply IH.
  - intros y e Hy. unfold dfs_call.
    destruct (pkgs_get pkgs y) as [vy|] eqn:Hvy; [by apply dfs_never_raises|].
    apply pkgs_contains_spec with (d := y) in Hall; [|done].
    rewrite Hvy in Hall. by destruct Hall.
Qed.

(** *** The whole stream *)

Lemma roots_Ret n (roots : requested) per_root :
  NoDup pkgs.*1 -> (forall root, root ∈ roots -> root ∈ pkgs) ->
  Forall2 (fun root l => (let '(pkg, ver) := root in dfs n pkg ver pkgs repo)
                         = Some (Ret l)) roots per_root ->
  Forall2 (fun root l =>
             (exists l', l = l' ++ [root.1]) /\
             deps_first (dep pkgs repo) [] l /\
             (forall q, q ∈ l -> is_Some (pkgs_get pkgs q))) roots per_root.
Proof.
  intros Hnd Hsub Hm.
  induction Hm as [|[x v] l roots per_root Hl Hm IHm]; constructor.
  - assert (Hx : pkgs_get pkgs x = Some v).
    { apply pkgs_get_nodup; [done|]. apply Hsub. left. }
    by apply (dfs_Ret_inv n x v l).
  - apply IHm. intros root Hr. apply Hsub. by right.
Qed.

Lemma roots_stream (roots : requested) per_root :
  Forall2 (fun root l =>
             (exists l', l = l' ++ [root.1]) /\
             deps_first (dep pkgs repo) [] l /\
             (forall q, q ∈ l -> is_Some (pkgs_get pkgs q))) roots per_root ->
  deps_first (dep pkgs repo) [] (concat per_root) /\
  (forall q, q ∈ concat per_root -> is_Some (pkgs_get pkgs q)) /\
  (forall root, root ∈ roots -> root.1 ∈ concat per_root).
Proof.
  intros Hroots. split; [|split].
  - apply deps_first_concat.
    induction Hroots as [|? ? ? ? (_ & D & _)]; constructor; done.
  - intros q Hq. apply elem_of_concat in Hq as (l & Hl & Hq).
    induction Hroots as [|? ? ? ? (_ & _ & M)]; [inversion Hl|].
    apply elem_of_cons in Hl as [->|Hl]; auto.
  - intros root Hin. apply elem_of_concat.
    induction Hroots as [|root0 l ? ? ((l' & ->) & _)]; [inversion Hin|].
    apply elem_of_cons in Hin as [->|Hin].
    + exists (l' ++ [root0.1]). split; [left|]. apply elem_of_app. right. left.
    + destruct (IHHroots Hin) as (lr & ? & ?). exists lr. split; [by right|done].
Qed.

Lemma packages_needed_Ret n stream :
  NoDup pkgs.*1 ->
  packages_needed n pkgs repo = Some (Ret stream) ->
  deps_first (dep pkgs repo) [] stream /\
  (forall q, q ∈ stream <-> q ∈ pkgs.*1).
Proof.
  intros Hnd. unfold packages_needed, cbind.
  destruct (cmap _ pkgs) as [[per_root|e]|] eqn:Hm; [|discriminate..].
  intros [= <-]. apply cmap_Ret in Hm.
  assert (Hroots := roots_Ret n pkgs per_root Hnd (fun _ H => H) Hm).
  apply roots_stream in Hroots as (D & M & Hin).
  split; [done|]. intros q. split.
  - intros Hq. apply pkgs_get_keys. auto.
  - intros Hq. apply list_elem_of_fmap in Hq as (root & -> & Hr). auto.
Qed.

Lemma packages_needed_terminates n :
  acyclic pkgs repo -> NoDup pkgs.*1 -> length pkgs < n ->
  packages_needed n pkgs repo <> None.
Proof.
  intros Hac Hnd Hn. unfold packages_needed, cbind.
  destruct (cmap _ pkgs) as [[per_root|e]|] eqn:Hm; [done|done|].
  exfalso. revert Hm. apply cmap_terminates. intros [x v] Hin.
  apply dfs_terminates; [done| |done]. by apply pkgs_get_nodup.
Qed.

Lemma packages_needed_Raise n e :
  NoDup pkgs.*1 ->
  packages_needed n pkgs repo = Some (Raise e) ->
  (exists q key, missing_metadata pkgs repo q key /\ e = KeyError key) \/
  (exists q deps d, missing_dependency pkgs repo q deps d /\
                    e = SystemExit 1%Z (missing_dependency_line deps)).
Proof.
  intros Hnd. unfold packages_needed, cbind.
  destruct (cmap _ pkgs) as [[per_root|e']|] eqn:Hm; [discriminate| |discriminate].
  intros [= <-]. apply cmap_Raise in Hm as ([x v] & Hin & Hx).
  apply (dfs_Raise_inv n x v); [|done]. by apply pkgs_get_nodup.
Qed.

Lemma build_order_packages_needed n :
  build_order n pkgs repo =
  match packages_needed n pkgs repo with
  | Some (Ret stream) => Some (Ret (first_seen stream))
  | other => other
  end.
Proof.
  unfold build_order, cbind, cret.
  destruct (packages_needed n pkgs repo) as [[stream|e]|]; [|done..].
  by rewrite dedup_loop_first_seen.
Qed.
End resolver.

(** ** Checking the hypotheses by computation *)

Lemma dep_declared (pkgs : requested) (repo : repository) (p d : string) :
  dep pkgs repo p d <-> d ∈ declared pkgs repo p.
Proof.
  unfold declared, metadata_of. split.
  - intros (v & current & deps & -> & -> & -> & Hin). done.
  - destruct (pkgs_get pkgs p) as [v|] eqn:Hv; [|intros H; inversion H].
    destruct (repo_get repo p v) as [current|e] eqn:Hc; [|intros H; inversion H].
    destruct (depends current) as [deps|] eqn:Hd; [|intros H; inversion H].
    intros Hin. by exists v, current, deps.
Qed.

Lemma check_complete_sound (pkgs : requested) (repo : repository) :
  check_complete pkgs repo = true -> repo_complete pkgs repo.
Proof.
  unfold check_complete. rewrite forallb_forall. intros H p v Hv.
  specialize (H (p, v)). simpl in H.
  rewrite bool_decide_eq_true in H. unfold metadata_of in H. rewrite Hv in H.
  destruct (repo_get repo p v) as [current|e]; [eauto|].
  destruct H as [? ?]; [|done]. apply list_elem_of_In. by apply pkgs_get_elem.
Qed.

Lemma check_deps_requested_sound (pkgs : requested) (repo : repository) :
  check_deps_requested pkgs repo = true -> deps_requested pkgs repo.
Proof.
  unfold check_deps_requested. rewrite forallb_forall. intros H p d Hdep.
  assert (Hv : exists v, pkgs_get pkgs p = Some v).
  { destruct Hdep as (v & _ & _ & Hv & _). eauto. }
  destruct Hv as [v Hv]. specialize (H (p, v)). simpl in H.
  apply (pkgs_contains_spec pkgs (declared pkgs repo p)).
  - apply H. apply list_elem_of_In. by apply pkgs_get_elem.
  - by apply dep_declared.
Qed.

Lemma check_ranked_sound (order : list string) (pkgs : requested)
    (repo : repository) :
  check_ranked order pkgs repo = true -> acyclic pkgs repo.
Proof.
  unfold check_ranked. rewrite forallb_forall. intros H.
  assert (Hstep : forall p d, dep pkgs repo p d -> rank_in order d < rank_in order p).
  { intros p d Hdep.
    assert (Hv : exists v, pkgs_get pkgs p = Some v).
    { destruct Hdep as (v & _ & _ & Hv & _). eauto. }
    destruct Hv as [v Hv].
    assert (Hin : In (p, v) pkgs).
    { apply list_elem_of_In. by apply pkgs_get_elem. }
    specialize (H (p, v) Hin). simpl in H. rewrite forallb_forall in H.
    apply Nat.ltb_lt. apply H. apply list_elem_of_In. by apply dep_declared. }
  assert (Htc : forall p d, tc (dep pkgs repo) p d -> rank_in order d < rank_in order p).
  { intros p d Htc. induction Htc as [p d Hd|p y d Hy _ IH].
    - by apply Hstep.
    - apply Hstep in Hy. lia. }
  intros p Hp. apply Htc in Hp. lia.
Qed.

Lemma string_app_assoc (a b c : string) : (a +:+ b) +:+ c = a +:+ (b +:+ c).
Proof.
  induction a as [|x a IH]; [done|].
  change (String x ((a +:+ b) +:+ c) = String x (a +:+ (b +:+ c))).
  by rewrite IH.
Qed.



(** ** The resolver: theorems *)


Lemma missing_metadata_dfs (pkgs : requested) (repo : repository)
    (p v key : string) (fuel : nat) :
  missing_metadata pkgs repo p key -> pkgs_get pkgs p = Some v ->
  dfs (S fuel) p v pkgs repo = Some (Raise (KeyError key)).
Proof.
  intros (v' & Hv' & Hc) Hv. assert (v' = v) as -> by congruence.
  by rewrite dfs_unfold, Hc.
Qed.

Lemma roots_Ret_elem (pkgs roots : requested) (repo : repository)
    (fuel : nat) (per_root : list (list string)) (p v : string) :
  Forall2 (fun root l => (let '(pkg, ver) := root in dfs fuel pkg ver pkgs repo)
                         = Some (Ret l)) roots per_root ->
  (p, v) ∈ roots -> exists l, dfs fuel p v pkgs repo = Some (Ret l).
Proof.
  intros Hm. induction Hm as [|[x vx] l roots per_root Hl Hm IH]; intros Hv;
    [inversion Hv|].
  apply elem_of_cons in Hv as [Heq|Hv]; [|auto].
  injection Heq as -> ->. eauto.
Qed.

(** A root whose own call fails keeps the resolution from returning. *)
Lemma root_failure_no_plan (pkgs : requested) (repo : repository)
    (p v : string) :
  pkgs_get pkgs p = Some v ->
  (forall fuel l, dfs fuel p v pkgs repo <> Some (Ret l)) ->
  forall fuel plan, build_order fuel pkgs repo <> Some (Ret plan).
Proof.
  intros Hv Hfail fuel plan. rewrite build_order_packages_needed.
  destruct (packages_needed fuel pkgs repo) as [[stream|e]|] eqn:Hp; [|done..].
  exfalso. unfold packages_needed, cbind in Hp.
  destruct (cmap _ pkgs) as [[per_root|e]|] eqn:Hm; [|discriminate..].
  apply cmap_Ret in Hm. apply pkgs_get_elem in Hv.
  destruct (roots_Ret_elem pkgs pkgs repo fuel per_root p v Hm Hv) as [l Hl].
  by apply (Hfail fuel l).
Qed.

Lemma build_order_terminates (pkgs : requested) (repo : repository) :
  NoDup pkgs.*1 -> acyclic pkgs repo ->
  exists r, forall fuel, length pkgs < fuel -> build_order fuel pkgs repo = Some r.
Proof.
  intros Hnd Hac.
  destruct (build_order (S (length pkgs)) pkgs repo) as [r|] eqn:Hr.
  - exists r. intros fuel Hfuel. apply (build_order_mono pkgs repo (S (length pkgs))); [lia|done].
  - exfalso. rewrite build_order_packages_needed in Hr.
    destruct (packages_needed (S (length pkgs)) pkgs repo) as [[stream|e]|] eqn:Hp;
      [discriminate..|].
    revert Hp. apply packages_needed_terminates; [done|done|lia].
Qed.

(** C1.  For a requested set (a dict: distinct keys) and a repository whose
    dependency graph is acyclic and whose declared dependencies are all
    requested, the build plan that the resolution returns holds every
    requested package exactly once, holds every package strictly after all
    its transitive dependencies, and keeps the order of first emission: a
    package emitted for the first time after the names [l1] stands right
    after the distinct names of [l1].  The plan is returned, for every
    budget of nested calls above the number of requested packages, as soon
    as every requested package has metadata at its requested version. *)
Theorem build_order_once_deps_first (pkgs : requested) (repo : repository) :
  NoDup pkgs.*1 -> deps_requested pkgs repo -> acyclic pkgs repo ->
  (forall fuel plan, build_order fuel pkgs repo = Some (Ret plan) ->
     NoDup plan /\
     (forall p, p ∈ plan <-> p ∈ pkgs.*1) /\
     (forall p d, tc (dep pkgs repo) p d -> before d p plan) /\
     exists stream, packages_needed fuel pkgs repo = Some (Ret stream) /\
       forall l1 a l2, stream = l1 ++ a :: l2 -> a ∉ l1 ->
         exists rest, plan = first_seen l1 ++ a :: rest) /\
  (repo_complete pkgs repo ->
     exists plan, forall fuel, length pkgs < fuel ->
       build_order fuel pkgs repo = Some (Ret plan)).
Proof.
  intros Hnd Hreq Hac. split.
  - intros fuel plan. rewrite build_order_packages_needed.
    destruct (packages_needed fuel pkgs repo) as [[stream|e]|] eqn:Hp;
      [|discriminate..].
    intros [= <-]. destruct (packages_needed_Ret pkgs repo fuel stream Hnd Hp) as [D M].
    split; [apply NoDup_first_seen|]. split; [|split].
    + intros p. by rewrite elem_of_first_seen.
    + intros p d Htc.
      assert (Hp' : p ∈ first_seen stream).
      { apply elem_of_first_seen, M, pkgs_get_keys.
        inversion Htc as [? ? (v & _ & _ & Hv & _)|? ? ? (v & _ & _ & Hv & _)]; eauto. }
      apply list_elem_of_split in Hp' as (l1 & l3 & Hsplit).
      assert (Hd : d ∈ l1).
      { eapply (deps_first_tc (dep pkgs repo)); [|exact Htc|exact Hsplit].
        by apply deps_first_first_seen. }
      apply list_elem_of_split in Hd as (a & b & ->).
      exists a, b, l3. by rewrite Hsplit, <- app_assoc.
    + exists stream. split; [done|]. intros l1 a l2 -> Ha.
      by apply first_seen_first_emission.
  - intros Hcomplete. destruct (build_order_terminates pkgs repo Hnd Hac) as [r Hr].
    destruct r as [plan|e]; [by exists plan|]. exfalso.
    specialize (Hr (S (length pkgs)) ltac:(lia)).
    rewrite build_order_packages_needed in Hr.
    destruct (packages_needed (S (length pkgs)) pkgs repo) as [[stream|e']|] eqn:Hp;
      [discriminate| |discriminate].
    injection Hr as ->.
    apply packages_needed_Raise in Hp
      as [(q & key & (vq & Hq & Hg) & _)
         |(q & deps & d & (vq & c & Hq & Hg & Hd & Hin & Hn) & _)]; [| |done].
    + destruct (Hcomplete q vq Hq) as [c Hc]. congruence.
    + destruct (Hreq q d) as [? ?]; [by eapply dep_intro|congruence].
Qed.

Lemma diamond_nodup : NoDup diamond_pkgs.*1.
Proof. apply (bool_decide_unpack (NoDup diamond_pkgs.*1)). vm_compute. exact I. Qed.

Lemma diamond_deps_requested : deps_requested diamond_pkgs diamond_repo.
Proof. apply check_deps_requested_sound. vm_compute. reflexivity. Qed.

Lemma diamond_acyclic : acyclic diamond_pkgs diamond_repo.
Proof.
  apply (check_ranked_sound ["a"; "b"; "c"; "d"]). vm_compute. reflexivity.
Qed.

Lemma diamond_complete : repo_complete diamond_pkgs diamond_repo.
Proof. apply check_complete_sound. vm_compute. reflexivity. Qed.

Lemma build_order_once_deps_first_witness :
  NoDup diamond_pkgs.*1 /\ deps_requested diamond_pkgs diamond_repo /\
  acyclic diamond_pkgs diamond_repo /\ repo_complete diamond_pkgs diamond_repo /\
  build_order 5 diamond_pkgs diamond_repo = Some (Ret ["a"; "b"; "c"; "d"]) /\
  NoDup ["a"; "b"; "c"; "d"] /\
  before "a" "d" ["a"; "b"; "c"; "d"].
Proof.
  destruct (build_order_once_deps_first diamond_pkgs diamond_repo
              diamond_nodup diamond_deps_requested diamond_acyclic) as [Hplan _].
  assert (Hrun : build_order 5 diamond_pkgs diamond_repo = Some (Ret ["a"; "b"; "c"; "d"]))
    by (vm_compute; reflexivity).
  destruct (Hplan 5 _ Hrun) as (Hnd & _ & Hbefore & _).
  split; [exact diamond_nodup|]. split; [exact diamond_deps_requested|].
  split; [exact diamond_acyclic|]. split; [exact diamond_complete|].
  split; [exact Hrun|]. split; [exact Hnd|].
  apply Hbefore. apply (tc_l _ "d" "b" "a").
  - apply dep_declared. vm_compute. left.
  - apply tc_once. apply dep_declared. vm_compute. left.
Defined.

(** C9.  For a requested set and a repository whose declared dependencies
    are all requested: when the version-specific dependency graph is
    acyclic, every call of the traversal on a requested package, and the
    whole resolution, return an answer within any budget of nested calls
    above the number of requested packages; when the graph has a cycle
    through a requested package (and all metadata is there to follow it),
    no budget is enough: the traversal recurses without bound. *)
Theorem resolution_terminates_iff_no_cycle (pkgs : requested) (repo : repository) :
  NoDup pkgs.*1 -> deps_requested pkgs repo ->
  (acyclic pkgs repo ->
     (forall p v, pkgs_get pkgs p = Some v ->
        exists r, forall fuel, length pkgs < fuel ->
          dfs fuel p v pkgs repo = Some r) /\
     (exists r, forall fuel, length pkgs < fuel ->
        build_order fuel pkgs repo = Some r)) /\
  (repo_complete pkgs repo ->
     forall p v, pkgs_get pkgs p = Some v -> tc (dep pkgs repo) p p ->
       forall fuel, dfs fuel p v pkgs repo = None /\
                    build_order fuel pkgs repo = None).
Proof.
  intros Hnd Hreq. split.
  - intros Hac. split; [|by apply build_order_terminates].
    intros p v Hv.
    destruct (dfs (S (length pkgs)) p v pkgs repo) as [r|] eqn:Hr.
    + exists r. intros fuel Hfuel.
      apply (dfs_mono pkgs repo (S (length pkgs))); [lia|done].
    + exfalso. revert Hr. apply dfs_terminates; [done|done|lia].
  - intros Hcomplete p v Hv Hcyc fuel.
    assert (Hdfs : dfs fuel p v pkgs repo = None) by by apply dfs_cycle.
    split; [done|].
    rewrite build_order_packages_needed. unfold packages_needed.
    rewrite (cmap_diverges _ pkgs (p, v)); [done| |done|].
    + by apply pkgs_get_elem.
    + intros [x vx] e Hin. apply dfs_never_raises; [done|done|].
      by apply pkgs_get_nodup.
Qed.

Lemma cycle_nodup : NoDup cycle_pkgs.*1.
Proof. apply (bool_decide_unpack (NoDup cycle_pkgs.*1)). vm_compute. exact I. Qed.

Lemma cycle_deps_requested : deps_requested cycle_pkgs cycle_repo.
Proof. apply check_deps_requested_sound. vm_compute. reflexivity. Qed.

Lemma cycle_complete : repo_complete cycle_pkgs cycle_repo.
Proof. apply check_complete_sound. vm_compute. reflexivity. Qed.

Lemma cycle_through_a : tc (dep cycle_pkgs cycle_repo) "a" "a".
Proof.
  apply (tc_l _ "a" "b" "a").
  - apply dep_declared. vm_compute. left.
  - apply tc_once. apply dep_declared. vm_compute. left.
Qed.

Lemma resolution_terminates_iff_no_cycle_witness :
  (NoDup diamond_pkgs.*1 /\ deps_requested diamond_pkgs diamond_repo /\
   acyclic diamond_pkgs diamond_repo /\
   exists r, forall fuel, length diamond_pkgs < fuel ->
     build_order fuel diamond_pkgs diamond_repo = Some r) /\
  (NoDup cycle_pkgs.*1 /\ deps_requested cycle_pkgs cycle_repo /\
   repo_complete cycle_pkgs cycle_repo /\
   tc (dep cycle_pkgs cycle_repo) "a" "a" /\
   forall fuel, dfs fuel "a" "1" cycle_pkgs cycle_repo = None /\
                build_order fuel cycle_pkgs cycle_repo = None).
Proof.
  split.
  - split; [exact diamond_nodup|]. split; [exact diamond_deps_requested|].
    split; [exact diamond_acyclic|].
    apply (resolution_terminates_iff_no_cycle diamond_pkgs diamond_repo
             diamond_nodup diamond_deps_requested).
    exact diamond_acyclic.
  - split; [exact cycle_nodup|]. split; [exact cycle_deps_requested|].
    split; [exact cycle_complete|]. split; [exact cycle_through_a|].
    apply (resolution_terminates_iff_no_cycle cycle_pkgs cycle_repo
             cycle_nodup cycle_deps_requested);
      [exact cycle_complete|reflexivity|exact cycle_through_a].
Defined.






(** C10, as the code has it.  When a requested package declares a
    dependency [d] that is requested, but for which the repository has no
    metadata at the requested version, the presence check of [dfs] accepts
    [d] (it looks at the requested set only), the call of the traversal on
    [d] raises [KeyError], and the resolution never returns a build plan; the
    whole resolution ends with a [KeyError] for missing metadata provided
    all declared dependencies are requested and the graph is acyclic (an
    exit for a missing dependency or an unbounded recursion met earlier
    takes precedence otherwise). *)
Theorem missing_metadata_is_key_error (pkgs : requested) (repo : repository)
    (p d key : string) :
  NoDup pkgs.*1 ->
  dep pkgs repo p d -> missing_metadata pkgs repo d key ->
  pkgs_contains pkgs d = true /\
  (forall v fuel, pkgs_get pkgs d = Some v ->
     dfs (S fuel) d v pkgs repo = Some (Raise (KeyError key))) /\
  (forall fuel plan, build_order fuel pkgs repo <> Some (Ret plan)) /\
  (deps_requested pkgs repo -> acyclic pkgs repo ->
     exists q key', missing_metadata pkgs repo q key' /\
       forall fuel, length pkgs < fuel ->
         build_order fuel pkgs repo = Some (Raise (KeyError key'))).
Proof.
  intros Hnd Hdep Hmiss.
  assert (Hv : exists v, pkgs_get pkgs d = Some v).
  { destruct Hmiss as (v & Hv & _). eauto. }
  destruct Hv as [v Hv].
  assert (Hnoplan : forall fuel plan, build_order fuel pkgs repo <> Some (Ret plan)).
  { apply (root_failure_no_plan pkgs repo d v Hv). intros [|fuel] l; [done|].
    by rewrite (missing_metadata_dfs pkgs repo d v key fuel). }
  split; [|split; [|split]].
  - unfold pkgs_contains. apply bool_decide_eq_true. rewrite Hv. eauto.
  - intros v' fuel Hv'. by apply missing_metadata_dfs.
  - done.
  - intros Hreq Hac.
    destruct (build_order_terminates pkgs repo Hnd Hac) as [r Hr].
    assert (Hr0 := Hr (S (length pkgs)) ltac:(lia)).
    destruct r as [plan|e]; [by apply Hnoplan in Hr0|].
    rewrite build_order_packages_needed in Hr0.
    destruct (packages_needed (S (length pkgs)) pkgs repo) as [[stream|e']|] eqn:Hp;
      [discriminate| |discriminate].
    injection Hr0 as ->.
    apply packages_needed_Raise in Hp
      as [(q & key' & Hmiss' & ->)
         |(q & deps & d' & (vq & c & Hq & Hg & Hd & Hin & Hn) & _)]; [| |done].
    + exists q, key'. done.
    + destruct (Hreq q d') as [? ?]; [by eapply dep_intro|congruence].
Qed.

Lemma stale_nodup : NoDup stale_pkgs.*1.
Proof. apply (bool_decide_unpack (NoDup stale_pkgs.*1)). vm_compute. exact I. Qed.

Lemma missing_metadata_is_key_error_witness :
  NoDup stale_pkgs.*1 /\
  dep stale_pkgs stale_repo "b" "c" /\
  missing_metadata stale_pkgs stale_repo "c" "2" /\
  pkgs_contains stale_pkgs "c" = true /\
  dfs 1 "c" "2" stale_pkgs stale_repo = Some (Raise (KeyError "2")) /\
  (forall fuel plan, build_order fuel stale_pkgs stale_repo <> Some (Ret plan)).
Proof.
  assert (Hdep : dep stale_pkgs stale_repo "b" "c").
  { apply dep_declared. vm_compute. left. }
  assert (Hmiss : missing_metadata stale_pkgs stale_repo "c" "2").
  { exists "2". split; vm_compute; reflexivity. }
  destruct (missing_metadata_is_key_error stale_pkgs stale_repo "b" "c" "2"
              stale_nodup Hdep Hmiss) as (Hcheck & Hdfs & Hnoplan & _).
  split; [exact stale_nodup|]. split; [exact Hdep|]. split; [exact Hmiss|].
  split; [exact Hcheck|]. split; [|exact Hnoplan].
  apply (Hdfs "2" 0). reflexivity.
Defined.

(** C10 as stated fails: [b] declares [c], requested and without metadata,
    yet the resolution ends with the exit for the missing dependency of
    [a], met first, and not with a [KeyError]. *)
Lemma missing_metadata_behind_exit :
  NoDup exit_first_pkgs.*1 /\
  dep exit_first_pkgs exit_first_repo "b" "c" /\
  pkgs_get exit_first_pkgs "c" = Some "1" /\
  exit_first_repo !! "c" = None /\
  (forall fuel, build_order (S fuel) exit_first_pkgs exit_first_repo
                = Some (Raise (SystemExit 1%Z
                     "error: zz required as dependency, is not in distribution"))) /\
  (forall fuel key,
     build_order fuel exit_first_pkgs exit_first_repo <> Some (Raise (KeyError key))).
Proof.
  assert (Hrun : forall fuel, build_order (S fuel) exit_first_pkgs exit_first_repo
                 = Some (Raise (SystemExit 1%Z
                      "error: zz required as dependency, is not in distribution")))
    by (intros fuel; reflexivity).
  split; [apply (bool_decide_unpack (NoDup exit_first_pkgs.*1)); vm_compute; exact I|].
  split; [apply dep_declared; vm_compute; left|].
  split; [reflexivity|]. split; [reflexivity|].
  split; [exact Hrun|]. intros [|fuel] key; [discriminate|].
  rewrite Hrun. discriminate.
Qed.


(** ** The compile strategy and the environment *)

(** Undoes the monad's plumbing in a goal about a run of a strategy. *)
Ltac run_prog :=
  unfold pushd, mkdir_parents, shell, setenv, getenv_item, getenv, delenv,
    print, log, lift, not_none, pbind, pret, praise in *; simpl in *.

(** C3, as the code has it.  When the compile strategy returns normally, the
    executable search path [PATH] has its exact prior value again, every
    variable other than [LD_LIBRARY_PATH] is as before, and
    [LD_LIBRARY_PATH] is absent again if it was absent before.  When an
    external build command fails, the failure propagates with both variables
    still holding the values set for the build: nothing is restored. *)
Theorem cmake_environment (X : externals)
    (package_name ver pkgpath prefix : string) (builddir : option string)
    (makeopts : string) (jobs : nat) (fakeroot : string)
    (ld_lib_path bin_path : option string) (cmake_exe : string) (w : world) :
  let run := cmake X package_name ver pkgpath prefix builddir makeopts jobs
                   fakeroot ld_lib_path bin_path cmake_exe w in
  (run.1 = Ret tt ->
     environ run.2 !! "PATH" = environ w !! "PATH" /\
     (forall name, name <> "LD_LIBRARY_PATH" ->
        environ run.2 !! name = environ w !! name) /\
     (environ w !! "LD_LIBRARY_PATH" = None ->
        environ run.2 !! "LD_LIBRARY_PATH" = None)) /\
  (forall cmd, run.1 = Raise (CalledProcessError cmd) ->
     environ run.2 !! "PATH" = bin_path /\
     environ run.2 !! "LD_LIBRARY_PATH" = ld_lib_path /\
     is_Some bin_path /\ is_Some ld_lib_path).
Proof.
  unfold cmake. run_prog.
  destruct (mkdir_ok X _); simpl; [|split; [discriminate|intros cmd; discriminate]].
  destruct ld_lib_path as [ld|]; simpl; [|split; [discriminate|intros cmd; discriminate]].
  rewrite lookup_insert_ne by done.
  destruct (environ w !! "PATH") as [pre|] eqn:Hpath; simpl;
    [|split; [discriminate|intros cmd; discriminate]].
  destruct bin_path as [bin|]; simpl; [|split; [discriminate|intros cmd; discriminate]].
  destruct (shell_run X _ _) as [out1|]; simpl.
  2:{ split; [discriminate|]. intros cmd _. by simplify_map_eq. }
  destruct (shell_run X _ _) as [out2|]; simpl.
  2:{ split; [discriminate|]. intros cmd _. by simplify_map_eq. }
  destruct (shell_run X _ _) as [out3|]; simpl.
  2:{ split; [discriminate|]. intros cmd _. by simplify_map_eq. }
  rewrite lookup_insert_ne by done. rewrite lookup_insert_eq. simpl.
  split; [|intros cmd; discriminate]. intros _. split; [|split].
  - by simplify_map_eq.
  - intros name Hname. destruct (decide (name = "PATH")) as [->|Hne].
    + by simplify_map_eq.
    + by simplify_map_eq.
  - intros _. by simplify_map_eq.
Qed.

Lemma cmake_environment_witness :
  (let run := cmake working_tools "opm" "2024.04" "/src/opm-2024.04" "/prefix"
                    None "" 4 "/stage" (Some "/stage/prefix/lib")
                    (Some "/stage/prefix/bin:/usr/bin") "cmake" plain_world in
   run.1 = Ret tt /\
   environ run.2 !! "PATH" = Some "/usr/bin" /\
   environ run.2 !! "LD_LIBRARY_PATH" = None) /\
  (let run := cmake failing_tools "opm" "2024.04" "/src/opm-2024.04" "/prefix"
                    None "" 4 "/stage" (Some "/stage/prefix/lib")
                    (Some "/stage/prefix/bin:/usr/bin") "cmake" plain_world in
   (exists cmd, run.1 = Raise (CalledProcessError cmd)) /\
   environ run.2 !! "PATH" = Some "/stage/prefix/bin:/usr/bin" /\
   environ run.2 !! "LD_LIBRARY_PATH" = Some "/stage/prefix/lib").
Proof.
  split.
  - destruct (cmake_environment working_tools "opm" "2024.04" "/src/opm-2024.04"
                "/prefix" None "" 4 "/stage" (Some "/stage/prefix/lib")
                (Some "/stage/prefix/bin:/usr/bin") "cmake" plain_world)
      as [Hok _].
    assert (Hrun : (cmake working_tools "opm" "2024.04" "/src/opm-2024.04" "/prefix"
                      None "" 4 "/stage" (Some "/stage/prefix/lib")
                      (Some "/stage/prefix/bin:/usr/bin") "cmake" plain_world).1
                   = Ret tt) by (vm_compute; reflexivity).
    destruct (Hok Hrun) as (Hpath & _ & Hld).
    split; [exact Hrun|]. split; [exact Hpath|]. apply Hld. reflexivity.
  - destruct (cmake_environment failing_tools "opm" "2024.04" "/src/opm-2024.04"
                "/prefix" None "" 4 "/stage" (Some "/stage/prefix/lib")
                (Some "/stage/prefix/bin:/usr/bin") "cmake" plain_world)
      as [_ Hfail].
    assert (Hrun : (cmake failing_tools "opm" "2024.04" "/src/opm-2024.04" "/prefix"
                      None "" 4 "/stage" (Some "/stage/prefix/lib")
                      (Some "/stage/prefix/bin:/usr/bin") "cmake" plain_world).1
                   = Raise (CalledProcessError
                              (["cmake"; "/src/opm-2024.04"]
                                 ++ cmake_flags "/prefix" "/stage" ++ [""])))
      by (vm_compute; reflexivity).
    destruct (Hfail _ Hrun) as (Hpath & Hld & _).
    split; [eexists; exact Hrun|]. split; [exact Hpath|exact Hld].
Defined.

(** C3 as stated fails: the configure command exits non-zero, and the
    strategy leaves with [PATH] overwritten and [LD_LIBRARY_PATH], unset
    before, set. *)
Lemma cmake_failure_leaks_environment :
  let run := cmake failing_tools "opm" "2024.04" "/src/opm-2024.04" "/prefix"
                   None "" 4 "/stage" (Some "/stage/prefix/lib")
                   (Some "/stage/prefix/bin:/usr/bin") "cmake" plain_world in
  run.1 = Raise (CalledProcessError
                   (["cmake"; "/src/opm-2024.04"]
                      ++ cmake_flags "/prefix" "/stage" ++ [""])) /\
  environ plain_world !! "PATH" = Some "/usr/bin" /\
  environ run.2 !! "PATH" = Some "/stage/prefix/bin:/usr/bin" /\
  environ plain_world !! "LD_LIBRARY_PATH" = None /\
  environ run.2 !! "LD_LIBRARY_PATH" = Some "/stage/prefix/lib".
Proof. vm_compute. repeat split; reflexivity. Qed.

(** ** The verified-download strategy *)

Lemma write_chunks_spec (dest : list string) (body : list (list byte)) :
  forall hashed env fs tr mode c,
    write_chunks dest body hashed (World env (<[dest := File mode c]> fs) tr)
    = (Ret (hashed ++ concat body),
       World env (<[dest := File mode (c ++ concat body)]> fs)
             (tr ++ map (WriteChunk dest) body)).
Proof.
  induction body as [|chunk rest IH]; intros hashed env fs tr mode c; simpl.
  - unfold pret. by rewrite !app_nil_r.
  - unfold file_write, log, pbind. simpl.
    rewrite alter_insert_eq. simpl. rewrite IH.
    by rewrite <- !app_assoc.
Qed.

(** The whole run of an invocation that gets past the guards, is answered
    200, can open its destination and receives the complete stream. *)
Lemma download_completed (X : externals) (package_name ver prefix : string)
    (u h hash_value fakeroot dst : string) (r : response) (w : world) :
  let dest := path_div (path_parts (fakeroot +:+ prefix)) dst in
  let mode := opened_mode X w dest in
  let digest := sha256_hexdigest X (concat (chunks r)) in
  let events := [Stdout (installing package_name ver "with download");
                 HttpGet u; OpenWb dest] ++ map (WriteChunk dest) (chunks r) in
  startswith "https" u = true ->
  split ":" h = ["sha256"; hash_value] ->
  http_get X u = Some r -> status_code r = 200%Z ->
  open_ok X dest = true -> complete r = true ->
  download X package_name ver prefix (Some u) (Some h) fakeroot (Some dst) w
  = if decide (digest <> hash_value) then
      (Raise (ValueError ("Hash of downloaded file (" +:+ digest
                            +:+ ") not equal to expected hash.")),
       World (environ w) (<[dest := File mode (concat (chunks r))]> (files w))
             (trace w ++ events))
    else if decide ("bin" ∈ dest) then
      (Ret tt,
       World (environ w)
             (<[dest := File (with_exec_bits mode) (concat (chunks r))]> (files w))
             (trace w ++ events ++ [Chmod dest (with_exec_bits mode)]))
    else
      (Ret tt,
       World (environ w) (<[dest := File mode (concat (chunks r))]> (files w))
             (trace w ++ events)).
Proof.
  intros dest mode digest events Hurl Hsplit Hget Hstatus Hopen Hcomplete.
  unfold download, session_get, open_wb. run_prog.
  rewrite Hurl, Hsplit. simpl.
  destruct (decide ("sha256" <> "sha256")) as [Hn|_]; [by destruct Hn|].
  rewrite Hget. simpl.
  destruct (decide (status_code r <> 200%Z)) as [Hn|_]; [done|].
  fold dest. rewrite Hopen. simpl.
  rewrite (write_chunks_spec dest (chunks r) [] (environ w) (files w) _
             (opened_mode X w dest) []).
  simpl. rewrite Hcomplete. simpl. fold digest. fold mode.
  destruct (decide (digest <> hash_value)) as [Hne|Heq].
  - subst events. simpl. by rewrite <- !app_assoc.
  - destruct (decide ("bin" ∈ dest)) as [Hbin|Hbin].
    + unfold chmod_executable. simpl. rewrite lookup_insert_eq. simpl.
      rewrite insert_insert_eq. subst events. simpl. fold (with_exec_bits mode).
      by rewrite <- !app_assoc.
    + subst events. simpl. by rewrite <- !app_assoc.
Qed.

(** A successful invocation went through every step. *)
Lemma download_Ret_inv (X : externals) (package_name ver prefix : string)
    (url hash_str : option string) (fakeroot : string)
    (destination : option string) (w w' : world) :
  download X package_name ver prefix url hash_str fakeroot destination w
  = (Ret tt, w') ->
  exists u h hash_value dst r,
    url = Some u /\ hash_str = Some h /\ destination = Some dst /\
    startswith "https" u = true /\ split ":" h = ["sha256"; hash_value] /\
    http_get X u = Some r /\ status_code r = 200%Z /\
    open_ok X (path_div (path_parts (fakeroot +:+ prefix)) dst) = true /\
    complete r = true.
Proof.
  unfold download, session_get, open_wb. run_prog.
  destruct url as [u|]; simpl; [|discriminate].
  destruct (startswith "https" u) eqn:Hurl; simpl; [|discriminate].
  destruct hash_str as [h|]; simpl; [|discriminate].
  destruct (split ":" h) as [|hash_type [|hash_value [|? ?]]] eqn:Hsplit;
    [discriminate..| |discriminate].
  destruct (decide (hash_type <> "sha256")) as [|Htype]; [discriminate|].
  apply dec_stable in Htype as ->.
  destruct destination as [dst|]; simpl; [|discriminate].
  destruct (http_get X u) as [r|] eqn:Hget; simpl; [|discriminate].
  destruct (decide (status_code r <> 200%Z)) as [|Hstatus]; [discriminate|].
  apply dec_stable in Hstatus.
  destruct (open_ok X _) eqn:Hopen; simpl; [|discriminate].
  rewrite write_chunks_spec. simpl.
  destruct (complete r) eqn:Hcomplete; simpl; [|discriminate].
  intros _. exists u, h, hash_value, dst, r. done.
Qed.


(** What the two guards do reject, they reject before any request. *)
Lemma download_guards (X : externals) (package_name ver prefix : string)
    (u h fakeroot : string) (destination : option string) (w : world) :
  let run := download X package_name ver prefix (Some u) (Some h) fakeroot
                      destination w in
  let printed := trace w ++ [Stdout (installing package_name ver "with download")] in
  (startswith "https" u = false ->
     run = (Raise (ValueError (u +:+ " does not use https:// protocol")),
            World (environ w) (files w) printed)) /\
  (startswith "https" u = true ->
     forall hash_type hash_value,
       split ":" h = [hash_type; hash_value] -> hash_type <> "sha256" ->
       run = (Raise (NotImplementedError
                       ("Hash type " +:+ hash_type
                          +:+ " given - only sha256 implemented")),
              World (environ w) (files w) printed)) /\
  (startswith "https" u = true ->
     length (split ":" h) <> 2%nat ->
     run = (Raise ValueErrorUnpack, World (environ w) (files w) printed)).
Proof.
  unfold download. run_prog. split; [|split].
  - intros ->. done.
  - intros -> hash_type hash_value -> Hne. simpl.
    destruct (decide (hash_type <> "sha256")); done.
  - intros -> Hlen. simpl.
    destruct (split ":" h) as [|a [|b [|? ?]]]; simpl in *; done.
Qed.


(** C6.  For every invocation that completes the download (it passes the
    guards, is answered 200, opens its destination and receives the whole
    stream), the file holds the concatenation of all chunks, the digest is
    that of this same concatenation, the strategy raises the mismatch error
    whenever the hexadecimal digest is not exactly the declared value, and
    it returns normally if and only if the two are equal. *)
Theorem download_digest_check (X : externals) (package_name ver prefix : string)
    (u h hash_value fakeroot dst : string) (r : response) (w : world) :
  let dest := path_div (path_parts (fakeroot +:+ prefix)) dst in
  let digest := sha256_hexdigest X (concat (chunks r)) in
  let run := download X package_name ver prefix (Some u) (Some h) fakeroot
                      (Some dst) w in
  startswith "https" u = true ->
  split ":" h = ["sha256"; hash_value] ->
  http_get X u = Some r -> status_code r = 200%Z ->
  open_ok X dest = true -> complete r = true ->
  content <$> files run.2 !! dest = Some (concat (chunks r)) /\
  (digest <> hash_value ->
     run.1 = Raise (ValueError ("Hash of downloaded file (" +:+ digest
                                  +:+ ") not equal to expected hash."))) /\
  (run.1 = Ret tt <-> digest = hash_value).
Proof.
  intros dest digest run Hurl Hsplit Hget Hstatus Hopen Hcomplete.
  subst run. rewrite (download_completed X package_name ver prefix u h hash_value
                        fakeroot dst r w Hurl Hsplit Hget Hstatus Hopen Hcomplete).
  fold dest. fold digest.
  destruct (decide (digest <> hash_value)) as [Hne|Heq].
  - simpl. rewrite lookup_insert_eq. split; [done|]. split; [done|].
    split; [discriminate|done].
  - apply dec_stable in Heq.
    destruct (decide ("bin" ∈ dest)); simpl; rewrite lookup_insert_eq;
      (split; [done|]); (split; [done|]); done.
Qed.

Lemma download_digest_check_witness :
  startswith "https" "https://example.org/tool" = true /\
  split ":" "sha256:3" = ["sha256"; "3"] /\
  http_get working_tools "https://example.org/tool"
  = Some (Response 200 tool_bytes true) /\
  (let run := download working_tools "tool" "1.0" "/prefix"
                (Some "https://example.org/tool") (Some "sha256:3") "/stage"
                (Some "bin/tool") plain_world in
   run.1 = Ret tt) /\
  (let run := download working_tools "tool" "1.0" "/prefix"
                (Some "https://example.org/tool") (Some "sha256:4") "/stage"
                (Some "bin/tool") plain_world in
   run.1 = Raise (ValueError
                    "Hash of downloaded file (3) not equal to expected hash.")).
Proof.
  split; [reflexivity|]. split; [reflexivity|]. split; [reflexivity|]. split.
  - apply (download_digest_check working_tools "tool" "1.0" "/prefix"
             "https://example.org/tool" "sha256:3" "3" "/stage" "bin/tool"
             (Response 200 tool_bytes true) plain_world); reflexivity.
  - apply (download_digest_check working_tools "tool" "1.0" "/prefix"
             "https://example.org/tool" "sha256:4" "4" "/stage" "bin/tool"
             (Response 200 tool_bytes true) plain_world);
      try reflexivity.
    vm_compute. discriminate.
Defined.

Lemma with_exec_bits_set (mode : Z) :
  Z.testbit (with_exec_bits mode) 6 = true /\
  Z.testbit (with_exec_bits mode) 3 = true /\
  Z.testbit (with_exec_bits mode) 0 = true.
Proof.
  unfold with_exec_bits, S_IXUSR, S_IXGRP, S_IXOTH.
  rewrite !Z.lor_spec. simpl.
  repeat split; rewrite ?orb_true_r; reflexivity.
Qed.

(** C7, as the code has it.  After every successful invocation the
    downloaded file has the three executable bits added to the mode it was
    opened with if and only if some component of the destination path,
    staging root and prefix included, is [bin]; otherwise its mode is left as
    it was opened, and no [chmod] is issued. *)
Theorem download_marks_executable (X : externals)
    (package_name ver prefix : string) (url hash_str : option string)
    (fakeroot : string) (destination : option string) (w w' : world) :
  download X package_name ver prefix url hash_str fakeroot destination w
  = (Ret tt, w') ->
  exists dst events f,
    destination = Some dst /\
    let dest := path_div (path_parts (fakeroot +:+ prefix)) dst in
    trace w' = trace w ++ events /\
    files w' !! dest = Some f /\
    ("bin" ∈ dest ->
       st_mode f = with_exec_bits (opened_mode X w dest) /\
       Z.testbit (st_mode f) 6 = true /\ Z.testbit (st_mode f) 3 = true /\
       Z.testbit (st_mode f) 0 = true /\
       Chmod dest (st_mode f) ∈ events) /\
    ("bin" ∉ dest ->
       st_mode f = opened_mode X w dest /\
       forall path mode, Chmod path mode ∉ events).
Proof.
  intros Hrun.
  destruct (download_Ret_inv _ _ _ _ _ _ _ _ _ _ Hrun)
    as (u & h & hash_value & dst & r & -> & -> & -> & Hurl & Hsplit & Hget
        & Hstatus & Hopen & Hcomplete).
  rewrite (download_completed X package_name ver prefix u h hash_value
             fakeroot dst r w Hurl Hsplit Hget Hstatus Hopen Hcomplete) in Hrun.
  set (dest := path_div (path_parts (fakeroot +:+ prefix)) dst) in *.
  destruct (decide (_ <> hash_value)); [discriminate|].
  destruct (decide ("bin" ∈ dest)) as [Hbin|Hbin]; injection Hrun as <-; simpl.
  - eexists dst, _, _. split; [done|]. split; [done|].
    rewrite lookup_insert_eq. split; [done|]. split; [|done].
    intros _. simpl. destruct (with_exec_bits_set (opened_mode X w dest)) as (? & ? & ?).
    repeat split; try done. set_solver.
  - eexists dst, _, _. split; [done|]. split; [done|].
    rewrite lookup_insert_eq. split; [done|]. split; [done|].
    intros _. simpl. split; [done|]. intros path mode Hin.
    rewrite !elem_of_cons, list_elem_of_fmap in Hin.
    destruct Hin as [?|[?|[?|(? & ? & ?)]]]; discriminate.
Qed.

Lemma download_marks_executable_witness :
  let run := download working_tools "tool" "1.0" "/prefix"
               (Some "https://example.org/tool") (Some "sha256:3") "/stage"
               (Some "share/tool") plain_world in
  run.1 = Ret tt /\
  exists f, files run.2 !! ["/"; "stage"; "prefix"; "share"; "tool"] = Some f /\
            st_mode f = 420%Z.
Proof.
  assert (Hrun : download working_tools "tool" "1.0" "/prefix"
                   (Some "https://example.org/tool") (Some "sha256:3") "/stage"
                   (Some "share/tool") plain_world
                 = (Ret tt, (download working_tools "tool" "1.0" "/prefix"
                               (Some "https://example.org/tool") (Some "sha256:3")
                               "/stage" (Some "share/tool") plain_world).2))
    by (vm_compute; reflexivity).
  destruct (download_marks_executable _ _ _ _ _ _ _ _ _ _ Hrun)
    as (dst & events & f & Hdst & _ & Hf & _ & Hplain).
  injection Hdst as <-.
  split; [vm_compute; reflexivity|]. exists f. split; [exact Hf|].
  apply Hplain. vm_compute. intros Hin.
  repeat (apply elem_of_cons in Hin as [Heq|Hin]; [discriminate|]).
  inversion Hin.
Defined.

(** C7 as stated fails: the file lands in [/stage/prefix/bin/plugins], whose
    last directory is [plugins], and is made executable all the same. *)
Lemma download_marks_executable_below_bin :
  let run := download working_tools "tool" "1.0" "/prefix"
               (Some "https://example.org/tool") (Some "sha256:3") "/stage"
               (Some "bin/plugins/tool") plain_world in
  let dest := path_div (path_parts ("/stage" +:+ "/prefix")) "bin/plugins/tool" in
  run.1 = Ret tt /\
  dest = ["/"; "stage"; "prefix"; "bin"; "plugins"; "tool"] /\
  final_directory dest = Some "plugins" /\
  st_mode <$> files run.2 !! dest = Some 493%Z /\
  last (trace run.2) = Some (Chmod dest 493).
Proof. vm_compute. repeat split; reflexivity. Qed.

(** ** The orchestrator *)

Lemma has_key_field (current : metadata) (key : string) :
  key <> "depends" ->
  has_key current key = bool_decide (is_Some (fields current !! key)).
Proof. intros Hne. unfold has_key. by rewrite decide_False. Qed.

Lemma existsb_download_keys (current : metadata) :
  existsb (has_key current) download_keys = true <->
  exists key, key ∈ download_keys /\ is_Some (fields current !! key).
Proof.
  unfold download_keys. simpl. rewrite !has_key_field by done.
  rewrite orb_false_r, !orb_true_iff, !bool_decide_eq_true. split.
  - intros [H|[H|H]]; eexists; (split; [|exact H]); set_solver.
  - intros (key & Hin & H).
    rewrite !elem_of_cons in Hin. destruct Hin as [->|[->|[->|Hin]]]; auto.
    inversion Hin.
Qed.

Lemma forallb_download_keys (current : metadata) :
  forallb (has_key current) download_keys = false <->
  exists key, key ∈ download_keys /\ fields current !! key = None.
Proof.
  unfold download_keys. simpl. rewrite !has_key_field by done.
  rewrite andb_true_r, !andb_false_iff, !bool_decide_eq_false.
  rewrite <- !eq_None_not_Some. split.
  - intros [H|[H|H]]; eexists; (split; [|exact H]); set_solver.
  - intros (key & Hin & H).
    rewrite !elem_of_cons in Hin. destruct Hin as [->|[->|[->|Hin]]]; auto.
    inversion Hin.
Qed.

(** The three inconsistencies are what [validate] reports. *)
Lemma validate_Some (current : metadata) (mk : string) :
  is_Some (validate current mk) <->
  ((exists key, key ∈ download_keys /\ is_Some (fields current !! key))
     /\ mk <> "download") \/
  ((exists key, key ∈ download_keys /\ fields current !! key = None)
     /\ mk = "download") \/
  (is_Some (fields current !! "pypi_package_name") /\ mk <> "pip").
Proof.
  rewrite <- existsb_download_keys, <- forallb_download_keys.
  unfold validate. rewrite (has_key_field current "pypi_package_name") by done.
  destruct (existsb (has_key current) download_keys);
    destruct (forallb (has_key current) download_keys);
    repeat case_bool_decide; simpl; split.
  all: try (intros [? ?]; discriminate).
  all: try (intros _; tauto).
  all: try (intros _; eauto; fail).
  all: intros [[? ?]|[[? ?]|[? ?]]]; simplify_eq; eauto.
Qed.

Lemma make_entry_invalid (X : externals) (pkgs : requested) (repo : repository)
    (a : make_args) (c : staging) (name path ver : string)
    (current : metadata) (mk msg : string) (w : world) :
  pkgs_get pkgs name = Some ver -> repo_get repo name ver = Ret current ->
  fields current !! "make" = Some mk -> validate current mk = Some msg ->
  make_entry X pkgs repo a c name path w = (Raise (ValueError msg), w).
Proof.
  intros Hv Hc Hmk Hval. unfold make_entry, pkgs_item, field_item. run_prog.
  by rewrite Hv, Hc, Hmk, Hval.
Qed.

Lemma dispatch_unknown (X : externals) (a : make_args) (c : staging)
    (current : metadata) (mk name ver pkgpath makeopts : string) (w : world) :
  mk ∉ build_methods ->
  dispatch X a c current mk name ver pkgpath makeopts w
  = (Raise (ValueError ("Non-supported make: " +:+ mk)), w).
Proof.
  unfold build_methods. rewrite !not_elem_of_cons.
  intros (? & ? & ? & ? & ? & ? & ? & _).
  unfold dispatch. run_prog. by rewrite !decide_False by done.
Qed.

Lemma make_entry_misconfigured (X : externals) (pkgs : requested)
    (repo : repository) (a : make_args) (c : staging) (name path ver : string)
    (current : metadata) (mk : string) (w : world) :
  pkgs_get pkgs name = Some ver -> repo_get repo name ver = Ret current ->
  fields current !! "make" = Some mk -> misconfigured current mk ->
  exists msg, make_entry X pkgs repo a c name path w = (Raise (ValueError msg), w).
Proof.
  intros Hv Hc Hmk [[msg Hval]|Hunknown].
  - exists msg. by eapply make_entry_invalid.
  - destruct (validate current mk) as [msg|] eqn:Hval.
    + exists msg. by eapply make_entry_invalid.
    + eexists. unfold make_entry, pkgs_item, field_item. run_prog.
      rewrite Hv, Hc, Hmk, Hval. by apply dispatch_unknown.
Qed.

Lemma make_loop_app (X : externals) (pkgs : requested) (repo : repository)
    (a : make_args) (c : staging) (l1 l2 : list (string * string)) (w : world) :
  make_loop X pkgs repo a c (l1 ++ l2) w
  = match make_loop X pkgs repo a c l1 w with
    | (Ret _, w1) => make_loop X pkgs repo a c l2 w1
    | (Raise e, w1) => (Raise e, w1)
    end.
Proof.
  revert w. induction l1 as [|[name path] l1 IH]; intros w; simpl; [done|].
  unfold pbind. destruct (make_entry X pkgs repo a c name path w) as [[[]|e] w1];
    [apply IH|done].
Qed.

(** By the time [prepare] returns, [mkdir -p] has run on the staging
    directory, and nothing else has happened outside the process. *)
Lemma prepare_trace (X : externals) (pkgs : requested) (a : make_args)
    (plan : list string) (w w0 : world) (ce : staging * list (string * string)) :
  prepare X pkgs a plan w = (Ret ce, w0) ->
  trace w0 = trace w ++ [Shell ["mkdir -p"; fakeroot a +:+ prefix a]] /\
  files w0 = files w.
Proof.
  unfold prepare. run_prog.
  destruct (shell_run X _ _); simpl; [|discriminate].
  rewrite !lookup_insert_ne by done.
  destruct (environ w !! "PATH"); simpl; [|discriminate].
  destruct (pkgpaths_of pkgs plan); simpl; [|discriminate].
  by intros [= _ <-].
Qed.

(** C8.  For every plan entry the orchestrator processes: if its metadata
    declares one of [url], [destination], [hash] and its build method is not
    [download], or its build method is [download] and one of the three is
    missing, or it declares [pypi_package_name] and its build method is not
    [pip], then the loop body raises [ValueError] and leaves the world as it
    found it: no strategy is invoked for that entry. *)
Theorem make_entry_rejects_inconsistent_fields (X : externals)
    (pkgs : requested) (repo : repository) (a : make_args) (c : staging)
    (name path ver : string) (current : metadata) (mk : string) (w : world) :
  pkgs_get pkgs name = Some ver -> repo_get repo name ver = Ret current ->
  fields current !! "make" = Some mk ->
  ((exists key, key ∈ download_keys /\ is_Some (fields current !! key))
     /\ mk <> "download") \/
  ((exists key, key ∈ download_keys /\ fields current !! key = None)
     /\ mk = "download") \/
  (is_Some (fields current !! "pypi_package_name") /\ mk <> "pip") ->
  exists msg,
    make_entry X pkgs repo a c name path w = (Raise (ValueError msg), w).
Proof.
  intros Hv Hc Hmk Hbad. apply validate_Some in Hbad as [msg Hval].
  exists msg. by eapply make_entry_invalid.
Qed.

Lemma make_entry_rejects_inconsistent_fields_witness :
  pkgs_get mixed_pkgs "b" = Some "1" /\
  (exists current,
     repo_get mixed_repo "b" "1" = Ret current /\
     fields current !! "make" = Some "pip" /\
     fields current !! "url" = Some "https://example.org/b") /\
  make_entry working_tools mixed_pkgs mixed_repo mixed_args mixed_staging
             "b" "/dl/b-1" plain_world
  = (Raise (ValueError "url, destination, hash only valid with 'make: download'"),
     plain_world).
Proof.
  split; [reflexivity|]. split.
  { eexists. split; [reflexivity|]. split; reflexivity. }
  destruct (make_entry_rejects_inconsistent_fields working_tools mixed_pkgs
              mixed_repo mixed_args mixed_staging "b" "/dl/b-1" "1"
              (Metadata None {[ "make" := "pip"; "maintainer" := "scout";
                                "url" := "https://example.org/b" ]})
              "pip" plain_world) as [msg Hmsg].
  - reflexivity.
  - reflexivity.
  - reflexivity.
  - left. split; [|discriminate]. exists "url". split; [left|].
    exists "https://example.org/b". reflexivity.
  - rewrite Hmsg. vm_compute in Hmsg. injection Hmsg as <-. reflexivity.
Defined.

(** ** The trace only grows *)

Create HintDb appends.

Lemma appends_pret {A} (a : A) : appends (pret a).
Proof. intros w. exists []. simpl. by rewrite app_nil_r. Qed.

Lemma appends_praise {A} (e : exn) : appends (@praise A e).
Proof. intros w. exists []. simpl. by rewrite app_nil_r. Qed.

Lemma appends_lift {A} (o : outcome A) : appends (lift o).
Proof. intros w. exists []. simpl. by rewrite app_nil_r. Qed.

Lemma appends_bind {A B} (c : prog A) (k : A -> prog B) :
  appends c -> (forall x, appends (k x)) -> appends (pbind c k).
Proof.
  intros Hc Hk w. unfold pbind. destruct (Hc w) as [ev1 H1].
  destruct (c w) as [[x|e] w1]; simpl in *.
  - destruct (Hk x w1) as [ev2 H2]. exists (ev1 ++ ev2).
    by rewrite H2, H1, <- app_assoc.
  - by exists ev1.
Qed.

Lemma appends_log (e : event) : appends (log e).
Proof. intros w. by exists [e]. Qed.

Lemma appends_setenv (name : string) (value : option string) :
  appends (setenv name value).
Proof. intros w. exists []. unfold setenv. destruct value; simpl; by rewrite app_nil_r. Qed.

Lemma appends_getenv_item (name : string) : appends (getenv_item name).
Proof.
  intros w. exists []. unfold getenv_item.
  destruct (environ w !! name); simpl; by rewrite app_nil_r.
Qed.

Lemma appends_getenv (name : string) : appends (getenv name).
Proof. intros w. exists []. simpl. by rewrite app_nil_r. Qed.

Lemma appends_delenv (name : string) : appends (delenv name).
Proof.
  intros w. exists []. unfold delenv.
  destruct (environ w !! name); simpl; by rewrite app_nil_r.
Qed.

Lemma appends_shell (X : externals) (cmd : list string) : appends (shell X cmd).
Proof.
  intros w. exists [Shell cmd]. unfold shell. by destruct (shell_run X _ _).
Qed.

Lemma appends_not_none {A} (e : exn) (o : option A) : appends (not_none e o).
Proof. destruct o; [apply appends_pret|apply appends_praise]. Qed.

Lemma appends_chmod_executable (dest : list string) : appends (chmod_executable dest).
Proof.
  intros w. unfold chmod_executable. destruct (files w !! dest); simpl.
  - eauto.
  - exists []. by rewrite app_nil_r.
Qed.

#[local] Hint Resolve appends_pret appends_praise appends_lift appends_log
  appends_setenv appends_getenv_item appends_getenv appends_delenv
  appends_shell appends_not_none appends_chmod_executable : appends.

(** Splits a sequence, a conditional or a match into its parts. *)
Ltac appends_step :=
  first
    [ solve [auto with appends]
    | apply appends_bind; [|intros ?]
    | match goal with
      | |- appends (if ?b then _ else _) => destruct b
      | |- appends (match ?x with _ => _ end) => destruct x
      end ].

Lemma appends_print (line : string) : appends (print line).
Proof. apply appends_log. Qed.

Lemma appends_pushd {A} (path : string) (body : prog A) :
  appends body -> appends (pushd path body).
Proof. intros Hbody. unfold pushd. repeat appends_step. Qed.

Lemma appends_mkdir_parents (X : externals) (path : string) :
  appends (mkdir_parents X path).
Proof. unfold mkdir_parents. repeat appends_step. Qed.

Lemma appends_open_wb (X : externals) (dest : list string) : appends (open_wb X dest).
Proof.
  unfold open_wb. apply appends_bind; [apply appends_log|]. intros _ w.
  exists []. destruct (open_ok X dest); simpl; by rewrite app_nil_r.
Qed.

Lemma appends_file_write (dest : list string) (chunk : list byte) :
  appends (file_write dest chunk).
Proof.
  unfold file_write. apply appends_bind; [apply appends_log|]. intros _ w.
  exists []. simpl. by rewrite app_nil_r.
Qed.

Lemma appends_write_chunks (dest : list string) (body : list (list byte)) :
  forall hashed, appends (write_chunks dest body hashed).
Proof.
  induction body as [|chunk rest IH]; intros hashed; simpl.
  - apply appends_pret.
  - apply appends_bind; [apply appends_file_write|]. intros _. apply IH.
Qed.

Lemma appends_session_get (X : externals) (url : string) : appends (session_get X url).
Proof. unfold session_get. repeat appends_step. Qed.

#[local] Hint Resolve appends_print appends_pushd appends_mkdir_parents
  appends_open_wb appends_file_write appends_write_chunks appends_session_get
  : appends.

Lemma appends_rpm (X : externals) (package_name ver pkgpath prefix : string) :
  appends (rpm X package_name ver pkgpath prefix).
Proof. unfold rpm. apply appends_pushd. repeat appends_step. Qed.

Lemma appends_cmake (X : externals) (package_name ver pkgpath prefix : string)
    (builddir : option string) (makeopts : string) (jobs : nat)
    (fakeroot : string) (ld_lib_path bin_path : option string)
    (cmake_exe : string) :
  appends (cmake X package_name ver pkgpath prefix builddir makeopts jobs
                 fakeroot ld_lib_path bin_path cmake_exe).
Proof.
  unfold cmake. apply appends_bind; [auto with appends|]. intros _.
  apply appends_pushd. repeat appends_step.
Qed.

Lemma appends_sh (X : externals) (package_name ver pkgpath : string)
    (data : gmap string string) (prefix : string) (makefile : option string)
    (fakeroot pythonpath bin_path pip : string) (virtualenv : option string)
    (ld_lib_path : string) (jobs : nat) (cmake_exe makeopts : string) :
  appends (sh X package_name ver pkgpath data prefix makefile fakeroot
              pythonpath bin_path pip virtualenv ld_lib_path jobs cmake_exe
              makeopts).
Proof. unfold sh. apply appends_pushd. repeat appends_step. Qed.

Lemma appends_rsync (X : externals)
    (package_name ver pkgpath prefix fakeroot makeopts : string) :
  appends (rsync X package_name ver pkgpath prefix fakeroot makeopts).
Proof. unfold rsync. repeat appends_step. Qed.

Lemma appends_pip_install (X : externals) (package_name ver prefix : string)
    (dlprefix : option string) (fakeroot pip makeopts : string) :
  appends (pip_install X package_name ver prefix dlprefix fakeroot pip makeopts).
Proof. unfold pip_install. repeat appends_step. Qed.

Lemma appends_noop (package_name ver : string) : appends (noop package_name ver).
Proof. unfold noop. auto with appends. Qed.

Lemma appends_download (X : externals) (package_name ver prefix : string)
    (url hash_str : option string) (fakeroot : string)
    (destination : option string) :
  appends (download X package_name ver prefix url hash_str fakeroot destination).
Proof. unfold download. repeat appends_step. Qed.

#[local] Hint Resolve appends_rpm appends_cmake appends_sh appends_rsync
  appends_pip_install appends_noop appends_download : appends.

Lemma appends_dispatch (X : externals) (a : make_args) (c : staging)
    (current : metadata) (mk name ver pkgpath makeopts : string) :
  appends (dispatch X a c current mk name ver pkgpath makeopts).
Proof. unfold dispatch. repeat appends_step. Qed.

#[local] Hint Resolve appends_dispatch : appends.

Lemma appends_make_entry (X : externals) (pkgs : requested) (repo : repository)
    (a : make_args) (c : staging) (name path : string) :
  appends (make_entry X pkgs repo a c name path).
Proof.
  unfold make_entry. repeat appends_step.
Qed.

Lemma appends_make_loop (X : externals) (pkgs : requested) (repo : repository)
    (a : make_args) (c : staging) (entries : list (string * string)) :
  appends (make_loop X pkgs repo a c entries).
Proof.
  induction entries as [|[name path] rest IH]; simpl.
  - apply appends_pret.
  - apply appends_bind; [apply appends_make_entry|]. intros _. apply IH.
Qed.

(** C4, as the code has it.  In every orchestration run, the configuration
    error of a plan entry (download-only fields without the download method,
    the download method without all of them, the alternate-name field without
    pip, a build method the chain does not know) is detected when the loop
    reaches that entry and before any strategy is dispatched for it: the run
    ends with [ValueError] in exactly the state left by the entries before
    it.  By then the staging directory has been created ([mkdir -p] is the
    first thing the run does outside the process) and the strategies of the
    earlier entries have run. *)
Theorem make_rejects_entry_in_turn (X : externals) (fuel : nat)
    (pkgs : requested) (repo : repository) (a : make_args) (w w0 w1 : world)
    (plan : list string) (c : staging) (earlier rest : list (string * string))
    (name path ver : string) (current : metadata) (mk : string) :
  build_order fuel pkgs repo = Some (Ret plan) ->
  prepare X pkgs a plan w = (Ret (c, earlier ++ (name, path) :: rest), w0) ->
  make_loop X pkgs repo a c earlier w0 = (Ret tt, w1) ->
  pkgs_get pkgs name = Some ver -> repo_get repo name ver = Ret current ->
  fields current !! "make" = Some mk ->
  misconfigured current mk ->
  exists msg events,
    make X fuel pkgs repo a w = Some (Raise (ValueError msg), w1) /\
    trace w1 = trace w ++ Shell ["mkdir -p"; fakeroot a +:+ prefix a] :: events.
Proof.
  intros Hplan Hprep Hearlier Hv Hc Hmk Hbad.
  destruct (make_entry_misconfigured X pkgs repo a c name path ver current mk w1
              Hv Hc Hmk Hbad) as [msg Hmsg].
  destruct (appends_make_loop X pkgs repo a c earlier w0) as [events Hevents].
  rewrite Hearlier in Hevents. simpl in Hevents.
  apply prepare_trace in Hprep as Htrace. destruct Htrace as [Htrace _].
  exists msg, events. split.
  - unfold make. rewrite Hplan. unfold pbind at 1. rewrite Hprep. simpl.
    rewrite make_loop_app, Hearlier. simpl. unfold pbind. by rewrite Hmsg.
  - by rewrite Hevents, Htrace, <- app_assoc.
Qed.

Lemma make_rejects_entry_in_turn_witness :
  build_order 3 mixed_pkgs mixed_repo = Some (Ret ["a"; "b"]) /\
  misconfigured (Metadata None {[ "make" := "pip"; "maintainer" := "scout";
                                  "url" := "https://example.org/b" ]}) "pip" /\
  exists msg w1 events,
    make working_tools 3 mixed_pkgs mixed_repo mixed_args plain_world
    = Some (Raise (ValueError msg), w1) /\
    trace w1 = trace plain_world ++ Shell ["mkdir -p"; "/stage/prefix"] :: events.
Proof.
  split; [vm_compute; reflexivity|]. split; [left; vm_compute; eauto|].
  set (w0 := (prepare working_tools mixed_pkgs mixed_args ["a"; "b"] plain_world).2).
  set (w1 := (make_loop working_tools mixed_pkgs mixed_repo mixed_args mixed_staging
                        [("a", "/dl/a-1")] w0).2).
  destruct (make_rejects_entry_in_turn working_tools 3 mixed_pkgs mixed_repo
              mixed_args plain_world w0 w1 ["a"; "b"] mixed_staging
              [("a", "/dl/a-1")] [] "b" "/dl/b-1" "1"
              (Metadata None {[ "make" := "pip"; "maintainer" := "scout";
                                "url" := "https://example.org/b" ]}) "pip")
    as (msg & events & Hrun & Htrace).
  - vm_compute. reflexivity.
  - vm_compute. reflexivity.
  - vm_compute. reflexivity.
  - reflexivity.
  - reflexivity.
  - reflexivity.
  - left. vm_compute. eauto.
  - exists msg, w1, events. split; [exact Hrun|exact Htrace].
Defined.

(** C4 as stated fails: the second entry of the plan is misconfigured, and
    by the time it is rejected the staging directory has been created and
    the first entry has been installed with rsync. *)
Lemma make_rejects_after_side_effects :
  exists w1,
    build_order 3 mixed_pkgs mixed_repo = Some (Ret ["a"; "b"]) /\
    make working_tools 3 mixed_pkgs mixed_repo mixed_args plain_world
    = Some (Raise (ValueError
                     "url, destination, hash only valid with 'make: download'"),
            w1) /\
    trace w1 = [ Shell ["mkdir -p"; "/stage/prefix"];
                 Stdout "Installing a (1) with rsync";
                 Shell ["rsync -am"; ""; "/dl/a-1/"; "/stage/prefix"] ].
Proof.
  eexists. split; [vm_compute; reflexivity|].
  split; [vm_compute; reflexivity|]. reflexivity.
Qed.

(** ** Two more facts about the code as written *)

(** After a normal return of the compile strategy [LD_LIBRARY_PATH] is not
    in the environment, whatever it held before: the code deletes it. *)
Lemma cmake_unsets_ld_library_path (X : externals)
    (package_name ver pkgpath prefix : string) (builddir : option string)
    (makeopts : string) (jobs : nat) (fakeroot : string)
    (ld_lib_path bin_path : option string) (cmake_exe : string) (w : world) :
  let run := cmake X package_name ver pkgpath prefix builddir makeopts jobs
                   fakeroot ld_lib_path bin_path cmake_exe w in
  run.1 = Ret tt -> environ run.2 !! "LD_LIBRARY_PATH" = None.
Proof.
  unfold cmake. run_prog.
  destruct (mkdir_ok X _); simpl; [|discriminate].
  destruct ld_lib_path as [ld|]; simpl; [|discriminate].
  rewrite lookup_insert_ne by done.
  destruct (environ w !! "PATH") as [pre|]; simpl; [|discriminate].
  destruct bin_path as [bin|]; simpl; [|discriminate].
  destruct (shell_run X _ _); simpl; [|discriminate].
  destruct (shell_run X _ _); simpl; [|discriminate].
  destruct (shell_run X _ _); simpl; [|discriminate].
  rewrite lookup_insert_ne by done. rewrite lookup_insert_eq. simpl.
  intros _. by simplify_map_eq.
Qed.

(** An entry built with [rpm] never completes: after the [rpm] strategy the
    chain of tests that follows ends in its [else]. *)
Lemma dispatch_rpm_never_returns (X : externals) (a : make_args) (c : staging)
    (current : metadata) (name ver pkgpath makeopts : string) (w : world) :
  (dispatch X a c current "rpm" name ver pkgpath makeopts w).1
  = Raise (ValueError "Non-supported make: rpm") \/
  exists cmd,
    (dispatch X a c current "rpm" name ver pkgpath makeopts w).1
    = Raise (CalledProcessError cmd).
Proof.
  unfold dispatch, rpm. run_prog.
  destruct (shell_run X _ _); simpl; [|eauto].
  destruct (shell_run X _ _); simpl; [|eauto].
  destruct (shell_run X _ _); simpl; [|eauto].
  by left.
Qed.

(** A failure of the resolution ends the run before anything is done
    outside the process: at most the error line has been printed. *)
Lemma make_resolution_failure (X : externals) (fuel : nat) (pkgs : requested)
    (repo : repository) (a : make_args) (w : world) (e : exn) :
  build_order fuel pkgs repo = Some (Raise e) ->
  exists w', make X fuel pkgs repo a w = Some (Raise e, w') /\
             environ w' = environ w /\ files w' = files w /\
             (trace w' = trace w \/ exists line, trace w' = trace w ++ [Stderr line]).
Proof.
  intros Hfail. unfold make. rewrite Hfail.
  destruct e; eexists; (split; [reflexivity|]); simpl; eauto.
Qed.

(** ** Further properties of the resolver *)

Lemma dfs_emits_only_dependencies (pkgs : requested) (repo : repository)
    (fuel : nat) : forall p v l,
  pkgs_get pkgs p = Some v -> dfs fuel p v pkgs repo = Some (Ret l) ->
  forall q, q ∈ l -> q = p \/ tc (dep pkgs repo) p q.
Proof.
  induction fuel as [|n IH]; intros p v l Hv; [discriminate|].
  rewrite dfs_unfold.
  destruct (repo_get repo p v) as [current|e] eqn:Hc; [|discriminate].
  destruct (depends current) as [deps|] eqn:Hd.
  - destruct (forallb (pkgs_contains pkgs) deps) eqn:Hall; [|discriminate].
    unfold cbind.
    destruct (cmap _ deps) as [[ds|e]|] eqn:Hm; [|discriminate..].
    intros [= <-] q. apply dfs_call_Ret in Hm.
    rewrite concat_app. simpl. rewrite elem_of_app, list_elem_of_singleton.
    intros [Hq|Hq]; [|by left]. right.
    apply elem_of_concat in Hq as (ld & Hld & Hq).
    apply list_elem_of_lookup in Hld as [i Hi].
    destruct (Forall2_lookup_r _ _ _ _ _ Hm Hi) as (d & Hdi & vd & Hvd & Hdl).
    assert (Hdep : dep pkgs repo p d).
    { eapply dep_intro; [done..|]. by eapply list_elem_of_lookup_2. }
    destruct (IH d vd ld Hvd Hdl q Hq) as [->|Htc].
    + by apply tc_once.
    + by eapply tc_l.
  - intros [= <-] q Hq. apply list_elem_of_singleton in Hq. by left.
Qed.

(** X1.  A call of [dfs] on a requested package that returns emits exactly
    the package itself and its transitive dependencies. *)
Theorem dfs_emits_dependencies (pkgs : requested) (repo : repository)
    (fuel : nat) (p v : string) (l : list string) :
  pkgs_get pkgs p = Some v -> dfs fuel p v pkgs repo = Some (Ret l) ->
  forall q, q ∈ l <-> q = p \/ tc (dep pkgs repo) p q.
Proof.
  intros Hv Hl q. split; [by apply (dfs_emits_only_dependencies pkgs repo fuel p v)|].
  destruct (dfs_Ret_inv pkgs repo fuel p v l Hv Hl) as ((l' & ->) & D & _).
  intros [->|Htc].
  - apply elem_of_app. right. left.
  - apply elem_of_app. left.
    by apply (deps_first_tc (dep pkgs repo) (l' ++ [p]) p q D Htc l' []).
Qed.

Lemma dfs_emits_dependencies_witness :
  pkgs_get diamond_pkgs "d" = Some "1" /\
  dfs 3 "d" "1" diamond_pkgs diamond_repo = Some (Ret ["a"; "b"; "a"; "c"; "d"]) /\
  tc (dep diamond_pkgs diamond_repo) "d" "a".
Proof.
  assert (Hrun : dfs 3 "d" "1" diamond_pkgs diamond_repo
                 = Some (Ret ["a"; "b"; "a"; "c"; "d"])) by (vm_compute; reflexivity).
  split; [reflexivity|]. split; [exact Hrun|].
  destruct (proj1 (dfs_emits_dependencies diamond_pkgs diamond_repo 3 "d" "1" _
                     eq_refl Hrun "a")) as [Heq|Htc].
  - left.
  - discriminate.
  - exact Htc.
Defined.

(** ** Further properties of the de-duplication loop *)

Lemma first_seen_sublist (l : list string) : first_seen l `sublist_of` l.
Proof.
  induction l as [|x l IH]; simpl; [constructor|].
  apply sublist_skip. etrans; [apply sublist_filter|done].
Qed.

Lemma first_seen_NoDup_id (l : list string) : NoDup l -> first_seen l = l.
Proof.
  induction 1 as [|x l Hx Hnd IH]; simpl; [done|].
  rewrite IH. f_equal. clear IH Hnd.
  induction l as [|y l IH]; [done|].
  apply not_elem_of_cons in Hx as [Hne Hx].
  rewrite filter_cons_True by done. by rewrite IH.
Qed.

(** X2.  Whatever the stream, the loop of [make] returns a duplicate-free
    subsequence of it with the same names, and running it again on its own
    result changes nothing. *)
Theorem dedup_loop_subsequence (stream : list string) :
  let pkgorder := dedup_loop ∅ [] stream in
  NoDup pkgorder /\
  pkgorder `sublist_of` stream /\
  (forall x, x ∈ pkgorder <-> x ∈ stream) /\
  dedup_loop ∅ [] pkgorder = pkgorder.
Proof.
  simpl. rewrite !dedup_loop_first_seen.
  split; [apply NoDup_first_seen|]. split; [apply first_seen_sublist|].
  split; [apply elem_of_first_seen|].
  apply first_seen_NoDup_id, NoDup_first_seen.
Qed.

Lemma dedup_loop_subsequence_witness :
  dedup_loop ∅ [] ["a"; "b"; "a"; "c"; "d"] = ["a"; "b"; "c"; "d"] /\
  dedup_loop ∅ [] ["a"; "b"; "a"; "c"; "d"] `sublist_of` ["a"; "b"; "a"; "c"; "d"].
Proof.
  split; [vm_compute; reflexivity|].
  by destruct (dedup_loop_subsequence ["a"; "b"; "a"; "c"; "d"]) as (_ & Hsub & _).
Defined.

(** ** Strings: cutting and joining *)

Lemma split_nonempty (sep : ascii) (s : string) : split sep s <> [].
Proof.
  destruct s as [|c s]; simpl; [done|].
  destruct (Ascii.eqb c sep); [done|]. by destruct (split sep s).
Qed.

Lemma split_cons_other (sep c : ascii) (s : string) :
  Ascii.eqb c sep = false ->
  exists w ws, split sep s = w :: ws /\ split sep (String c s) = String c w :: ws.
Proof.
  intros Hc. simpl. rewrite Hc.
  destruct (split sep s) as [|w ws] eqn:Hs; [by apply split_nonempty in Hs|eauto].
Qed.

Lemma split_no_sep (sep : ascii) (s : string) :
  contains_char sep s = false -> split sep s = [s].
Proof.
  induction s as [|c s IH]; simpl; [done|].
  intros H. apply orb_false_iff in H as [Hc Hs]. rewrite Hc, IH; done.
Qed.

Lemma split_app_sep (sep : ascii) (a b : string) :
  contains_char sep a = false ->
  split sep (a +:+ String sep b) = a :: split sep b.
Proof.
  induction a as [|c a IH]; intros H.
  - change (split sep (String sep b) = "" :: split sep b). simpl.
    by rewrite Ascii.eqb_refl.
  - simpl in H. apply orb_false_iff in H as [Hc Ha].
    change (split sep (String c (a +:+ String sep b)) = String c a :: split sep b).
    simpl. rewrite Hc, IH; done.
Qed.

(** Joining pieces free of the separator and cutting again gives the
    pieces back. *)
Lemma split_concat (sep : ascii) (l : list string) :
  l <> [] -> (forall x, x ∈ l -> contains_char sep x = false) ->
  split sep (String.concat (String sep "") l) = l.
Proof.
  induction l as [|x l IH]; intros Hne Hl; [done|].
  destruct l as [|y l].
  - simpl. apply split_no_sep. apply Hl. left.
  - change (String.concat (String sep "") (x :: y :: l))
      with (x +:+ String sep (String.concat (String sep "") (y :: l))).
    rewrite split_app_sep by (apply Hl; left).
    rewrite IH; [done|done|]. intros z Hz. apply Hl. by right.
Qed.

Lemma length_split (sep : ascii) (s : string) :
  length (split sep s) = S (count_char sep s).
Proof.
  induction s as [|c s IH]; simpl; [done|].
  destruct (Ascii.eqb c sep); simpl; [by rewrite IH|].
  destruct (split sep s) as [|w ws] eqn:Hs; [by apply split_nonempty in Hs|].
  simpl in *. done.
Qed.

(** ** Further properties of [pypaths] and [resolve] *)

(** X3.  For an interpreter version made of dot-free components, [pypaths]
    names the three library directories after [python] followed by the
    version without its last component: [3.8.6-builtin] gives [python3.8],
    a version without a dot gives plain [python]. *)
Theorem pypaths_drops_last_component (prefix : string) (components : list string)
    (last : string) :
  (forall x, x ∈ components ++ [last] -> contains_char "." x = false) ->
  let pyver := "python" +:+ String.concat "." components in
  pypaths prefix (Some (String.concat "." (components ++ [last])))
  = prefix +:+ "/lib/" +:+ pyver +:+ ":"
    +:+ prefix +:+ "/lib/" +:+ pyver +:+ "/site-packages" +:+ ":"
    +:+ prefix +:+ "/lib64/" +:+ pyver +:+ "/site-packages".
Proof.
  intros Hfree pyver. unfold pypaths.
  rewrite (split_concat "." (components ++ [last])); [|by destruct components|done].
  rewrite removelast_last. fold pyver.
  change (String.concat ":" [?a; ?b; ?c]) with (a +:+ ":" +:+ b +:+ ":" +:+ c).
  by rewrite !string_app_assoc.
Qed.

Lemma pypaths_drops_last_component_witness :
  pypaths "/stage/prefix" (Some "3.8.6-builtin")
  = "/stage/prefix/lib/python3.8:/stage/prefix/lib/python3.8/site-packages:/stage/prefix/lib64/python3.8/site-packages".
Proof.
  apply (pypaths_drops_last_component "/stage/prefix" ["3"; "8"] "6-builtin").
  intros x Hx. simpl in Hx. rewrite !elem_of_cons in Hx.
  destruct Hx as [->|[->|[->|Hx]]]; [reflexivity..|inversion Hx].
Defined.

Lemma replace_go_skip (old new s t : string) :
  replace_go old new (String.length s) (s +:+ t) = replace_go old new 0 t.
Proof.
  induction s as [|c s IH]; [done|].
  change (replace_go old new (S (String.length s)) (String c (s +:+ t))
          = replace_go old new 0 t).
  simpl. exact IH.
Qed.

Lemma prefix_app (old s : string) : String.prefix old (old +:+ s) = true.
Proof.
  induction old as [|c old IH]; [by destruct s|].
  change (String.prefix (String c old) (String c (old +:+ s)) = true).
  simpl. by destruct (ascii_dec c c).
Qed.

(** At an occurrence of a non-empty [old], [replace] puts [new] and goes on
    after the occurrence. *)
Lemma replace_go_match (c : ascii) (old new s : string) :
  replace_go (String c old) new 0 (String c old +:+ s)
  = new +:+ replace_go (String c old) new 0 s.
Proof.
  change (String c old +:+ s) with (String c (old +:+ s)).
  cbn [replace_go].
  change (String c (old +:+ s)) with (String c old +:+ s).
  rewrite prefix_app. f_equal.
  replace (String.length (String c old) - 1) with (String.length old)
    by (simpl; lia).
  apply replace_go_skip.
Qed.

(** Text without the first character of [old] is copied. *)
Lemma replace_go_copy (c : ascii) (old new a s : string) :
  contains_char c a = false ->
  replace_go (String c old) new 0 (a +:+ s)
  = a +:+ replace_go (String c old) new 0 s.
Proof.
  induction a as [|x a IH]; intros H; [done|].
  simpl in H. apply orb_false_iff in H as [Hx Ha].
  change (String x a +:+ s) with (String x (a +:+ s)).
  cbn [replace_go].
  assert (Hp : String.prefix (String c old) (String x (a +:+ s)) = false).
  { simpl. destruct (ascii_dec c x) as [->|_]; [|done].
    by rewrite Ascii.eqb_refl in Hx. }
  rewrite Hp, IH by done. done.
Qed.

Lemma replace_go_copy_end (c : ascii) (old new a : string) :
  contains_char c a = false -> replace_go (String c old) new 0 a = a.
Proof.
  intros H. induction a as [|x a IH]; [done|].
  simpl in H. apply orb_false_iff in H as [Hx Ha]. cbn [replace_go].
  assert (Hp : String.prefix (String c old) (String x a) = false).
  { simpl. destruct (ascii_dec c x) as [->|_]; [|done].
    by rewrite Ascii.eqb_refl in Hx. }
  by rewrite Hp, IH.
Qed.

(** X4.  [resolve] substitutes every occurrence of the placeholder: when the
    build options are pieces free of [$] joined by [$(prefix)], the result is
    the same pieces joined by the prefix; options without the placeholder
    (one piece) come back unchanged. *)
Theorem resolve_substitutes_placeholder (prefix : string) (pieces : list string) :
  (forall x, x ∈ pieces -> contains_char "$" x = false) ->
  resolve prefix (String.concat "$(prefix)" pieces) = String.concat prefix pieces.
Proof.
  unfold resolve, replace.
  induction pieces as [|a pieces IH]; intros Hfree; [done|].
  destruct pieces as [|b pieces].
  - simpl. apply replace_go_copy_end. apply Hfree. left.
  - change (String.concat "$(prefix)" (a :: b :: pieces))
      with (a +:+ "$(prefix)" +:+ String.concat "$(prefix)" (b :: pieces)).
    change (String.concat prefix (a :: b :: pieces))
      with (a +:+ prefix +:+ String.concat prefix (b :: pieces)).
    rewrite replace_go_copy by (apply Hfree; left).
    rewrite (replace_go_match "$" "(prefix)").
    rewrite IH; [done|]. intros x Hx. apply Hfree. by right.
Qed.

Lemma resolve_substitutes_placeholder_witness :
  resolve "/opt/komodo" "--with-boost=$(prefix) --libdir=$(prefix)/lib64"
  = "--with-boost=/opt/komodo --libdir=/opt/komodo/lib64".
Proof.
  apply (resolve_substitutes_placeholder "/opt/komodo"
           ["--with-boost="; " --libdir="; "/lib64"]).
  intros x Hx. rewrite !elem_of_cons in Hx.
  destruct Hx as [->|[->|[->|Hx]]]; [reflexivity..|inversion Hx].
Defined.

(** ** Further properties of the orchestrator *)

Lemma string_app_nil_r (a : string) : a +:+ "" = a.
Proof.
  induction a as [|c a IH]; [done|].
  change (String c (a +:+ "") = String c a). by rewrite IH.
Qed.

Lemma string_app_nil_inv (a b : string) : a +:+ b = "" -> b = "".
Proof. destruct a; [done|discriminate]. Qed.

Lemma os_path_join_nonempty (a b : string) : b <> "" -> os_path_join a b <> "".
Proof.
  intros Hb. unfold os_path_join.
  destruct (startswith "/" b); [done|].
  destruct (bool_decide (a = "") || endswith_char "/" a); intros H.
  - by apply string_app_nil_inv in H.
  - by apply string_app_nil_inv in H.
Qed.

Lemma pkgpaths_of_spec (pkgs : requested) (plan paths : list string) :
  pkgpaths_of pkgs plan = Ret paths ->
  Forall2 (fun name path => exists ver, pkgs_get pkgs name = Some ver /\
                                        path = name +:+ "-" +:+ ver) plan paths.
Proof.
  revert paths. induction plan as [|name plan IH]; intros paths; simpl.
  - intros [= <-]. constructor.
  - unfold pkgs_item. destruct (pkgs_get pkgs name) as [ver|] eqn:Hv; [|discriminate].
    destruct (pkgpaths_of pkgs plan) as [rest|e]; [|discriminate].
    intros [= <-]. constructor; eauto.
Qed.

Lemma Forall2_zip_elem {A B} (P : A -> B -> Prop) (l : list A) (k : list B) :
  Forall2 P l k -> forall x y, (x, y) ∈ zip l k -> P x y.
Proof.
  induction 1 as [|a b l k Hab _ IH]; intros x y Hin; simpl in Hin; [inversion Hin|].
  apply elem_of_cons in Hin as [[= -> ->]|Hin]; auto.
Qed.

(** X5.  When the preparation of a run succeeds, the process environment
    has gained exactly [DESTDIR] and [BOOST_ROOT]; the loop will visit the
    plan's packages in plan order, each with the source path
    [name-version] (under the download directory if given); the executable
    search path handed to the strategies is the staging [bin] directory
    followed by the prior [PATH]; and the library search path is the staging
    [lib] and [lib64] directories, followed by the prior [LD_LIBRARY_PATH]
    when that was set and not empty. *)
Theorem prepare_staging (X : externals) (pkgs : requested) (a : make_args)
    (plan : list string) (w w0 : world) (c : staging)
    (entries : list (string * string)) :
  prepare X pkgs a plan w = (Ret (c, entries), w0) ->
  let fakeprefix := fakeroot a +:+ prefix a in
  environ w0 = <["BOOST_ROOT" := fakeprefix]> (<["DESTDIR" := fakeroot a]> (environ w)) /\
  entries.*1 = plan /\
  (forall name path, (name, path) ∈ entries ->
     exists ver, pkgs_get pkgs name = Some ver /\ path = pkgpath_of a name ver) /\
  (exists path, environ w !! "PATH" = Some path /\
     bin_path c = os_path_join fakeprefix "bin" +:+ ":" +:+ path) /\
  ld_lib_path c
  = os_path_join fakeprefix "lib" +:+ ":" +:+ os_path_join fakeprefix "lib64"
    +:+ match environ w !! "LD_LIBRARY_PATH" with
        | Some ld => if decide (ld = "") then "" else ":" +:+ ld
        | None => ""
        end.
Proof.
  unfold prepare. run_prog.
  destruct (shell_run X _ _); simpl; [|discriminate].
  rewrite !lookup_insert_ne by done.
  destruct (environ w !! "PATH") as [path|] eqn:Hpath; simpl; [|discriminate].
  destruct (pkgpaths_of pkgs plan) as [paths|e] eqn:Hpaths; simpl; [|discriminate].
  intros [= <- <- <-]. simpl.
  apply pkgpaths_of_spec in Hpaths.
  assert (Hpaths' : Forall2 (fun name path => exists ver, pkgs_get pkgs name = Some ver /\
                                              path = pkgpath_of a name ver) plan
            match dlprefix a with
            | Some d => if decide (d = "") then paths else map (os_path_join d) paths
            | None => paths
            end).
  { unfold pkgpath_of. destruct (dlprefix a) as [d|]; [|done].
    destruct (decide (d = "")); [done|].
    apply Forall2_fmap_r. eapply Forall2_impl; [exact Hpaths|].
    intros name p (ver & Hv & ->). eauto. }
  split; [done|]. split; [|split; [|split]].
  - apply fst_zip. by rewrite (Forall2_length _ _ _ Hpaths').
  - by apply Forall2_zip_elem.
  - exists path. done.
  - unfold truthy. simpl.
    destruct (decide (os_path_join (fakeroot a +:+ prefix a) "lib" = "")) as [H|_];
      [by apply os_path_join_nonempty in H|].
    destruct (decide (os_path_join (fakeroot a +:+ prefix a) "lib64" = "")) as [H|_];
      [by apply os_path_join_nonempty in H|].
    destruct (environ w !! "LD_LIBRARY_PATH") as [ld|]; simpl.
    + destruct (decide (ld = "")); simpl; by rewrite ?string_app_nil_r.
    + by rewrite string_app_nil_r.
Qed.

(** X6.  A run started without [PATH] in the environment ends with
    [KeyError('PATH')] after the staging directory has been created and
    [DESTDIR] and [BOOST_ROOT] have been set: no package is touched. *)
Theorem make_without_path (X : externals) (fuel : nat) (pkgs : requested)
    (repo : repository) (a : make_args) (w : world) (plan : list string)
    (out : string) :
  build_order fuel pkgs repo = Some (Ret plan) ->
  shell_run X (trace w) ["mkdir -p"; fakeroot a +:+ prefix a] = Some out ->
  environ w !! "PATH" = None ->
  make X fuel pkgs repo a w
  = Some (Raise (KeyError "PATH"),
          World (<["BOOST_ROOT" := fakeroot a +:+ prefix a]>
                   (<["DESTDIR" := fakeroot a]> (environ w)))
                (files w)
                (trace w ++ [Shell ["mkdir -p"; fakeroot a +:+ prefix a]])).
Proof.
  intros Hplan Hmkdir Hpath. unfold make. rewrite Hplan. unfold prepare. run_prog.
  rewrite Hmkdir. simpl. rewrite !lookup_insert_ne by done. by rewrite Hpath.
Qed.

Lemma make_without_path_witness :
  build_order 3 mixed_pkgs mixed_repo = Some (Ret ["a"; "b"]) /\
  environ (World ∅ ∅ []) !! "PATH" = None /\
  make working_tools 3 mixed_pkgs mixed_repo mixed_args (World ∅ ∅ [])
  = Some (Raise (KeyError "PATH"),
          World {[ "BOOST_ROOT" := "/stage/prefix"; "DESTDIR" := "/stage" ]} ∅
                [Shell ["mkdir -p"; "/stage/prefix"]]).
Proof.
  split; [vm_compute; reflexivity|]. split; [reflexivity|].
  apply (make_without_path working_tools 3 mixed_pkgs mixed_repo mixed_args
           (World ∅ ∅ []) ["a"; "b"] ""); [vm_compute|..]; reflexivity.
Defined.

(** X7.  The loop stops at the first entry that fails: the run ends with
    that entry's error in the state that entry left, whatever follows it in
    the plan. *)
Theorem make_loop_stops_at_first_failure (X : externals) (pkgs : requested)
    (repo : repository) (a : make_args) (c : staging)
    (earlier rest : list (string * string)) (name path : string)
    (w w1 w2 : world) (e : exn) :
  make_loop X pkgs repo a c earlier w = (Ret tt, w1) ->
  make_entry X pkgs repo a c name path w1 = (Raise e, w2) ->
  make_loop X pkgs repo a c (earlier ++ (name, path) :: rest) w = (Raise e, w2).
Proof.
  intros Hearlier Hentry. rewrite make_loop_app, Hearlier. simpl.
  unfold pbind. by rewrite Hentry.
Qed.

Lemma prepare_staging_witness :
  prepare working_tools mixed_pkgs mixed_args ["a"; "b"] login_world
  = (Ret ({| abs_prefix := "/prefix";
             ld_lib_path := "/stage/prefix/lib:/stage/prefix/lib64:/opt/lib";
             extra_makeopts := None;
             build_pythonpath := "";
             bin_path := "/stage/prefix/bin:/usr/bin" |},
          [("a", "/dl/a-1"); ("b", "/dl/b-1")]),
     (prepare working_tools mixed_pkgs mixed_args ["a"; "b"] login_world).2) /\
  environ (prepare working_tools mixed_pkgs mixed_args ["a"; "b"] login_world).2
  = <["BOOST_ROOT" := "/stage/prefix"]>
      (<["DESTDIR" := "/stage"]> (environ login_world)).
Proof.
  assert (Hrun : prepare working_tools mixed_pkgs mixed_args ["a"; "b"] login_world
                 = (Ret ({| abs_prefix := "/prefix";
                            ld_lib_path := "/stage/prefix/lib:/stage/prefix/lib64:/opt/lib";
                            extra_makeopts := None;
                            build_pythonpath := "";
                            bin_path := "/stage/prefix/bin:/usr/bin" |},
                         [("a", "/dl/a-1"); ("b", "/dl/b-1")]),
                    (prepare working_tools mixed_pkgs mixed_args ["a"; "b"]
                             login_world).2))
    by (vm_compute; reflexivity).
  split; [exact Hrun|].
  exact (proj1 (prepare_staging _ _ _ _ _ _ _ _ Hrun)).
Defined.

Lemma make_loop_stops_at_first_failure_witness :
  make_loop working_tools mixed_pkgs mixed_repo mixed_args mixed_staging
            ([] ++ ("b", "/dl/b-1") :: [("a", "/dl/a-1")]) plain_world
  = (Raise (ValueError "url, destination, hash only valid with 'make: download'"),
     plain_world).
Proof.
  apply (make_loop_stops_at_first_failure working_tools mixed_pkgs mixed_repo
           mixed_args mixed_staging [] [("a", "/dl/a-1")] "b" "/dl/b-1"
           plain_world plain_world plain_world); vm_compute; reflexivity.
Defined.

(** X8.  A plan that holds a package built with [rpm] never runs to
    completion: after the archive has been unpacked the chain of tests falls
    into its last branch and raises, unless something failed before. *)
Theorem rpm_entry_never_completes (X : externals) (pkgs : requested)
    (repo : repository) (a : make_args) (c : staging)
    (entries : list (string * string)) (name path ver : string)
    (current : metadata) (w : world) :
  (name, path) ∈ entries ->
  pkgs_get pkgs name = Some ver -> repo_get repo name ver = Ret current ->
  fields current !! "make" = Some "rpm" ->
  (make_loop X pkgs repo a c entries w).1 <> Ret tt.
Proof.
  intros Hin Hv Hc Hmk.
  apply list_elem_of_split in Hin as (l1 & l2 & ->).
  rewrite make_loop_app.
  destruct (make_loop X pkgs repo a c l1 w) as [[[]|e] w1]; [|done].
  simpl. unfold pbind.
  assert (Hentry : (make_entry X pkgs repo a c name path w1).1 <> Ret tt).
  { unfold make_entry, pkgs_item, field_item. run_prog. rewrite Hv, Hc, Hmk.
    destruct (validate current "rpm"); [done|].
    match goal with
    | |- (dispatch ?X ?a ?c ?cur "rpm" ?n ?v ?pp ?mo ?w).1 <> _ =>
        destruct (dispatch_rpm_never_returns X a c cur n v pp mo w) as [H|[cmd H]];
        rewrite H; done
    end. }
  destruct (make_entry X pkgs repo a c name path w1) as [[[]|e] w2]; [done|done].
Qed.

Lemma rpm_entry_never_completes_witness :
  pkgs_get rpm_pkgs "boost" = Some "1.60" /\
  fields (meta "rpm" None) !! "make" = Some "rpm" /\
  (make_loop working_tools rpm_pkgs rpm_repo mixed_args mixed_staging
             [("boost", "/dl/boost-1.60")] plain_world).1 <> Ret tt /\
  shell_commands (trace (make_loop working_tools rpm_pkgs rpm_repo mixed_args
                                   mixed_staging [("boost", "/dl/boost-1.60")]
                                   plain_world).2)
  = [ ["rpm2cpio /dl/boost-1.60.rpm | cpio -imd --quiet"];
      ["rsync -a usr/* ."]; ["rm -rf usr"] ].
Proof.
  split; [reflexivity|]. split; [reflexivity|]. split.
  - apply (rpm_entry_never_completes working_tools rpm_pkgs rpm_repo mixed_args
             mixed_staging [("boost", "/dl/boost-1.60")] "boost" "/dl/boost-1.60"
             "1.60" (meta "rpm" None) plain_world); [left|reflexivity..].
  - vm_compute. reflexivity.
Defined.

Lemma validate_None (current : metadata) (mk : string) :
  (forall key, key ∈ download_keys -> fields current !! key = None) ->
  mk <> "download" -> fields current !! "pypi_package_name" = None \/ mk = "pip" ->
  validate current mk = None.
Proof.
  intros Hkeys Hmk Hpypi.
  destruct (validate current mk) as [msg|] eqn:Hval; [|done]. exfalso.
  assert (Hsome : is_Some (validate current mk)) by (rewrite Hval; eauto).
  apply validate_Some in Hsome as [[(key & Hin & Hk) _]|[[_ ?]|[Hp Hpip]]]; [|done|].
  - rewrite (Hkeys key Hin) in Hk. by destruct Hk.
  - destruct Hpypi as [Hnone|?]; [|done]. rewrite Hnone in Hp. by destruct Hp.
Qed.

(** What [noop] prints for a plan entry. *)
Lemma make_entry_noop (X : externals) (pkgs : requested) (repo : repository)
    (a : make_args) (c : staging) (name path ver : string) (current : metadata)
    (w : world) :
  pkgs_get pkgs name = Some ver -> repo_get repo name ver = Ret current ->
  fields current !! "make" = Some "noop" ->
  (forall key, key ∈ "pypi_package_name" :: download_keys ->
     fields current !! key = None) ->
  make_entry X pkgs repo a c name path w
  = (Ret tt, World (environ w) (files w)
                   (trace w ++ [Stdout ("Doing nothing for noop package " +:+ name
                                          +:+ " (" +:+ ver +:+ ")")])).
Proof.
  intros Hv Hc Hmk Hkeys.
  unfold make_entry, pkgs_item, field_item. run_prog. rewrite Hv, Hc, Hmk.
  rewrite validate_None; [|intros key Hk; apply Hkeys; by right|done|left; apply Hkeys; left].
  rewrite (Hkeys "pypi_package_name") by left. simpl.
  unfold dispatch, noop. run_prog. done.
Qed.

(** X9.  A plan made of virtual packages only (build method [noop], none of
    the download fields, no alternate name) runs to completion without any
    external command: the environment and the files are as before, and one
    line per package has been printed, in plan order. *)
Theorem noop_plan_only_prints (X : externals) (pkgs : requested)
    (repo : repository) (a : make_args) (c : staging)
    (entries : list (string * string)) (w : world) :
  Forall (fun entry =>
            exists ver current,
              pkgs_get pkgs entry.1 = Some ver /\
              repo_get repo entry.1 ver = Ret current /\
              fields current !! "make" = Some "noop" /\
              forall key, key ∈ "pypi_package_name" :: download_keys ->
                          fields current !! key = None) entries ->
  make_loop X pkgs repo a c entries w
  = (Ret tt,
     World (environ w) (files w)
           (trace w ++
              map (fun entry =>
                     Stdout ("Doing nothing for noop package " +:+ entry.1 +:+ " ("
                               +:+ default "" (pkgs_get pkgs entry.1) +:+ ")"))
                  entries)).
Proof.
  intros Hall. revert w.
  induction Hall as [|[name path] entries (ver & current & Hv & Hc & Hmk & Hkeys) _ IH];
    intros w; simpl.
  - unfold pret. destruct w. simpl. by rewrite app_nil_r.
  - unfold pbind. simpl in *.
    rewrite (make_entry_noop X pkgs repo a c name path ver current w Hv Hc Hmk Hkeys).
    rewrite IH. simpl. rewrite Hv. simpl. by rewrite <- app_assoc.
Qed.

Lemma noop_plan_only_prints_witness :
  make_loop working_tools virtual_pkgs virtual_repo mixed_args mixed_staging
            [("base", "/dl/base-1"); ("extras", "/dl/extras-2")] plain_world
  = (Ret tt,
     World (environ plain_world) (files plain_world)
           [ Stdout "Doing nothing for noop package base (1)";
             Stdout "Doing nothing for noop package extras (2)" ]).
Proof.
  apply (noop_plan_only_prints working_tools virtual_pkgs virtual_repo mixed_args
           mixed_staging [("base", "/dl/base-1"); ("extras", "/dl/extras-2")]
           plain_world).
  apply Forall_cons. split; [|apply Forall_cons; split; [|apply Forall_nil; done]].
  - exists "1", (meta "noop" None).
    split; [reflexivity|]. split; [reflexivity|]. split; [reflexivity|].
    intros key Hk. unfold download_keys in Hk. rewrite !elem_of_cons in Hk.
    destruct Hk as [->|[->|[->|[->|Hk]]]]; [reflexivity..|inversion Hk].
  - exists "2", (meta "noop" (Some ["base"])).
    split; [reflexivity|]. split; [reflexivity|]. split; [reflexivity|].
    intros key Hk. unfold download_keys in Hk. rewrite !elem_of_cons in Hk.
    destruct Hk as [->|[->|[->|[->|Hk]]]]; [reflexivity..|inversion Hk].
Defined.

(** X10.  For an entry built with [pip] that declares none of the download
    fields, the package name handed to pip is the alternate name
    [pypi_package_name] when the metadata has one, and the entry's own name
    otherwise: the one command of the entry starts with [pip] and
    [install <that name>==<version>]. *)
Theorem pip_entry_installs_alternate_name (X : externals) (pkgs : requested)
    (repo : repository) (a : make_args) (c : staging)
    (name path ver : string) (current : metadata) (w : world) :
  pkgs_get pkgs name = Some ver -> repo_get repo name ver = Ret current ->
  fields current !! "make" = Some "pip" ->
  (forall key, key ∈ download_keys -> fields current !! key = None) ->
  let installed := default name (fields current !! "pypi_package_name") in
  exists version rest,
    trace (make_entry X pkgs repo a c name path w).2
    = trace w ++ [ Stdout (installing installed version "from pip");
                   Shell (pip a :: ("install " +:+ installed +:+ "=="
                                      +:+ strip_version X version) :: rest) ].
Proof.
  intros Hv Hc Hmk Hkeys installed.
  unfold make_entry, pkgs_item, field_item. run_prog. rewrite Hv, Hc, Hmk.
  rewrite validate_None; [|done|done|by right].
  unfold dispatch, pip_install. run_prog.
  fold installed.
  destruct (shell_run X _ _); simpl; eexists _, _; by rewrite <- app_assoc.
Qed.

Lemma pip_entry_installs_alternate_name_witness :
  pkgs_get alias_pkgs "yaml" = Some "6.0" /\
  shell_commands (trace (make_entry working_tools alias_pkgs alias_repo mixed_args
                                    mixed_staging "yaml" "/dl/yaml-6.0"
                                    plain_world).2)
  = [ [ "pip"; "install PyYAML==6.0"; "--root /stage"; "--prefix /prefix";
        "--no-index"; "--no-deps"; "--ignore-installed"; "--cache-dir /dl";
        "--find-links /dl"; "" ] ].
Proof.
  split; [reflexivity|].
  destruct (pip_entry_installs_alternate_name working_tools alias_pkgs alias_repo
              mixed_args mixed_staging "yaml" "/dl/yaml-6.0" "6.0"
              (Metadata None {[ "make" := "pip"; "maintainer" := "scout";
                                "pypi_package_name" := "PyYAML" ]}) plain_world)
    as (version & rest & Htrace).
  - reflexivity.
  - reflexivity.
  - reflexivity.
  - intros key Hk. unfold download_keys in Hk. rewrite !elem_of_cons in Hk.
    destruct Hk as [->|[->|[->|Hk]]]; [reflexivity..|inversion Hk].
  - vm_compute. reflexivity.
Defined.

(** ** Further properties of the strategies *)

(** X11.  The compile strategy hands at most three commands to the shell, in
    the order configure, build, install, each only after the one before it
    succeeded; it hands none unless [ld_lib_path] and [bin_path] are given
    (their default [None] raises [TypeError]) and [PATH] is set; and when it
    returns normally it has run all three. *)
Theorem cmake_commands (X : externals)
    (package_name ver pkgpath prefix : string) (builddir : option string)
    (makeopts : string) (jobs : nat) (fakeroot : string)
    (ld_lib_path bin_path : option string) (cmake_exe : string) (w : world) :
  let run := cmake X package_name ver pkgpath prefix builddir makeopts jobs
                   fakeroot ld_lib_path bin_path cmake_exe w in
  let all := [ [cmake_exe; pkgpath] ++ cmake_flags prefix fakeroot ++ [makeopts];
               ["make -j" +:+ pretty jobs];
               ["make DESTDIR=" +:+ fakeroot +:+ " install"] ] in
  exists events,
    trace run.2 = trace w ++ events /\
    shell_commands events `prefix_of` all /\
    (shell_commands events <> [] ->
       is_Some ld_lib_path /\ is_Some bin_path /\ is_Some (environ w !! "PATH")) /\
    (run.1 = Ret tt -> shell_commands events = all).
Proof.
  unfold cmake. run_prog.
  destruct (mkdir_ok X _); simpl;
    [|eexists; split; [reflexivity|]; simpl;
      split; [apply prefix_nil|]; split; [done|discriminate]].
  destruct ld_lib_path as [ld|]; simpl.
  2:{ eexists. rewrite <- app_assoc. split; [reflexivity|]. simpl.
      split; [apply prefix_nil|]. split; [done|discriminate]. }
  rewrite lookup_insert_ne by done.
  destruct (environ w !! "PATH") as [pre|] eqn:Hpath; simpl.
  2:{ eexists. rewrite <- app_assoc. split; [reflexivity|]. simpl.
      split; [apply prefix_nil|]. split; [done|discriminate]. }
  destruct bin_path as [bin|]; simpl.
  2:{ eexists. rewrite <- app_assoc. split; [reflexivity|]. simpl.
      split; [apply prefix_nil|]. split; [done|discriminate]. }
  destruct (shell_run X _ _) as [out1|]; simpl.
  2:{ eexists. rewrite <- !app_assoc. split; [reflexivity|]. simpl.
      split; [by eexists|]. split; [eauto|discriminate]. }
  destruct (shell_run X _ _) as [out2|]; simpl.
  2:{ eexists. rewrite <- !app_assoc. split; [reflexivity|]. simpl.
      split; [by eexists|]. split; [eauto|discriminate]. }
  destruct (shell_run X _ _) as [out3|]; simpl.
  2:{ eexists. rewrite <- !app_assoc. split; [reflexivity|]. simpl.
      split; [by eexists|]. split; [eauto|discriminate]. }
  rewrite lookup_insert_ne by done. rewrite lookup_insert_eq. simpl.
  eexists. rewrite <- !app_assoc. split; [reflexivity|]. simpl.
  split; [done|]. split; [eauto|done].
Qed.

Lemma cmake_commands_witness :
  let run := cmake working_tools "opm" "2024.04" "/src/opm-2024.04" "/prefix"
                   None "" 4 "/stage" (Some "/stage/prefix/lib")
                   (Some "/stage/prefix/bin:/usr/bin") "cmake" plain_world in
  run.1 = Ret tt /\
  shell_commands (trace run.2)
  = [ ["cmake"; "/src/opm-2024.04"] ++ cmake_flags "/prefix" "/stage" ++ [""];
      ["make -j4"]; ["make DESTDIR=/stage install"] ].
Proof.
  destruct (cmake_commands working_tools "opm" "2024.04" "/src/opm-2024.04"
              "/prefix" None "" 4 "/stage" (Some "/stage/prefix/lib")
              (Some "/stage/prefix/bin:/usr/bin") "cmake" plain_world)
    as (events & Htrace & _ & _ & Hall).
  assert (Hrun : (cmake working_tools "opm" "2024.04" "/src/opm-2024.04" "/prefix"
                    None "" 4 "/stage" (Some "/stage/prefix/lib")
                    (Some "/stage/prefix/bin:/usr/bin") "cmake" plain_world).1
                 = Ret tt) by (vm_compute; reflexivity).
  split; [exact Hrun|].
  rewrite Htrace. simpl. rewrite (Hall Hrun). vm_compute. reflexivity.
Defined.

(** ** What the verified-download strategy leaves alone *)

Lemma write_chunks_frame (dest : list string) (body : list (list byte)) :
  forall hashed w,
    let run := write_chunks dest body hashed w in
    environ run.2 = environ w /\
    forall p, p <> dest -> files run.2 !! p = files w !! p.
Proof.
  induction body as [|chunk rest IH]; intros hashed w; simpl; [done|].
  unfold file_write, log, pbind. simpl.
  destruct (IH (hashed ++ chunk)
              (World (environ w)
                 (alter (fun f => File (st_mode f) (content f ++ chunk)) dest (files w))
                 (trace w ++ [WriteChunk dest chunk]))) as [Henv Hfiles].
  simpl in *. split; [done|].
  intros p Hp. rewrite (Hfiles p Hp). by rewrite lookup_alter_ne.
Qed.



(** X13.  A request that passes the two guards but is not answered, or is
    answered with any status other than 200 (another 2xx status included),
    fails before the destination is opened: the strategy raises, with the
    URL and the status in the message of the [RuntimeError], and the files
    are as before. *)
Theorem download_refused (X : externals) (package_name ver prefix : string)
    (u h hash_value fakeroot dst : string) (w : world) :
  startswith "https" u = true -> split ":" h = ["sha256"; hash_value] ->
  let run := download X package_name ver prefix (Some u) (Some h) fakeroot
                      (Some dst) w in
  let asked := trace w ++ [Stdout (installing package_name ver "with download");
                           HttpGet u] in
  (http_get X u = None ->
     run = (Raise (TransportError u), World (environ w) (files w) asked)) /\
  (forall r, http_get X u = Some r -> status_code r <> 200%Z ->
     run = (Raise (RuntimeError
                     ("GET request to " +:+ u +:+ " returned status code "
                        +:+ pretty (status_code r))),
            World (environ w) (files w) asked)).
Proof.
  intros Hurl Hsplit. unfold download, session_get. run_prog.
  rewrite Hurl, Hsplit. simpl.
  destruct (decide ("sha256" <> "sha256")) as [Hn|_]; [by destruct Hn|].
  split.
  - intros ->. simpl. by rewrite <- app_assoc.
  - intros r -> Hstatus. simpl.
    destruct (decide (status_code r <> 200%Z)); [|done].
    simpl. by rewrite <- app_assoc.
Qed.

Lemma download_refused_witness :
  let X := {| shell_run := fun _ _ => Some "";
              mkdir_ok := fun _ => true;
              open_ok := fun _ => true;
              create_mode := 420;
              http_get := fun _ => Some (Response 204 [] true);
              sha256_hexdigest := toy_digest;
              abspath := fun path => path;
              strip_version := fun v => v;
              latest_pypi_version := fun _ => "1.0";
              LATEST_PACKAGE_ALIAS := "*" |} in
  download X "tool" "1.0" "/prefix" (Some "https://example.org/tool")
           (Some "sha256:0") "/stage" (Some "bin/tool") plain_world
  = (Raise (RuntimeError
              "GET request to https://example.org/tool returned status code 204"),
     World (environ plain_world) ∅
           [Stdout "Installing tool (1.0) with download";
            HttpGet "https://example.org/tool"]).
Proof.
  intros X.
  destruct (download_refused X "tool" "1.0" "/prefix" "https://example.org/tool"
              "sha256:0" "0" "/stage" "bin/tool" plain_world)
    as [_ Hstatus]; [reflexivity|reflexivity|].
  rewrite (Hstatus (Response 204 [] true)); [reflexivity|reflexivity|].
  simpl. lia.
Defined.

(** X14.  When the stream breaks off after the request was answered 200, the
    strategy raises the transport's error and leaves the chunks received so
    far in the destination file, with the mode it was opened with: no digest
    is compared and no [chmod] is issued. *)
Theorem download_truncated (X : externals) (package_name ver prefix : string)
    (u h hash_value fakeroot dst : string) (r : response) (w : world) :
  let dest := path_div (path_parts (fakeroot +:+ prefix)) dst in
  startswith "https" u = true -> split ":" h = ["sha256"; hash_value] ->
  http_get X u = Some r -> status_code r = 200%Z ->
  open_ok X dest = true -> complete r = false ->
  download X package_name ver prefix (Some u) (Some h) fakeroot (Some dst) w
  = (Raise (TransportError u),
     World (environ w)
           (<[dest := File (opened_mode X w dest) (concat (chunks r))]> (files w))
           (trace w ++ [Stdout (installing package_name ver "with download");
                        HttpGet u; OpenWb dest]
                   ++ map (WriteChunk dest) (chunks r))).
Proof.
  intros dest Hurl Hsplit Hget Hstatus Hopen Hcomplete.
  unfold download, session_get, open_wb. run_prog.
  rewrite Hurl, Hsplit. simpl.
  destruct (decide ("sha256" <> "sha256")) as [Hn|_]; [by destruct Hn|].
  rewrite Hget. simpl.
  destruct (decide (status_code r <> 200%Z)) as [Hn|_]; [by destruct Hn|].
  fold dest. rewrite Hopen. simpl.
  rewrite write_chunks_spec. simpl. rewrite Hcomplete. simpl.
  unfold opened_mode. by rewrite <- !app_assoc.
Qed.

Lemma download_truncated_witness :
  let X := {| shell_run := fun _ _ => Some "";
              mkdir_ok := fun _ => true;
              open_ok := fun _ => true;
              create_mode := 420;
              http_get := fun _ => Some (Response 200 [[x23; x21]%byte] false);
              sha256_hexdigest := toy_digest;
              abspath := fun path => path;
              strip_version := fun v => v;
              latest_pypi_version := fun _ => "1.0";
              LATEST_PACKAGE_ALIAS := "*" |} in
  let run := download X "tool" "1.0" "/prefix" (Some "https://example.org/tool")
                      (Some "sha256:3") "/stage" (Some "bin/tool") plain_world in
  run.1 = Raise (TransportError "https://example.org/tool") /\
  files run.2 !! ["/"; "stage"; "prefix"; "bin"; "tool"]
  = Some (File 420 [x23; x21]%byte).
Proof.
  intros X run. subst run.
  rewrite (download_truncated X "tool" "1.0" "/prefix" "https://example.org/tool"
             "sha256:3" "3" "/stage" "bin/tool" (Response 200 [[x23; x21]%byte] false)
             plain_world); [|reflexivity..].
  split; [reflexivity|]. vm_compute. reflexivity.
Defined.

(** X15.  The declared hash must hold exactly one colon: with none, or with
    more than one, unpacking the split raises [ValueError] right after the
    first line is printed, before any request and whatever the algorithm
    named. *)
Theorem download_hash_needs_one_colon (X : externals)
    (package_name ver prefix u h fakeroot : string)
    (destination : option string) (w : world) :
  startswith "https" u = true -> count_char ":" h <> 1%nat ->
  download X package_name ver prefix (Some u) (Some h) fakeroot destination w
  = (Raise ValueErrorUnpack,
     World (environ w) (files w)
           (trace w ++ [Stdout (installing package_name ver "with download")])).
Proof.
  intros Hurl Hcount.
  apply (download_guards X package_name ver prefix u h fakeroot destination w);
    [done|].
  rewrite length_split. lia.
Qed.

Lemma download_hash_needs_one_colon_witness :
  download working_tools "tool" "1.0" "/prefix" (Some "https://example.org/tool")
           (Some "sha256:3:x") "/stage" (Some "bin/tool") plain_world
  = (Raise ValueErrorUnpack,
     World (environ plain_world) (files plain_world)
           (trace plain_world ++ [Stdout (installing "tool" "1.0" "with download")])).
Proof.
  apply (download_hash_needs_one_colon working_tools "tool" "1.0" "/prefix"
           "https://example.org/tool" "sha256:3:x" "/stage" (Some "bin/tool")
           plain_world); [reflexivity|].
  vm_compute. lia.
Defined.

(** ** The script strategy without a script *)

(** X16.  The script strategy does not check that its script is known: when
    the entry names no [makefile], or names one that [data] does not hold,
    [data.get] gives [None] and the command handed to the shell begins with
    [bash None]; it is the only command of the run. *)
Theorem sh_without_script (X : externals) (package_name ver pkgpath : string)
    (data : gmap string string) (prefix : string) (makefile : option string)
    (fakeroot pythonpath bin_path pip : string) (virtualenv : option string)
    (ld_lib_path : string) (jobs : nat) (cmake_exe makeopts : string)
    (w : world) :
  let run := sh X package_name ver pkgpath data prefix makefile fakeroot
                pythonpath bin_path pip virtualenv ld_lib_path jobs cmake_exe
                makeopts w in
  (makefile ≫= fun k => data !! k) = None ->
  exists events rest,
    trace run.2 = trace w ++ events /\
    shell_commands events
    = [ ("bash None --prefix " +:+ prefix) :: ("--fakeroot " +:+ fakeroot) :: rest ].
Proof.
  intros run Hscript. subst run. unfold sh. rewrite Hscript. run_prog.
  destruct (shell_run X _ _); simpl; do 2 eexists;
    (split; [rewrite <- !app_assoc; reflexivity|]); simpl; reflexivity.
Qed.

Lemma sh_without_script_witness :
  let run := sh working_tools "tool" "1.0" "/dl/tool-1.0" ∅ "/prefix" None
                "/stage" "" "/stage/prefix/bin:/usr/bin" "pip" None
                "/stage/prefix/lib" 1 "cmake" "" plain_world in
  run.1 = Ret tt /\
  exists rest,
    shell_commands (trace run.2)
    = [ "bash None --prefix /prefix" :: "--fakeroot /stage" :: rest ].
Proof.
  intros run. split; [vm_compute; reflexivity|].
  destruct (sh_without_script working_tools "tool" "1.0" "/dl/tool-1.0" ∅
              "/prefix" None "/stage" "" "/stage/prefix/bin:/usr/bin" "pip" None
              "/stage/prefix/lib" 1 "cmake" "" plain_world eq_refl)
    as (events & rest & Htrace & Hcommands).
  exists rest. subst run. rewrite Htrace. exact Hcommands.
Defined.

(** ** The validators of [yaml_file_type.py] *)

Lemma release_entries_map (L : library) (r : release) :
  release_entries L (map (fun '(package, version) => (KStr package, YStr version)) r)
  = Ok r.
Proof. induction r as [|[p v] r IH]; simpl; [done|]. by rewrite IH. Qed.

Lemma release_entries_Ok (L : library) (entries : list (key * yaml)) :
  forall r,
    release_entries L entries = Ok r ->
    entries = map (fun '(package, version) => (KStr package, YStr version)) r.
Proof.
  induction entries as [|[k v] rest IH]; intros r; simpl.
  - by intros [= <-].
  - destruct k as [package_name|n]; [|by destruct v].
    destruct v as [| | |package_version| |]; try discriminate.
    destruct (release_entries L rest) as [checked|e]; [|discriminate].
    intros [= <-]. simpl. f_equal. by apply IH.
Qed.

Lemma version_entries_map (L : library) (package_name : string)
    (checked : list (string * yaml)) :
  version_entries L package_name
    (map (fun '(version, metadata) => (KStr version, metadata)) checked)
  = Ok checked.
Proof. induction checked as [|[v m] r IH]; simpl; [done|]. by rewrite IH. Qed.

Lemma version_entries_Ok (L : library) (package_name : string)
    (versions : list (key * yaml)) :
  forall checked,
    version_entries L package_name versions = Ok checked ->
    versions = map (fun '(version, metadata) => (KStr version, metadata)) checked.
Proof.
  induction versions as [|[k v] rest IH]; intros checked; simpl.
  - by intros [= <-].
  - destruct k as [package_version|n]; [|discriminate].
    destruct (version_entries L package_name rest) as [c|e]; [|discriminate].
    intros [= <-]. simpl. f_equal. by apply IH.
Qed.

Lemma repository_entries_map (L : library) (r : registry) :
  repository_entries L
    (map (fun '(package, versions) =>
            (KStr package,
             YDict (map (fun '(version, metadata) => (KStr version, metadata))
                        versions))) r)
  = Ok r.
Proof.
  induction r as [|[p vs] r IH]; simpl; [done|].
  by rewrite version_entries_map, IH.
Qed.

Lemma repository_entries_Ok (L : library) (entries : list (key * yaml)) :
  forall r, repository_entries L entries = Ok r -> YDict entries = registry_yaml r.
Proof.
  unfold registry_yaml.
  induction entries as [|[k v] rest IH]; intros r; simpl.
  - by intros [= <-].
  - destruct k as [package_name|n]; [|by destruct v].
    destruct v as [| | | | |versions]; try discriminate.
    destruct (version_entries L package_name versions) as [cv|e] eqn:Hversions;
      [|discriminate].
    apply version_entries_Ok in Hversions as ->.
    destruct (repository_entries L rest) as [checked|e]; [|discriminate].
    intros [= <-]. simpl. specialize (IH checked eq_refl).
    injection IH as ->. done.
Qed.

(** X17.  [ReleaseFileYamlString.convert] returns exactly when what it loaded
    is a mapping in which every key and every value is a string, and what it
    returns is then that mapping, entry for entry and in the same order. *)
Theorem release_convert_accepts (L : library) (value : string) (y : yaml) :
  safe_load L value = Ok y ->
  forall r, ReleaseFileYamlString_convert L value = Ok r <-> y = release_yaml r.
Proof.
  intros Hload r. unfold ReleaseFileYamlString_convert, release_yaml.
  rewrite Hload.
  destruct y as [| | | | |entries]; simpl; try (split; discriminate).
  split.
  - intros Hr. by rewrite (release_entries_Ok L entries r Hr).
  - intros [= ->]. apply release_entries_map.
Qed.

Lemma release_convert_accepts_witness :
  ReleaseFileYamlString_convert shelf_library "stable.yml"
  = Ok [("numpy", "1.24"); ("zopfli", "0.3")] /\
  ReleaseFileYamlString_convert shelf_library "unquoted.yml"
  = Err (AssertionError ("Package version of 'zopfli' has to be of type string (3)"
                           +:+ newline +:+ release_message)).
Proof.
  split; [|vm_compute; reflexivity].
  apply (release_convert_accepts shelf_library "stable.yml"
           (release_yaml [("numpy", "1.24"); ("zopfli", "0.3")]));
    [vm_compute|]; reflexivity.
Defined.

Lemma repository_convert_lets_through (L : library) (value : string) (y : yaml) :
  safe_load L value = Ok y ->
  forall r, y = registry_yaml r -> RepositoryFileYamlString_convert L value = Ok r.
Proof.
  intros Hload r ->. unfold RepositoryFileYamlString_convert. rewrite Hload.
  simpl. apply repository_entries_map.
Qed.

(** X18.  [RepositoryFileYamlString.convert] returns exactly when what it
    loaded is a mapping from strings to mappings whose keys are strings, and
    then returns it unchanged.  What is stored under a version is not
    looked at: a version without [make] or [maintainer], or holding nothing,
    is let through. *)
Theorem repository_convert_accepts (L : library) (value : string) (y : yaml) :
  safe_load L value = Ok y ->
  forall r, RepositoryFileYamlString_convert L value = Ok r <-> y = registry_yaml r.
Proof.
  intros Hload r. unfold RepositoryFileYamlString_convert. rewrite Hload.
  destruct y as [| | | | |entries]; simpl; try (split; discriminate).
  split; [apply repository_entries_Ok|].
  unfold registry_yaml. intros [= ->]. apply repository_entries_map.
Qed.

Lemma repository_convert_accepts_witness :
  RepositoryFileYamlString_convert shelf_library "repository.yml"
  = Ok [("numpy", [("1.23", YNone); ("1.24", YNone)]); ("zopfli", [("0.3", YNone)])].
Proof.
  apply (repository_convert_accepts shelf_library "repository.yml"
           (registry_yaml shelf_registry)); [vm_compute|]; reflexivity.
Defined.

(** ** The stricter validator of repository files *)

Lemma repository_file_versions_Ok (L : library) (versions : list (key * yaml)) :
  repository_file_versions L versions = Ok tt
  <-> exists checked,
        versions = map (fun '(version, metadata) => (KStr version, metadata)) checked /\
        forall version metadata, (version, metadata) ∈ checked ->
          in_keys "make" metadata = Ok true /\
          in_keys "maintainer" metadata = Ok true.
Proof.
  induction versions as [|[k v] rest IH]; simpl.
  - split; [|done]. intros _. exists []. split; [done|].
    intros version metadata Hin. by apply elem_of_nil in Hin.
  - destruct k as [version_id|n].
    + destruct (in_keys "make" v) as [[|]|e] eqn:Hmake.
      * destruct (in_keys "maintainer" v) as [[|]|e] eqn:Hmaintainer.
        -- rewrite IH. split.
           ++ intros (checked & -> & Hall). exists ((version_id, v) :: checked).
              split; [done|]. intros version metadata Hin.
              apply elem_of_cons in Hin as [[= -> ->]|Hin];
                [done|by apply (Hall version metadata)].
           ++ intros (checked & Heq & Hall).
              destruct checked as [|[version metadata] checked]; [discriminate|].
              simpl in Heq. injection Heq as -> -> ->.
              exists checked. split; [done|].
              intros version' metadata' Hin. apply (Hall version' metadata').
              by right.
        -- split; [discriminate|]. intros (checked & Heq & Hall).
           destruct checked as [|[version metadata] checked]; [discriminate|].
           simpl in Heq. injection Heq as -> -> ->.
           destruct (Hall version metadata) as [_ Hm]; [left|]. congruence.
        -- split; [discriminate|]. intros (checked & Heq & Hall).
           destruct checked as [|[version metadata] checked]; [discriminate|].
           simpl in Heq. injection Heq as -> -> ->.
           destruct (Hall version metadata) as [_ Hm]; [left|]. congruence.
      * split; [discriminate|]. intros (checked & Heq & Hall).
        destruct checked as [|[version metadata] checked]; [discriminate|].
        simpl in Heq. injection Heq as -> -> ->.
        destruct (Hall version metadata) as [Hm _]; [left|]. congruence.
      * split; [discriminate|]. intros (checked & Heq & Hall).
        destruct checked as [|[version metadata] checked]; [discriminate|].
        simpl in Heq. injection Heq as -> -> ->.
        destruct (Hall version metadata) as [Hm _]; [left|]. congruence.
    + split; [discriminate|]. intros (checked & Heq & _).
      destruct checked as [|[version metadata] checked]; discriminate.
Qed.

Lemma repository_file_entries_Ok (L : library) (entries : list (key * yaml)) :
  repository_file_entries L entries = Ok tt
  <-> exists r, YDict entries = registry_yaml r /\ maintained r.
Proof.
  unfold registry_yaml, maintained.
  induction entries as [|[k v] rest IH]; simpl.
  - split; [|done]. intros _. exists []. split; [done|].
    intros package versions version metadata Hin. by apply elem_of_nil in Hin.
  - destruct k as [package_name|n].
    + destruct v as [| | | | |versions];
        try (split; [discriminate|]; intros (r & Heq & _);
             destruct r as [|[? ?] ?]; discriminate).
      destruct (repository_file_versions L versions) as [[]|e] eqn:Hversions.
      * apply repository_file_versions_Ok in Hversions
          as (checked_versions & -> & Hchecked).
        rewrite IH. split.
        -- intros (r & Heq & Hall). injection Heq as ->.
           exists ((package_name, checked_versions) :: r). split; [done|].
           intros package versions version metadata Hin Hv.
           apply elem_of_cons in Hin as [[= -> ->]|Hin];
             [by apply (Hchecked version metadata)|].
           by apply (Hall package versions version metadata).
        -- intros (r & Heq & Hall).
           destruct r as [|[package versions] r]; [discriminate|].
           simpl in Heq. injection Heq as -> Hv ->.
           exists r. split; [done|].
           intros package' versions' version metadata Hin Hv'.
           apply (Hall package' versions' version metadata); [by right|done].
      * split; [discriminate|]. intros (r & Heq & Hall).
        destruct r as [|[package versions'] r]; [discriminate|].
        simpl in Heq. injection Heq as -> Hv ->.
        assert (Hok : repository_file_versions L versions = Ok tt).
        { apply repository_file_versions_Ok. exists versions'. split; [done|].
          intros version metadata Hin.
          apply (Hall package versions' version metadata); [left|done]. }
        congruence.
    + split; [by destruct v|]. intros (r & Heq & _).
      destruct r as [|[? ?] ?]; discriminate.
Qed.

(** X19.  [RepositoryFile] is the stricter of the two validators of a
    repository.  It returns exactly when what it loaded is a mapping from
    strings to mappings whose keys are strings and in which every version
    holds a mapping with [make] and [maintainer]; it then returns what it
    loaded, and [RepositoryFileYamlString.convert] accepts the same value.
    The converse fails: the latter does not look at what a version holds. *)
Theorem repository_file_accepts (L : library) (value : string) (y : yaml) :
  YamlFile_call L value = Ok y ->
  (RepositoryFile_call L value = Ok y
   <-> exists r, y = registry_yaml r /\ maintained r) /\
  (RepositoryFile_call L value = Ok y ->
   forall text, safe_load L text = Ok y ->
     exists r, RepositoryFileYamlString_convert L text = Ok r /\ y = registry_yaml r) /\
  (forall y', RepositoryFile_call L value = Ok y' -> y' = y).
Proof.
  intros Hload. unfold RepositoryFile_call. rewrite Hload.
  assert (Hiff : match items y with
                 | Ok entries =>
                     match repository_file_entries L entries with
                     | Ok _ => Ok y
                     | Err e => Err e
                     end
                 | Err e => Err e
                 end = Ok y
                 <-> exists r, y = registry_yaml r /\ maintained r).
  { destruct y as [| | | | |entries]; simpl;
      try (split; [discriminate|by intros (r & Heq & _)]).
    destruct (repository_file_entries L entries) as [[]|e] eqn:Hentries.
    - split; [|done]. intros _.
      exact (proj1 (repository_file_entries_Ok L entries) Hentries).
    - split; [discriminate|]. intros Hr.
      pose proof (proj2 (repository_file_entries_Ok L entries) Hr). congruence. }
  split; [exact Hiff|]. split.
  - intros Hrun text Htext. apply Hiff in Hrun as (r & -> & _).
    exists r. split; [|done].
    by apply (repository_convert_lets_through L text (registry_yaml r)).
  - intros y'. destruct (items y) as [entries|e]; [|discriminate].
    destruct (repository_file_entries L entries); [|discriminate].
    by intros [= <-].
Qed.

Lemma repository_file_accepts_witness :
  RepositoryFile_call shelf_library "maintained.yml"
  = Ok (registry_yaml shelf_maintained) /\
  RepositoryFile_call shelf_library "repository.yml" = Err (Builtin AttributeError) /\
  RepositoryFileYamlString_convert shelf_library "repository.yml" = Ok shelf_registry.
Proof.
  split; [|split; vm_compute; reflexivity].
  apply (repository_file_accepts shelf_library "maintained.yml"
           (registry_yaml shelf_maintained)); [vm_compute; reflexivity|].
  exists shelf_maintained. split; [reflexivity|].
  intros package versions version metadata Hin Hv.
  unfold shelf_maintained in Hin.
  apply list_elem_of_singleton in Hin as [= -> ->].
  apply list_elem_of_singleton in Hv as [= -> ->].
  split; vm_compute; reflexivity.
Defined.

(** ** The validator of upgrade proposals *)

Lemma upgrade_entries_map (L : library) (r : release) :
  upgrade_entries L (map (fun '(package, version) => (KStr package, YStr version)) r)
  = Ok r.
Proof. induction r as [|[p v] r IH]; simpl; [done|]. by rewrite IH. Qed.

Lemma upgrade_entries_Ok (L : library) (entries : list (key * yaml)) :
  forall r,
    upgrade_entries L entries = Ok r ->
    entries = map (fun '(package, version) => (KStr package, YStr version)) r.
Proof.
  induction entries as [|[k v] rest IH]; intros r; simpl.
  - by intros [= <-].
  - destruct k as [package_name|n]; [|by destruct v].
    destruct v as [| | |package_version| |]; try discriminate.
    destruct (upgrade_entries L rest) as [checked|e]; [|discriminate].
    intros [= <-]. simpl. f_equal. by apply IH.
Qed.

Lemma proposals_entries_map (L : library) (p : proposals) :
  proposals_entries L
    (map (fun '(release_version, packages) =>
            (KStr release_version,
             match packages with
             | None => YNone
             | Some upgrades => release_yaml upgrades
             end)) p)
  = Ok p.
Proof.
  induction p as [|[release_version [upgrades|]] p IH]; simpl; [done| |].
  - by rewrite upgrade_entries_map, IH.
  - by rewrite IH.
Qed.

Lemma proposals_entries_Ok (L : library) (entries : list (key * yaml)) :
  forall p, proposals_entries L entries = Ok p -> YDict entries = proposals_yaml p.
Proof.
  unfold proposals_yaml.
  induction entries as [|[k v] rest IH]; intros p; simpl.
  - by intros [= <-].
  - destruct k as [release_version|n]; [|by destruct v].
    destruct v as [| | | | |upgrades]; simpl; try discriminate.
    + destruct (proposals_entries L rest) as [checked|e]; [|discriminate].
      intros [= <-]. simpl. specialize (IH checked eq_refl). by injection IH as ->.
    + destruct (upgrade_entries L upgrades) as [checked_upgrades|e] eqn:Hupgrades;
        [|discriminate].
      apply upgrade_entries_Ok in Hupgrades as ->.
      destruct (proposals_entries L rest) as [checked|e]; [|discriminate].
      intros [= <-]. simpl. specialize (IH checked eq_refl). by injection IH as ->.
Qed.

(** X20.  [UpgradeProposalsYamlString.convert] returns exactly when what it
    loaded is a mapping with strings for keys that holds, under each key,
    either [None] or a mapping from strings to strings; it then returns it
    unchanged.  A release whose section is empty is thus let through, a
    version that is not a string is not. *)
Theorem proposals_convert_accepts (L : library) (value : string) (y : yaml) :
  safe_load L value = Ok y ->
  forall p, UpgradeProposalsYamlString_convert L value = Ok p <-> y = proposals_yaml p.
Proof.
  intros Hload p. unfold UpgradeProposalsYamlString_convert. rewrite Hload.
  destruct y as [| | | | |entries]; simpl; try (split; discriminate).
  split; [apply proposals_entries_Ok|].
  unfold proposals_yaml. intros [= ->]. apply proposals_entries_map.
Qed.

Lemma proposals_convert_accepts_witness :
  UpgradeProposalsYamlString_convert shelf_library "upgrade_proposals.yml"
  = Ok [("2024-05", Some [("numpy", "1.24")]); ("2024-06", None)].
Proof.
  apply (proposals_convert_accepts shelf_library "upgrade_proposals.yml"
           (proposals_yaml [("2024-05", Some [("numpy", "1.24")]); ("2024-06", None)]));
    [vm_compute|]; reflexivity.
Defined.

(** ** The report of [cleanup.py] *)

Lemma seen_release_spec (r : release) (seen : gset (string * string)) :
  forall pv,
    pv ∈ foldl (fun seen '(package, version) => {[ (package, version) ]} ∪ seen)
               seen r
    <-> pv ∈ seen \/ pv ∈ r.
Proof.
  revert seen. induction r as [|[p v] r IH]; intros seen pv; simpl.
  - rewrite elem_of_nil. tauto.
  - rewrite IH, elem_of_union, elem_of_singleton, elem_of_cons. tauto.
Qed.

Lemma seen_spec_from (releases : list release) (seen : gset (string * string)) :
  forall pv,
    pv ∈ foldl (fun seen r =>
                  foldl (fun seen '(package, version) =>
                           {[ (package, version) ]} ∪ seen) seen r)
               seen releases
    <-> pv ∈ seen \/ Exists (fun r => pv ∈ r) releases.
Proof.
  revert seen. induction releases as [|r releases IH]; intros seen pv; simpl.
  - rewrite Exists_nil. tauto.
  - rewrite IH, seen_release_spec, Exists_cons. tauto.
Qed.

(** A combination is seen when some release pins it. *)
Lemma seen_spec (releases : list release) (pv : string * string) :
  pv ∈ seen_package_version_combinations releases
  <-> Exists (fun r => pv ∈ r) releases.
Proof.
  unfold seen_package_version_combinations. rewrite seen_spec_from.
  rewrite elem_of_empty. tauto.
Qed.

(** The loop prints the header once, before the first unseen combination,
    and one line for every unseen combination. *)
Lemma report_spec (seen : gset (string * string))
    (registered : list (string * string)) :
  forall seen_all,
    let unused := filter (fun pv => pv ∉ seen) registered in
    report registered seen seen_all
    = (seen_all && bool_decide (unused = []),
       (if seen_all && negb (bool_decide (unused = [])) then ["unused:"] else [])
         ++ map (fun pv => "  - " +:+ pv.1 +:+ ": " +:+ pv.2) unused).
Proof.
  induction registered as [|ver rest IH]; intros seen_all; simpl.
  - by rewrite andb_true_r, andb_false_r.
  - rewrite filter_cons. destruct (decide (ver ∉ seen)) as [Hver|Hver].
    + rewrite IH. simpl. rewrite andb_false_r, andb_true_r. simpl. done.
    + apply IH.
Qed.

Lemma load_releases_Ok (L : library) (release_files : list string) :
  forall releases,
    load_releases L release_files = Ok releases
    <-> Forall2 (fun file_name r => load_release L file_name = Ok r)
                release_files releases.
Proof.
  induction release_files as [|f fs IH]; intros releases; simpl.
  - split.
    + intros [= <-]. constructor.
    + intros H. by inversion H.
  - split.
    + destruct (load_release L f) as [r|e] eqn:Hf; [|discriminate].
      destruct (load_releases L fs) as [rs|e] eqn:Hfs; [|discriminate].
      intros [= <-]. constructor; [done|]. by apply IH.
    + intros H. inversion H as [|? r ? rs Hf Hfs]; subst.
      rewrite Hf. apply IH in Hfs. by rewrite Hfs.
Qed.

(** The releases that pin a combination, read off the files. *)
Lemma pinned_by_file (L : library) (release_files : list string)
    (releases : list release) (pv : string * string) :
  Forall2 (fun file_name r => load_release L file_name = Ok r)
          release_files releases ->
  Exists (fun r => pv ∈ r) releases
  <-> exists file_name r,
        file_name ∈ release_files /\ load_release L file_name = Ok r /\ pv ∈ r.
Proof.
  induction 1 as [|f r fs rs Hf Hfs IH].
  - rewrite Exists_nil. split; [done|].
    intros (f & r & Hin & _). by apply elem_of_nil in Hin.
  - rewrite Exists_cons, IH. split.
    + intros [Hpv|(f' & r' & Hin & Hload & Hpv)].
      * exists f, r. split; [left|done].
      * exists f', r'. split; [by right|done].
    + intros (f' & r' & Hin & Hload & Hpv).
      apply elem_of_cons in Hin as [->|Hin].
      * left. congruence.
      * right. by exists f', r'.
Qed.

(** A run whose files all load: the report is read off the registered
    combinations and the set of those seen. *)
Lemma cleanup_loaded (L : library) (repository_file : string)
    (release_files : list string) (repository : registry)
    (releases : list release) :
  load_repository L repository_file = Ok repository ->
  load_releases L release_files = Ok releases ->
  let unused := filter (fun pv => pv ∉ seen_package_version_combinations releases)
                       (registered_package_version_combinations repository) in
  cleanup L repository_file release_files
  = (Ok tt,
     if decide (unused = []) then ["ok"]
     else "unused:" :: map (fun pv => "  - " +:+ pv.1 +:+ ": " +:+ pv.2) unused).
Proof.
  intros Hrepository Hreleases unused. unfold cleanup.
  rewrite Hrepository, Hreleases, report_spec. simpl. fold unused.
  destruct (decide (unused = [])) as [Hnil|Hsome].
  - rewrite Hnil. by rewrite bool_decide_eq_true_2.
  - by rewrite bool_decide_eq_false_2.
Qed.

Lemma cleanup_Ok_inv (L : library) (repository_file : string)
    (release_files : list string) :
  (cleanup L repository_file release_files).1 = Ok tt ->
  exists repository releases,
    load_repository L repository_file = Ok repository /\
    load_releases L release_files = Ok releases.
Proof.
  unfold cleanup.
  destruct (load_repository L repository_file) as [repository|e]; [|discriminate].
  destruct (load_releases L release_files) as [releases|e]; [|discriminate].
  intros _. by exists repository, releases.
Qed.

(** X21.  When the repository file and every release file load, [cleanup]
    completes and reports the versions no release pins: the single line
    [ok] when every registered combination of package and version is pinned
    by some release, and otherwise the line [unused:] followed by one line
    for each registered combination that no release pins, in the order of
    the repository file.  What a release pins beyond the repository is
    passed over. *)
Theorem cleanup_reports_unused (L : library) (repository_file : string)
    (release_files : list string) (repository : registry)
    (releases : list release) :
  load_repository L repository_file = Ok repository ->
  Forall2 (fun file_name r => load_release L file_name = Ok r)
          release_files releases ->
  let unused := filter (fun pv => ~ Exists (fun r : release => pv ∈ r) releases)
                       (registered_package_version_combinations repository) in
  cleanup L repository_file release_files
  = (Ok tt,
     if decide (unused = []) then ["ok"]
     else "unused:" :: map (fun pv => "  - " +:+ pv.1 +:+ ": " +:+ pv.2) unused).
Proof.
  intros Hrepository Hreleases unused. apply load_releases_Ok in Hreleases.
  rewrite (cleanup_loaded L repository_file release_files repository releases
             Hrepository Hreleases).
  assert (Hfilter : filter (fun pv => pv ∉ seen_package_version_combinations releases)
                           (registered_package_version_combinations repository)
                    = unused).
  { apply list_filter_iff. intros pv. by rewrite seen_spec. }
  by rewrite Hfilter.
Qed.

Lemma cleanup_reports_unused_witness :
  cleanup shelf_library "repository.yml" ["stable.yml"]
  = (Ok tt, ["unused:"; "  - numpy: 1.23"]) /\
  cleanup shelf_library "repository.yml" ["old.yml"; "stable.yml"]
  = (Ok tt, ["ok"]).
Proof.
  split.
  - rewrite (cleanup_reports_unused shelf_library "repository.yml" ["stable.yml"]
               shelf_registry [[("numpy", "1.24"); ("zopfli", "0.3")]]);
      [vm_compute; reflexivity|vm_compute; reflexivity|].
    repeat constructor.
  - rewrite (cleanup_reports_unused shelf_library "repository.yml"
               ["old.yml"; "stable.yml"] shelf_registry
               [[("numpy", "1.23"); ("scipy", "1.0")];
                [("numpy", "1.24"); ("zopfli", "0.3")]]);
      [vm_compute; reflexivity|vm_compute; reflexivity|].
    repeat constructor.
Defined.

(** X22.  [cleanup] prints only once everything is loaded: a run that fails
    has printed nothing, a run that completes has printed at least one
    line. *)
Theorem cleanup_prints_iff_complete (L : library) (repository_file : string)
    (release_files : list string) :
  let run := cleanup L repository_file release_files in
  run.1 = Ok tt <-> run.2 <> [].
Proof.
  simpl. split.
  - intros Hrun.
    destruct (cleanup_Ok_inv L repository_file release_files Hrun)
      as (repository & releases & Hrepository & Hreleases).
    rewrite (cleanup_loaded L repository_file release_files repository releases
               Hrepository Hreleases). simpl.
    by destruct (decide (_ = [])).
  - unfold cleanup.
    destruct (load_repository L repository_file) as [repository|e]; [|done].
    destruct (load_releases L release_files) as [releases|e]; [|done].
    by destruct (report _ _ _).
Qed.

Lemma cleanup_prints_iff_complete_witness :
  (cleanup shelf_library "repository.yml" ["stable.yml"]).2 <> [] /\
  cleanup shelf_library "repository.yml" ["stable.yml"; "unquoted.yml"]
  = (Err (AssertionError ("Package version of 'zopfli' has to be of type string (3)"
                            +:+ newline +:+ release_message)), []).
Proof.
  split; [|vm_compute; reflexivity].
  apply (cleanup_prints_iff_complete shelf_library "repository.yml" ["stable.yml"]).
  vm_compute. reflexivity.
Defined.

(** X23.  The report does not depend on the order of the release files, nor
    on a file being named more than once: two lists naming the same files
    give the same report, whenever one of them gives a report at all. *)
Theorem cleanup_release_order (L : library) (repository_file : string)
    (release_files release_files' : list string) :
  (forall file_name, file_name ∈ release_files <-> file_name ∈ release_files') ->
  (cleanup L repository_file release_files).1 = Ok tt ->
  cleanup L repository_file release_files'
  = cleanup L repository_file release_files.
Proof.
  intros Hsame Hrun.
  destruct (cleanup_Ok_inv L repository_file release_files Hrun)
    as (repository & releases & Hrepository & Hreleases).
  pose proof Hreleases as Hloaded. apply load_releases_Ok in Hloaded.
  assert (Hall : forall file_name, file_name ∈ release_files ->
            exists r, load_release L file_name = Ok r).
  { clear -Hloaded. induction Hloaded as [|f r fs rs Hf Hfs IH].
    - intros f Hin. by apply elem_of_nil in Hin.
    - intros f' Hin. apply elem_of_cons in Hin as [->|Hin]; eauto. }
  assert (Hloaded' : exists releases',
            Forall2 (fun file_name r => load_release L file_name = Ok r)
                    release_files' releases').
  { assert (Hsub : forall file_name, file_name ∈ release_files' ->
              exists r, load_release L file_name = Ok r).
    { intros f Hin. apply Hall. by apply Hsame. }
    clear -Hsub. induction release_files' as [|f fs IH].
    - exists []. constructor.
    - destruct (Hsub f) as [r Hr]; [left|].
      destruct IH as [rs Hrs]; [intros f' Hin; apply Hsub; by right|].
      exists (r :: rs). by constructor. }
  destruct Hloaded' as [releases' Hloaded'].
  pose proof Hloaded' as Hreleases'. apply load_releases_Ok in Hreleases'.
  rewrite (cleanup_loaded L repository_file release_files repository releases
             Hrepository Hreleases).
  rewrite (cleanup_loaded L repository_file release_files' repository releases'
             Hrepository Hreleases').
  assert (Hfilter :
    filter (fun pv => pv ∉ seen_package_version_combinations releases')
           (registered_package_version_combinations repository)
    = filter (fun pv => pv ∉ seen_package_version_combinations releases)
             (registered_package_version_combinations repository)).
  { apply list_filter_iff. intros pv. rewrite !seen_spec.
    rewrite (pinned_by_file L release_files' releases' pv Hloaded').
    rewrite (pinned_by_file L release_files releases pv Hloaded).
    split; intros Hn (f & r & Hin & Hload & Hpv); apply Hn; exists f, r;
      (split; [by apply Hsame|done]). }
  by rewrite Hfilter.
Qed.

Lemma cleanup_release_order_witness :
  cleanup shelf_library "repository.yml" ["stable.yml"; "old.yml"; "stable.yml"]
  = cleanup shelf_library "repository.yml" ["old.yml"; "stable.yml"].
Proof.
  apply (cleanup_release_order shelf_library "repository.yml"
           ["old.yml"; "stable.yml"] ["stable.yml"; "old.yml"; "stable.yml"]).
  - intros file_name. rewrite !elem_of_cons, elem_of_nil. tauto.
  - vm_compute. reflexivity.
Defined.

(** ** Merging proposals: [recursive_update] *)

(** The loop inside [recursive_update] is [update_entries]. *)
Lemma recursive_update_unfold (left : yaml) (entries : list (key * yaml)) :
  recursive_update left (YDict entries) = update_entries left entries.
Proof.
  revert left. induction entries as [|[k v] rest IH]; intros left; [done|].
  simpl in *. destruct v; try (destruct (setitem left k _); [apply IH|done]).
  destruct (get left k) as [d_val|e]; [|done].
  destruct (negb (bool_of d_val)).
  - destruct (setitem left k _); [apply IH|done].
  - match goal with |- context [match ?c with Ok _ => _ | Err _ => _ end] =>
      destruct c as [d_val'|e] end; [|done].
    destruct (setitem left k d_val'); [apply IH|done].
Qed.

Lemma dict_get_set_eq (k : key) (v : yaml) (entries : list (key * yaml)) :
  dict_get k (dict_set k v entries) = Some v.
Proof.
  induction entries as [|[k' v'] rest IH]; simpl.
  - by destruct (decide (k = k)).
  - destruct (decide (k' = k)) as [->|Hne]; simpl.
    + by destruct (decide (k = k)).
    + by destruct (decide (k' = k)).
Qed.

Lemma dict_get_set_ne (k k0 : key) (v : yaml) (entries : list (key * yaml)) :
  k0 <> k -> dict_get k0 (dict_set k v entries) = dict_get k0 entries.
Proof.
  intros Hne. induction entries as [|[k' v'] rest IH]; simpl.
  - by destruct (decide (k = k0)) as [->|].
  - destruct (decide (k' = k)) as [->|Hk]; simpl.
    + destruct (decide (k = k0)) as [->|]; done.
    + destruct (decide (k' = k0)); done.
Qed.

Lemma dict_get_None (k : key) (entries : list (key * yaml)) :
  dict_get k entries = None <-> k ∉ entries.*1.
Proof.
  induction entries as [|[k' v'] rest IH]; simpl.
  - split; [intros _; apply not_elem_of_nil|done].
  - rewrite not_elem_of_cons. destruct (decide (k' = k)) as [->|Hne].
    + split; [done|]. intros [Hk _]. done.
    + rewrite IH. split; [|tauto]. intros Hk. split; [congruence|done].
Qed.

Lemma dict_get_elem (k : key) (v : yaml) (entries : list (key * yaml)) :
  NoDup entries.*1 -> (k, v) ∈ entries -> dict_get k entries = Some v.
Proof.
  induction entries as [|[k' v'] rest IH]; simpl; intros Hnodup Hin.
  - by apply elem_of_nil in Hin.
  - apply NoDup_cons in Hnodup as [Hk' Hnodup].
    apply elem_of_cons in Hin as [[= -> ->]|Hin].
    + by destruct (decide (k' = k')).
    + destruct (decide (k' = k)) as [->|Hne]; [|by apply IH].
      destruct Hk'. apply list_elem_of_fmap. by exists (k, v).
Qed.

(** A key already there keeps its place, a new key goes last. *)
Lemma dict_set_keys (k : key) (v : yaml) (entries : list (key * yaml)) :
  (dict_set k v entries).*1
  = entries.*1 ++ (if decide (k ∈ entries.*1) then [] else [k]).
Proof.
  induction entries as [|[k' v'] rest IH].
  - simpl. destruct (decide (k ∈ [])) as [Hin|_]; [by apply elem_of_nil in Hin|done].
  - cbn [dict_set]. destruct (decide (k' = k)) as [->|Hne]; rewrite !fmap_cons;
      cbn [fst].
    + destruct (decide (k ∈ k :: rest.*1)) as [_|Hn]; [by rewrite app_nil_r|].
      destruct Hn. left.
    + rewrite IH, <- app_comm_cons. do 2 f_equal.
      destruct (decide (k ∈ rest.*1)) as [Hin|Hin];
        destruct (decide (k ∈ k' :: rest.*1)) as [Hin'|Hin']; try done.
      * destruct Hin'. by right.
      * apply elem_of_cons in Hin' as [->|Hin']; done.
Qed.

Lemma update_entries_not_dict (left : yaml) (k : key) (v : yaml)
    (rest : list (key * yaml)) :
  is_mapping v = false ->
  update_entries left ((k, v) :: rest)
  = match setitem left k v with
    | Ok left' => update_entries left' rest
    | Err e => Err e
    end.
Proof. by destruct v. Qed.

Lemma update_entries_dict (entries : list (key * yaml)) (k : key) (v : yaml)
    (rest : list (key * yaml)) :
  is_mapping v = true ->
  update_entries (YDict entries) ((k, v) :: rest)
  = let d_val := default YNone (dict_get k entries) in
    if bool_of d_val then
      match recursive_update d_val v with
      | Ok d_val' => update_entries (YDict (dict_set k d_val' entries)) rest
      | Err e => Err e
      end
    else update_entries (YDict (dict_set k v entries)) rest.
Proof.
  destruct v; try discriminate. intros _. simpl.
  destruct (bool_of (default YNone (dict_get k entries))); simpl; [|done].
  match goal with |- context [match ?c with Ok _ => _ | Err _ => _ end] =>
    destruct c as [d_val'|e] end; done.
Qed.

Lemma filter_ext_elem {A} (P1 P2 : A -> Prop) `{!forall x, Decision (P1 x)}
    `{!forall x, Decision (P2 x)} (l : list A) :
  (forall x, x ∈ l -> P1 x <-> P2 x) -> filter P1 l = filter P2 l.
Proof.
  induction l as [|a l IH]; intros Hext; [done|].
  rewrite !filter_cons.
  rewrite IH by (intros x Hx; apply Hext; by right).
  destruct (decide (P1 a)) as [H1|H1]; destruct (decide (P2 a)) as [H2|H2];
    try done; exfalso; specialize (Hext a); rewrite elem_of_cons in Hext;
    tauto.
Qed.

Lemma update_entries_spec (right : list (key * yaml)) :
  forall (left : list (key * yaml)) (res : yaml),
    NoDup right.*1 ->
    update_entries (YDict left) right = Ok res ->
    exists left',
      res = YDict left' /\
      left'.*1 = left.*1 ++ filter (fun k => k ∉ left.*1) right.*1 /\
      (forall k, k ∉ right.*1 -> dict_get k left' = dict_get k left) /\
      (forall k v, (k, v) ∈ right ->
         exists x, dict_get k left' = Some x /\ merged left k v x).
Proof.
  induction right as [|[k v] rest IH]; intros left res Hnodup Hrun.
  - simpl in Hrun. injection Hrun as <-. exists left. split; [done|].
    split; [simpl; by rewrite app_nil_r|]. split; [done|].
    intros k v Hin. by apply elem_of_nil in Hin.
  - rewrite fmap_cons in Hnodup. cbn [fst] in Hnodup.
    apply NoDup_cons in Hnodup as [Hk Hnodup].
    assert (Hstep : exists x, merged left k v x /\
                      update_entries (YDict (dict_set k x left)) rest = Ok res).
    { unfold merged. destruct (is_mapping v) eqn:Hv.
      - rewrite update_entries_dict in Hrun by done. simpl in Hrun. simpl.
        destruct (bool_of (default YNone (dict_get k left))).
        + destruct (recursive_update _ v) as [d_val'|e]; [|discriminate].
          by exists d_val'.
        + by exists v.
      - rewrite update_entries_not_dict in Hrun by done. simpl in Hrun.
        by exists v. }
    destruct Hstep as (x & Hx & Hrest).
    destruct (IH _ _ Hnodup Hrest) as (left' & -> & Hkeys & Hother & Hset).
    exists left'. split; [done|]. split; [|split].
    + rewrite Hkeys, dict_set_keys, fmap_cons. cbn [fst]. rewrite filter_cons.
      assert (Hfilter : filter (fun k0 => k0 ∉ (left.*1 ++
                                   (if decide (k ∈ left.*1) then [] else [k])))
                               rest.*1
                        = filter (fun k0 => k0 ∉ left.*1) rest.*1).
      { apply filter_ext_elem. intros k0 Hk0.
        rewrite elem_of_app.
        destruct (decide (k ∈ left.*1)); [rewrite elem_of_nil; tauto|].
        rewrite list_elem_of_singleton. split; [tauto|].
        intros Hn [Hin| ->]; done. }
      rewrite Hfilter. destruct (decide (k ∈ left.*1)) as [Hin|Hin].
      * rewrite app_nil_r. by destruct (decide (k ∉ left.*1)).
      * destruct (decide (k ∉ left.*1)); [|done]. by rewrite <- app_assoc.
    + intros k0 Hk0. rewrite fmap_cons in Hk0. cbn [fst] in Hk0.
      apply not_elem_of_cons in Hk0 as [Hne Hk0].
      rewrite (Hother k0 Hk0). by apply dict_get_set_ne.
    + intros k0 v0 Hin. apply elem_of_cons in Hin as [[= -> ->]|Hin].
      * exists x. split; [|done]. rewrite (Hother k Hk). apply dict_get_set_eq.
      * destruct (Hset k0 v0 Hin) as (x0 & Hget & Hmerged).
        exists x0. split; [done|].
        assert (Hne : k0 <> k).
        { intros ->. apply Hk. apply list_elem_of_fmap. by exists (k, v0). }
        unfold merged in *. by rewrite dict_get_set_ne in Hmerged.
Qed.

Lemma update_entries_Ok_iff (right : list (key * yaml)) :
  forall left : list (key * yaml),
    NoDup right.*1 ->
    (exists res, update_entries (YDict left) right = Ok res)
    <-> (forall k v, (k, v) ∈ right -> exists x, merged left k v x).
Proof.
  induction right as [|[k v] rest IH]; intros left Hnodup.
  - split; [|by exists (YDict left)].
    intros _ k v Hin. by apply elem_of_nil in Hin.
  - rewrite fmap_cons in Hnodup. cbn [fst] in Hnodup.
    apply NoDup_cons in Hnodup as [Hk Hnodup].
    assert (Hframe : forall x k0 v0 x0, (k0, v0) ∈ rest ->
              merged (dict_set k x left) k0 v0 x0 <-> merged left k0 v0 x0).
    { intros x k0 v0 x0 Hin.
      assert (Hne : k0 <> k).
      { intros ->. apply Hk. apply list_elem_of_fmap. by exists (k, v0). }
      unfold merged. by rewrite dict_get_set_ne. }
    assert (Hstep : forall res,
              update_entries (YDict left) ((k, v) :: rest) = Ok res
              <-> exists x, merged left k v x /\
                    update_entries (YDict (dict_set k x left)) rest = Ok res).
    { intros res. unfold merged. destruct (is_mapping v) eqn:Hv.
      - rewrite update_entries_dict by done. simpl.
        destruct (bool_of (default YNone (dict_get k left))).
        + destruct (recursive_update _ v) as [d_val'|e].
          * split; [by exists d_val'|]. by intros (x & [= <-] & Hrest).
          * split; [discriminate|]. by intros (x & [=] & _).
        + split; [by exists v|]. by intros (x & -> & Hrest).
      - rewrite update_entries_not_dict by done. simpl.
        split; [by exists v|]. by intros (x & -> & Hrest). }
    split.
    + intros [res Hres]. apply Hstep in Hres as (x & Hx & Hrest).
      intros k0 v0 Hin. apply elem_of_cons in Hin as [[= -> ->]|Hin]; [by exists x|].
      assert (Hall : exists res, update_entries (YDict (dict_set k x left)) rest = Ok res)
        by (by exists res).
      destruct (IH (dict_set k x left) Hnodup) as [IHl _].
      destruct (IHl Hall k0 v0 Hin) as [x0 Hx0].
      exists x0. by apply (Hframe x).
    + intros Hall. destruct (Hall k v) as [x Hx]; [left|].
      assert (Hrest : exists res,
                update_entries (YDict (dict_set k x left)) rest = Ok res).
      { destruct (IH (dict_set k x left) Hnodup) as [_ IHr].
        apply IHr. intros k0 v0 Hin.
        destruct (Hall k0 v0) as [x0 Hx0]; [by right|].
        exists x0. by apply Hframe. }
      destruct Hrest as [res Hres]. exists res. apply Hstep. by exists x.
Qed.

Lemma dict_get_Some_elem (k : key) (v : yaml) (entries : list (key * yaml)) :
  dict_get k entries = Some v -> (k, v) ∈ entries.
Proof.
  induction entries as [|[k' v'] rest IH]; simpl; [discriminate|].
  destruct (decide (k' = k)) as [->|Hne].
  - intros [= ->]. left.
  - intros Hget. right. by apply IH.
Qed.

Lemma dict_set_same (k : key) (v : yaml) (entries : list (key * yaml)) :
  dict_get k entries = Some v -> dict_set k v entries = entries.
Proof.
  induction entries as [|[k' v'] rest IH]; simpl; [discriminate|].
  destruct (decide (k' = k)) as [->|Hne].
  - by intros [= ->].
  - intros Hget. by rewrite IH.
Qed.

(** A flat update whose every entry is already in place changes nothing. *)
Lemma update_entries_in_place (right : list (key * yaml)) :
  forall left : list (key * yaml),
    Forall (fun kv => is_mapping kv.2 = false) right ->
    (forall k v, (k, v) ∈ right -> dict_get k left = Some v) ->
    update_entries (YDict left) right = Ok (YDict left).
Proof.
  induction right as [|[k v] rest IH]; intros left Hflat Hin; [done|].
  apply Forall_cons in Hflat as [Hv Hflat]. simpl in Hv.
  rewrite update_entries_not_dict by done. simpl.
  rewrite dict_set_same by (apply Hin; left).
  apply IH; [done|]. intros k0 v0 Hin0. apply Hin. by right.
Qed.

(** X24.  Updating a mapping with a flat mapping (none of its values is a
    mapping) always succeeds.  In the result the keys of [left] keep their
    places and the new keys follow in the order of [right]; every key of
    [right] holds the value [right] gives it and every other key the value
    it had; and updating the result with the same [right] once more changes
    nothing. *)
Theorem recursive_update_flat (left right : list (key * yaml)) :
  NoDup right.*1 ->
  Forall (fun kv => is_mapping kv.2 = false) right ->
  exists left',
    recursive_update (YDict left) (YDict right) = Ok (YDict left') /\
    left'.*1 = left.*1 ++ filter (fun k => k ∉ left.*1) right.*1 /\
    (forall k, dict_get k left'
               = match dict_get k right with
                 | Some v => Some v
                 | None => dict_get k left
                 end) /\
    recursive_update (YDict left') (YDict right) = Ok (YDict left').
Proof.
  intros Hnodup Hflat. rewrite recursive_update_unfold.
  assert (Hmerged : forall k v x, (k, v) ∈ right -> merged left k v x <-> x = v).
  { intros k v x Hin. unfold merged.
    rewrite Forall_forall in Hflat. specialize (Hflat (k, v) Hin). simpl in Hflat.
    by rewrite Hflat. }
  assert (Hok : exists res, update_entries (YDict left) right = Ok res).
  { apply update_entries_Ok_iff; [done|]. intros k v Hin. exists v. by apply Hmerged. }
  destruct Hok as [res Hres].
  destruct (update_entries_spec right left res Hnodup Hres)
    as (left' & -> & Hkeys & Hother & Hset).
  exists left'. split; [done|]. split; [done|].
  assert (Hget : forall k v, (k, v) ∈ right -> dict_get k left' = Some v).
  { intros k v Hin. destruct (Hset k v Hin) as (x & Hx & Hm).
    apply Hmerged in Hm; [|done]. by subst. }
  split.
  - intros k. destruct (dict_get k right) as [v|] eqn:Hk.
    + apply Hget. by apply dict_get_Some_elem.
    + apply Hother. by apply dict_get_None.
  - rewrite recursive_update_unfold. by apply update_entries_in_place.
Qed.

Lemma recursive_update_flat_witness :
  exists left',
    recursive_update matrix_release bump_proposal = Ok (YDict left') /\
    left'.*1 = [KStr "numpy"; KStr "python"; KStr "scipy"] /\
    dict_get (KStr "numpy") left' = Some (YStr "1.24").
Proof.
  assert (Hnodup : NoDup [ (KStr "scipy", YStr "1.10");
                           (KStr "numpy", YStr "1.24") ].*1).
  { apply (bool_decide_unpack _). vm_compute. exact I. }
  assert (Hflat : Forall (fun kv : key * yaml => is_mapping kv.2 = false)
                         [ (KStr "scipy", YStr "1.10"); (KStr "numpy", YStr "1.24") ]).
  { repeat constructor. }
  destruct (recursive_update_flat
              [ (KStr "numpy", YStr "1.23");
                (KStr "python", YDict [(KStr "rhel7", YStr "3.8");
                                       (KStr "rhel8", YStr "3.11")]) ]
              [ (KStr "scipy", YStr "1.10"); (KStr "numpy", YStr "1.24") ]
              Hnodup Hflat)
    as (left' & Hrun & Hkeys & Hget & _).
  exists left'. split; [exact Hrun|]. split.
  - rewrite Hkeys. vm_compute. reflexivity.
  - rewrite Hget. vm_compute. reflexivity.
Defined.

(** X25.  Updating a mapping with a mapping succeeds exactly when every
    nested update it calls for succeeds: one for each entry of [right] that
    is a mapping while [left] holds a true value under the same key.  In
    the result the keys of [left] keep their places and the new keys follow
    in the order of [right]; a key that [right] does not have holds what it
    held; a key of [right] holds the outcome of its nested update, and
    otherwise the value [right] gives it, which thus replaces a value of
    [left] that is missing, [None], empty, or not matched by a mapping. *)
Theorem recursive_update_nested (left right : list (key * yaml)) :
  NoDup right.*1 ->
  ((exists res, recursive_update (YDict left) (YDict right) = Ok res)
   <-> (forall k v, (k, v) ∈ right -> exists x, merged left k v x)) /\
  (forall res,
     recursive_update (YDict left) (YDict right) = Ok res ->
     exists left',
       res = YDict left' /\
       left'.*1 = left.*1 ++ filter (fun k => k ∉ left.*1) right.*1 /\
       (forall k, k ∉ right.*1 -> dict_get k left' = dict_get k left) /\
       (forall k v, (k, v) ∈ right ->
          exists x, dict_get k left' = Some x /\ merged left k v x)).
Proof.
  intros Hnodup. rewrite recursive_update_unfold. split.
  - by apply update_entries_Ok_iff.
  - intros res. by apply update_entries_spec.
Qed.

Lemma recursive_update_nested_witness :
  exists left',
    recursive_update matrix_release
      (YDict [(KStr "python", YDict [(KStr "rhel8", YStr "3.12")]);
              (KStr "scipy", YDict [(KStr "rhel7", YStr "1.10")])])
    = Ok (YDict left') /\
    left'.*1 = [KStr "numpy"; KStr "python"; KStr "scipy"] /\
    dict_get (KStr "python") left'
    = Some (YDict [(KStr "rhel7", YStr "3.8"); (KStr "rhel8", YStr "3.12")]).
Proof.
  assert (Hnodup : NoDup [(KStr "python", YDict [(KStr "rhel8", YStr "3.12")]);
                          (KStr "scipy", YDict [(KStr "rhel7", YStr "1.10")])].*1).
  { apply (bool_decide_unpack _). vm_compute. exact I. }
  destruct (recursive_update_nested
              [ (KStr "numpy", YStr "1.23");
                (KStr "python", YDict [(KStr "rhel7", YStr "3.8");
                                       (KStr "rhel8", YStr "3.11")]) ]
              [(KStr "python", YDict [(KStr "rhel8", YStr "3.12")]);
               (KStr "scipy", YDict [(KStr "rhel7", YStr "1.10")])] Hnodup)
    as [_ Hspec].
  destruct (Hspec (YDict [ (KStr "numpy", YStr "1.23");
                           (KStr "python", YDict [(KStr "rhel7", YStr "3.8");
                                                  (KStr "rhel8", YStr "3.12")]);
                           (KStr "scipy", YDict [(KStr "rhel7", YStr "1.10")]) ]))
    as (left' & Hres & Hkeys & _ & Hset); [vm_compute; reflexivity|].
  injection Hres as <-. eexists. split; [vm_compute; reflexivity|].
  split; vm_compute; reflexivity.
Defined.

(** X26.  A proposal cannot turn a plain version into a mapping of
    versions: when [left] holds a non-empty string under a key for which
    [right] holds a non-empty mapping, the update raises.  When that entry
    is the first of [right], what is raised is [TypeError] if the first
    value of the nested mapping is not a mapping itself (a string takes no
    item assignment) and [AttributeError] if it is (a string has no [get]). *)
Theorem recursive_update_mapping_over_string (left right : list (key * yaml))
    (k : key) (s : string) (k' : key) (v' : yaml) (rest : list (key * yaml)) :
  NoDup right.*1 ->
  (k, YDict ((k', v') :: rest)) ∈ right ->
  dict_get k left = Some (YStr s) -> s <> "" ->
  (exists e, recursive_update (YDict left) (YDict right) = Err e) /\
  (head right = Some (k, YDict ((k', v') :: rest)) ->
   recursive_update (YDict left) (YDict right)
   = Err (Builtin (if is_mapping v' then AttributeError else TypeError))).
Proof.
  intros Hnodup Hin Hget Hs.
  assert (Htruthy : bool_of (YStr s) = true).
  { simpl. by rewrite bool_decide_eq_false_2. }
  assert (Hnested : recursive_update (YStr s) (YDict ((k', v') :: rest))
                    = Err (Builtin (if is_mapping v' then AttributeError else TypeError))).
  { rewrite recursive_update_unfold. by destruct v'. }
  split.
  - destruct (recursive_update (YDict left) (YDict right)) as [res|e] eqn:Hrun;
      [|by exists e].
    rewrite recursive_update_unfold in Hrun.
    assert (Hok : exists res, update_entries (YDict left) right = Ok res)
      by (by exists res).
    destruct (update_entries_Ok_iff right left Hnodup) as [Hall _].
    destruct (Hall Hok _ _ Hin) as [x Hx]. unfold merged in Hx.
    rewrite Hget in Hx. simpl in Hx. rewrite bool_decide_eq_false_2 in Hx by done.
    simpl in Hx. change (recursive_update (YStr s) (YDict ((k', v') :: rest)) = Ok x) in Hx.
    congruence.
  - destruct right as [|entry others]; [discriminate|]. intros [= ->].
    rewrite recursive_update_unfold, update_entries_dict by done.
    rewrite Hget. simpl default. cbv zeta. rewrite Htruthy. by rewrite Hnested.
Qed.

Lemma recursive_update_mapping_over_string_witness :
  recursive_update matrix_release split_proposal = Err (Builtin TypeError).
Proof.
  apply (recursive_update_mapping_over_string
           [ (KStr "numpy", YStr "1.23");
             (KStr "python", YDict [(KStr "rhel7", YStr "3.8");
                                    (KStr "rhel8", YStr "3.11")]) ]
           [ (KStr "numpy", YDict [(KStr "rhel7", YStr "1.23");
                                   (KStr "rhel8", YStr "1.24")]) ]
           (KStr "numpy") "1.23" (KStr "rhel7") (YStr "1.23")
           [(KStr "rhel8", YStr "1.24")]).
  - apply (bool_decide_unpack _). vm_compute. exact I.
  - left.
  - reflexivity.
  - discriminate.
  - reflexivity.
Defined.

(** ** Opening a release: [insert_proposals] *)

(** Undoes the plumbing of [remote] in a hypothesis about a run. *)
Ltac run_remote H :=
  unfold insert_proposals, load_yaml_from_repo, branch_exists, delete_quietly,
    get_branch, get_contents, write, rbind, rlift, rret, rraise in H;
  simpl in H.

Lemma index_year_month (parts : list string) (year month : string) :
  index parts 0 = Ok year -> index parts 1 = Ok month ->
  exists rest, parts = year :: month :: rest.
Proof.
  destruct parts as [|y [|m rest]]; try discriminate.
  intros [= ->] [= ->]. by exists rest.
Qed.

(** X27.  When [insert_proposals] returns an error instead of raising or
    completing, it has changed nothing: every call it made on the repository
    was a read.  The error is one of three: the target branch exists, the
    temporary branch exists, or the proposals have no section for the year
    and month of the target. *)
Theorem insert_proposals_refusal_only_reads (G : github)
    (base target git_ref jobname joburl : string) (calls : list call)
    (message : string) :
  let run := insert_proposals G base target git_ref jobname joburl calls in
  run.1 = Ok (Some message) ->
  (exists made,
     run.2 = calls ++ made /\ Forall (fun c => is_write c = false) made) /\
  (message = "Branch " +:+ target +:+ " exists already" \/
   message = "Branch " +:+ (target +:+ ".tmp") +:+ " exists already" \/
   exists year month rest,
     split "." target = year :: month :: rest /\
     message = "No section for this release (" +:+ (year +:+ "-" +:+ month)
                 +:+ ") in upgrade_proposals.yml").
Proof.
  simpl. destruct (insert_proposals G base target git_ref jobname joburl calls)
    as [r calls'] eqn:Hrun.
  simpl. intros ->. run_remote Hrun.
  destruct (index (split "." target) 0) as [year|] eqn:Hyear; [|discriminate].
  destruct (index (split "." target) 1) as [month|] eqn:Hmonth; [|discriminate].
  destruct (index_year_month _ _ _ Hyear Hmonth) as [rest Hsplit].
  simpl in Hrun.
  repeat (case_match; simplify_eq; simpl in *; try discriminate).
  all: split; [eexists; split; [try rewrite <- !app_assoc; reflexivity|repeat constructor]|].
  all: eauto 10.
Qed.

Lemma insert_proposals_refusal_only_reads_witness :
  insert_proposals office "2024.04.rc3" "2024.07.rc1" "main" "job"
                   "https://ci/job" []
  = (Ok (Some "No section for this release (2024-07) in upgrade_proposals.yml"),
     [GetBranch "2024.07.rc1"; GetBranch "2024.07.rc1.tmp";
      GetContents "upgrade_proposals.yml" "main"]) /\
  insert_proposals office "2024.04.rc3" "main" "main" "job" "https://ci/job" []
  = (Err IndexError, []).
Proof.
  assert (Hrun : (insert_proposals office "2024.04.rc3" "2024.07.rc1" "main" "job"
                    "https://ci/job" []).1
                 = Ok (Some "No section for this release (2024-07) in upgrade_proposals.yml"))
    by (vm_compute; reflexivity).
  destruct (insert_proposals_refusal_only_reads office "2024.04.rc3" "2024.07.rc1"
              "main" "job" "https://ci/job" [] _ Hrun) as [_ _].
  split; vm_compute; reflexivity.
Defined.

(** X28.  A run of [insert_proposals] that completes has made fifteen calls
    on the repository, in this order: it looked for the two branches, read
    the proposals and the base release, read the head of [git_ref], made
    the temporary branch there, created the release file on it, read and
    rewrote the proposals on it, read the base release again, made the target
    branch at the same commit, opened the temporary pull request into the
    target, merged it by squash, deleted the temporary branch, and opened the
    pull request of the target into [git_ref].  The squashed commit and the
    pull request carry the same message.  Whether deleting the temporary
    branch succeeded does not matter. *)
Theorem insert_proposals_completed_calls (G : github)
    (base target git_ref jobname joburl : string) (calls : list call) :
  let run := insert_proposals G base target git_ref jobname joburl calls in
  let tmp_target := target +:+ ".tmp" in
  let base_file := "releases/matrices/" +:+ base +:+ ".yml" in
  let target_file := "releases/matrices/" +:+ target +:+ ".yml" in
  run.1 = Ok None ->
  exists from_sha result cleaned_upgrade sha base_text,
    let pr_msg := pr_message G base target base_file target_file
                    (diff_file_and_string G base_text result base target)
                    jobname joburl in
    run.2 = calls ++
      [ GetBranch target;
        GetBranch tmp_target;
        GetContents "upgrade_proposals.yml" git_ref;
        GetContents base_file git_ref;
        GetBranch git_ref;
        CreateGitRef ("refs/heads/" +:+ tmp_target) from_sha;
        CreateFile target_file ("Add release " +:+ target) result tmp_target;
        GetContents "upgrade_proposals.yml" git_ref;
        UpdateFile "upgrade_proposals.yml" "Clean proposals" cleaned_upgrade sha
                   tmp_target;
        GetContents base_file git_ref;
        CreateGitRef ("refs/heads/" +:+ target) from_sha;
        CreatePull ("Temporary PR " +:+ target) "should not be seen" tmp_target
                   target;
        Merge ("Temporary PR " +:+ target) pr_msg ("Add release " +:+ target)
              "squash";
        DeleteGitRef ("refs/heads/" +:+ tmp_target);
        CreatePull ("Add release " +:+ target) pr_msg target git_ref ].
Proof.
  simpl. destruct (insert_proposals G base target git_ref jobname joburl calls)
    as [r calls'] eqn:Hrun.
  simpl. intros ->. run_remote Hrun.
  repeat (case_match; simplify_eq; simpl in *; try discriminate).
  all: repeat match goal with p : (string * string)%type |- _ => destruct p end.
  all: simpl; do 5 eexists; rewrite <- !app_assoc; simpl; reflexivity.
Qed.

Lemma insert_proposals_completed_calls_witness :
  let run := insert_proposals office "2024.04.rc3" "2024.05.rc1" "main" "job"
                              "https://ci/job" [] in
  run.1 = Ok None /\
  List.filter is_write run.2
  = [ CreateGitRef "refs/heads/2024.05.rc1.tmp" "c0ffee";
      CreateFile "releases/matrices/2024.05.rc1.yml" "Add release 2024.05.rc1"
                 "numpy=1.24;python=?;scipy=1.10" "2024.05.rc1.tmp";
      UpdateFile "upgrade_proposals.yml" "Clean proposals" "2024-05=~;2024-06=~"
                 "5ca1ab1e" "2024.05.rc1.tmp";
      CreateGitRef "refs/heads/2024.05.rc1" "c0ffee";
      CreatePull "Temporary PR 2024.05.rc1" "should not be seen" "2024.05.rc1.tmp"
                 "2024.05.rc1";
      Merge "Temporary PR 2024.05.rc1"
            (pr_message office "2024.04.rc3" "2024.05.rc1"
               "releases/matrices/2024.04.rc3.yml"
               "releases/matrices/2024.05.rc1.yml" "" "job" "https://ci/job")
            "Add release 2024.05.rc1" "squash";
      DeleteGitRef "refs/heads/2024.05.rc1.tmp";
      CreatePull "Add release 2024.05.rc1"
            (pr_message office "2024.04.rc3" "2024.05.rc1"
               "releases/matrices/2024.04.rc3.yml"
               "releases/matrices/2024.05.rc1.yml" "" "job" "https://ci/job")
            "2024.05.rc1" "main" ].
Proof.
  intros run.
  assert (Hrun : run.1 = Ok None) by (vm_compute; reflexivity).
  split; [exact Hrun|].
  destruct (insert_proposals_completed_calls office "2024.04.rc3" "2024.05.rc1"
              "main" "job" "https://ci/job" [] Hrun)
    as (from_sha & result & cleaned_upgrade & sha & base_text & Hcalls).
  vm_compute. reflexivity.
Defined.

Lemma dict_set_present_keys (k : key) (v : yaml) (entries : list (key * yaml)) :
  is_Some (dict_get k entries) -> (dict_set k v entries).*1 = entries.*1.
Proof.
  intros Hsome. rewrite dict_set_keys.
  destruct (decide (k ∈ entries.*1)) as [Hin|Hin]; [by rewrite app_nil_r|].
  apply dict_get_None in Hin. rewrite Hin in Hsome. by destruct Hsome.
Qed.

(** X29.  In a run of [insert_proposals] that completes, the release file
    created on the temporary branch is the text of the base release as
    loaded, updated with the section that the proposals as loaded hold for
    the year and month of the target, or of the base release itself when
    that section is [None] or empty.  The proposals written back have the
    same sections in the same order, this one set to [None] and every other
    as it was. *)
Theorem insert_proposals_completed_contents (G : github)
    (base target git_ref jobname joburl : string) (calls : list call) :
  let run := insert_proposals G base target git_ref jobname joburl calls in
  let tmp_target := target +:+ ".tmp" in
  let base_file := "releases/matrices/" +:+ base +:+ ".yml" in
  let target_file := "releases/matrices/" +:+ target +:+ ".yml" in
  run.1 = Ok None ->
  exists year month rest proposals upgrade base_dict merged result cleaned
         cleaned_upgrade,
    split "." target = year :: month :: rest /\
    (exists before text sha,
       contents G before "upgrade_proposals.yml" git_ref = Ok (text, sha) /\
       ruamel_load G text = Ok (YDict proposals)) /\
    (exists before text sha,
       contents G before base_file git_ref = Ok (text, sha) /\
       ruamel_load G text = Ok base_dict) /\
    dict_get (KStr (year +:+ "-" +:+ month)) proposals = Some upgrade /\
    (if bool_of upgrade then recursive_update base_dict upgrade = Ok merged
     else merged = base_dict) /\
    write_to_string G merged None = Ok result /\
    CreateFile target_file ("Add release " +:+ target) result tmp_target ∈ run.2 /\
    cleaned.*1 = proposals.*1 /\
    (forall k, dict_get k cleaned
               = if decide (k = KStr (year +:+ "-" +:+ month)) then Some YNone
                 else dict_get k proposals) /\
    write_to_string G (YDict cleaned) (Some false) = Ok cleaned_upgrade /\
    (exists sha, UpdateFile "upgrade_proposals.yml" "Clean proposals"
                            cleaned_upgrade sha tmp_target ∈ run.2).
Proof.
  simpl. destruct (insert_proposals G base target git_ref jobname joburl calls)
    as [r calls'] eqn:Hrun.
  simpl. intros ->. run_remote Hrun.
  destruct (index (split "." target) 0) as [year|] eqn:Hyear; [|discriminate].
  destruct (index (split "." target) 1) as [month|] eqn:Hmonth; [|discriminate].
  destruct (index_year_month _ _ _ Hyear Hmonth) as [rest Hsplit].
  simpl in Hrun.
  repeat (case_match; simplify_eq; simpl in *; try discriminate).
  all: repeat match goal with p : (string * string)%type |- _ => destruct p end.
  all: simpl in *.
  all: match goal with
       | H : get ?a _ = Ok _ |- _ =>
           destruct a as [| | | | |proposals]; try discriminate
       end.
  all: simpl in *; simplify_eq.
  all: match goal with
       | H : negb (bool_decide (is_Some ?o)) = false |- _ =>
           apply negb_false_iff, bool_decide_eq_true_1 in H;
           destruct H as [upgrade Hupgrade]
       end.
  all: rewrite Hupgrade in *; simpl in *.
  all: match goal with
       | Hs : split "." _ = ?year :: ?month :: ?rest,
         Hu : dict_get _ ?proposals = Some ?upgrade,
         Hc : contents ?G _ "upgrade_proposals.yml" _ = Ok (?s, _),
         Hl : ruamel_load ?G ?s = Ok (YDict ?proposals),
         Hc' : contents ?G _ ("releases/matrices/" +:+ _ +:+ ".yml") _
               = Ok (?s', _),
         Hl' : ruamel_load ?G ?s' = Ok ?base_dict,
         Hw : write_to_string ?G ?merged None = Ok ?result,
         Hw' : write_to_string ?G (YDict ?cleaned) (Some false) = Ok ?text |- _ =>
           exists year, month, rest, proposals, upgrade, base_dict, merged,
                  result, cleaned, text;
           split; [exact Hs|];
           split; [do 3 eexists; split; [exact Hc|exact Hl]|];
           split; [do 3 eexists; split; [exact Hc'|exact Hl']|];
           split; [exact Hu|];
           split; [match goal with H : bool_of upgrade = _ |- _ => rewrite H end;
                   done|];
           split; [exact Hw|];
           split; [rewrite !elem_of_app, !elem_of_cons; tauto|];
           split; [apply dict_set_present_keys; by rewrite Hu|];
           split; [intros k; destruct (decide (k = _)) as [->|Hne];
                     [apply dict_get_set_eq|by apply dict_get_set_ne]|];
           split; [exact Hw'|];
           eexists; rewrite !elem_of_app, !elem_of_cons; tauto
       end.
Qed.

Lemma insert_proposals_completed_contents_witness :
  let run := insert_proposals office "2024.04.rc3" "2024.05.rc1" "main" "job"
                              "https://ci/job" [] in
  run.1 = Ok None /\
  recursive_update matrix_release bump_proposal
  = Ok (YDict [ (KStr "numpy", YStr "1.24");
                (KStr "python", YDict [(KStr "rhel7", YStr "3.8");
                                       (KStr "rhel8", YStr "3.11")]);
                (KStr "scipy", YStr "1.10") ]) /\
  run.2 !! 6%nat
  = Some (CreateFile "releases/matrices/2024.05.rc1.yml" "Add release 2024.05.rc1"
                     "numpy=1.24;python=?;scipy=1.10" "2024.05.rc1.tmp").
Proof.
  intros run.
  assert (Hrun : run.1 = Ok None) by (vm_compute; reflexivity).
  split; [exact Hrun|].
  destruct (insert_proposals_completed_contents office "2024.04.rc3"
              "2024.05.rc1" "main" "job" "https://ci/job" [] Hrun)
    as (year & month & rest & proposals & upgrade & base_dict & merged & result
        & cleaned & cleaned_upgrade & _).
  split; vm_compute; reflexivity.
Defined.

(** X30.  The target must name a year and a month, separated by a dot: for
    a target without a dot [insert_proposals] raises [IndexError] before it
    makes any call on the repository. *)
Theorem insert_proposals_needs_year_and_month (G : github)
    (base target git_ref jobname joburl : string) (calls : list call) :
  count_char "." target = 0%nat ->
  insert_proposals G base target git_ref jobname joburl calls
  = (Err IndexError, calls).
Proof.
  intros Hcount. pose proof (length_split "." target) as Hlen.
  rewrite Hcount in Hlen. unfold insert_proposals, rbind, rlift.
  destruct (split "." target) as [|year [|month rest]]; try discriminate.
  reflexivity.
Qed.

Lemma insert_proposals_needs_year_and_month_witness :
  insert_proposals office "2024.04.rc3" "main" "main" "job" "https://ci/job" []
  = (Err IndexError, []).
Proof.
  apply (insert_proposals_needs_year_and_month office "2024.04.rc3" "main" "main"
           "job" "https://ci/job" []).
  vm_compute. reflexivity.
Defined.
